(** * YOMOO daily newsletter sender: a shallow embedding and its properties

    The repository holds two variants of one Node.js script:
    - [.github/scripts/send-newsletter.js]: batch sending only; a failed
      batch counts all of its messages as failed;
    - [unnamed/part_000]: the same script with address validation and a
      per-message fallback when a batch fails.

    JavaScript strings are sequences of UTF-16 code units; they are modelled
    as lists of [N].  Network, clock and console are modelled by a small
    monad that threads a request counter and writes a trace of events. *)

From Stdlib Require Import List NArith ZArith Lia Bool Arith.
From Stdlib Require Ascii String QArith Qround.
From Equations Require Import Equations.
Import ListNotations.
Import String.StringSyntax.
Delimit Scope string_scope with string.

Set Implicit Arguments.

(** ** JavaScript strings *)

Definition jsstring := list N.

(** A literal of the source, code unit by code unit (ASCII literals). *)
Fixpoint js (s : String.string) : jsstring :=
  match s with
  | String.EmptyString => []
  | String.String c s' => Ascii.N_of_ascii c :: js s'
  end.
Arguments js s%_string_scope.

Definition jsstring_eqb (a b : jsstring) : bool :=
  if list_eq_dec N.eq_dec a b then true else false.

Definition ch_at : N := 64.       (* @ *)
Definition ch_star : N := 42.     (* * *)
Definition ch_dot : N := 46.      (* . *)
Definition ch_dollar : N := 36.   (* $ *)
Definition ch_slash : N := 47.    (* / *)
Definition ch_lbrace : N := 123.  (* { *)
Definition ch_rbrace : N := 125.  (* } *)
Definition ch_percent : N := 37.  (* % *)

(** [s.split(sep)] for a one-character separator: never empty. *)
Fixpoint split (sep : N) (s : jsstring) : list jsstring :=
  match s with
  | [] => [[]]
  | c :: s' =>
      if N.eqb c sep then [] :: split sep s'
      else match split sep s' with
           | p :: ps => (c :: p) :: ps
           | [] => [[c]]
           end
  end.

(** ["*".repeat(n)] *)
Definition stars (n : nat) : jsstring := repeat ch_star n.

(** [s[i]] used in a string concatenation: a one-character string, or the
    text of [undefined] when [i] is out of range. *)
Definition str_index (s : jsstring) (i : nat) : jsstring :=
  match nth_error s i with
  | Some c => [c]
  | None => js "undefined"
  end.

(** [!x] for a value that is a string or [undefined]. *)
Definition falsy (x : option jsstring) : bool :=
  match x with
  | None => true
  | Some [] => true
  | Some (_ :: _) => false
  end.

(** ** maskEmail (the same text in both scripts) *)

Definition maskEmail (email : jsstring) : jsstring :=
  let pieces := split ch_at email in
  let local := nth 0 pieces [] in
  let domain := nth_error pieces 1 in
  if falsy domain then js "***"
  else
    let maskedLocal :=
      if (length local <=? 2)%nat then stars (length local)
      else str_index local 0 ++ stars (length local - 2)
           ++ str_index local (length local - 1) in
    maskedLocal ++ js "@" ++ match domain with Some d => d | None => js "undefined" end.


(** ** Regular expressions (the fragment the scripts use)

    [RegExp.prototype.test] on a pattern anchored by [^] and [$] (no
    [m] flag) asks whether the whole string is in the pattern's language;
    backtracking and derivatives agree on that question. *)

Inductive regex : Type :=
| RNone                       (* matches nothing *)
| REps                        (* the empty string *)
| RClass (p : N -> bool)      (* one code unit of a class *)
| RSeq (r1 r2 : regex)
| RAlt (r1 r2 : regex)
| RStar (r : regex).

Definition RChar (c : N) : regex := RClass (N.eqb c).
Definition RPlus (r : regex) : regex := RSeq r (RStar r).

Fixpoint nullable (r : regex) : bool :=
  match r with
  | RNone => false
  | REps => true
  | RClass _ => false
  | RSeq r1 r2 => nullable r1 && nullable r2
  | RAlt r1 r2 => nullable r1 || nullable r2
  | RStar _ => true
  end.

Fixpoint deriv (c : N) (r : regex) : regex :=
  match r with
  | RNone => RNone
  | REps => RNone
  | RClass p => if p c then REps else RNone
  | RSeq r1 r2 =>
      if nullable r1 then RAlt (RSeq (deriv c r1) r2) (deriv c r2)
      else RSeq (deriv c r1) r2
  | RAlt r1 r2 => RAlt (deriv c r1) (deriv c r2)
  | RStar r1 => RSeq (deriv c r1) (RStar r1)
  end.

(** [/^r$/.test(s)] *)
Fixpoint regex_test (r : regex) (s : jsstring) : bool :=
  match s with
  | [] => nullable r
  | c :: s' => regex_test (deriv c r) s'
  end.

(** The class [\s] of ECMAScript: WhiteSpace and LineTerminator. *)
Definition is_js_space (c : N) : bool :=
  ((9 <=? c) && (c <=? 13) || (c =? 32) || (c =? 160) || (c =? 5760)
   || (8192 <=? c) && (c <=? 8202) || (c =? 8232) || (c =? 8233)
   || (c =? 8239) || (c =? 8287) || (c =? 12288) || (c =? 65279))%N.

(** ** String.prototype.replace with a global literal pattern *)

Definition ch_amp : N := 38.       (* & *)
Definition ch_backtick : N := 96.  (* ` *)
Definition ch_quote : N := 39.     (* ' *)

Fixpoint starts_with (pat s : jsstring) : bool :=
  match pat, s with
  | [], _ => true
  | p :: pat', c :: s' => N.eqb p c && starts_with pat' s'
  | _ :: _, [] => false
  end.

(** [s.includes(pat)] *)
Fixpoint includes (pat s : jsstring) : bool :=
  starts_with pat s ||
  match s with
  | [] => false
  | _ :: s' => includes pat s'
  end.

(** GetSubstitution of ECMAScript for a pattern without capture groups:
    [$$], [$&], [$`] and [$'] are expanded; [$] before anything else
    (a digit or [<] included, there being no groups) stands for itself. *)
Fixpoint GetSubstitution (matched before after template : jsstring) : jsstring :=
  match template with
  | [] => []
  | c :: t =>
      if N.eqb c ch_dollar then
        match t with
        | [] => [ch_dollar]
        | d :: t' =>
            if N.eqb d ch_dollar then ch_dollar :: GetSubstitution matched before after t'
            else if N.eqb d ch_amp then matched ++ GetSubstitution matched before after t'
            else if N.eqb d ch_backtick then before ++ GetSubstitution matched before after t'
            else if N.eqb d ch_quote then after ++ GetSubstitution matched before after t'
            else ch_dollar :: GetSubstitution matched before after t
        end
      else c :: GetSubstitution matched before after t
  end.

(** [str.replace(/pat/g, template)] for a non-empty literal [pat]: the
    matches are found from left to right and do not overlap; [before] is
    the part of the string already passed. *)
Equations? replace_from (pat template before rest : jsstring) : jsstring
  by wf (length rest) lt :=
  replace_from pat template before [] := [];
  replace_from pat template before (c :: rest') with starts_with pat (c :: rest') := {
    | true :=
        GetSubstitution pat before (skipn (length pat - 1) rest') template
        ++ replace_from pat template (before ++ pat) (skipn (length pat - 1) rest');
    | false := c :: replace_from pat template (before ++ [c]) rest' }.
Proof. all: try rewrite length_skipn; simpl; lia. Qed.

Definition replace_global (pat template str : jsstring) : jsstring :=
  replace_from pat template [] str.

(** [url.replace(/\/$/, "")]: one trailing slash is removed. *)
Fixpoint strip_trailing_slash (s : jsstring) : jsstring :=
  match s with
  | [] => []
  | [c] => if N.eqb c ch_slash then [] else [c]
  | c :: s' => c :: strip_trailing_slash s'
  end.

(** ** encodeURIComponent *)

(** The characters left as they are: ASCII letters and digits and
    [- _ . ! ~ * ' ( )]. *)
Definition uri_unescaped (c : N) : bool :=
  ((65 <=? c) && (c <=? 90) || (97 <=? c) && (c <=? 122)
   || (48 <=? c) && (c <=? 57)
   || (c =? 45) || (c =? 95) || (c =? 46) || (c =? 33) || (c =? 126)
   || (c =? 42) || (c =? 39) || (c =? 40) || (c =? 41))%N.

Definition is_high_surrogate (c : N) : bool := ((55296 <=? c) && (c <=? 56319))%N.
Definition is_low_surrogate (c : N) : bool := ((56320 <=? c) && (c <=? 57343))%N.

(** One upper-case hexadecimal digit. *)
Definition hex_digit (d : N) : N :=
  (if d <? 10 then 48 + d else 55 + d)%N.

(** [%XX] for one octet. *)
Definition percent_octet (o : N) : jsstring :=
  [ch_percent; hex_digit ((o / 16) mod 16); hex_digit (o mod 16)].

(** The octets of the UTF-8 encoding of a code point. *)
Definition utf8_octets (cp : N) : list N :=
  (if cp <? 128 then [cp]
   else if cp <? 2048 then [192 + cp / 64; 128 + cp mod 64]
   else if cp <? 65536 then
     [224 + cp / 4096; 128 + (cp / 64) mod 64; 128 + cp mod 64]
   else
     [240 + (cp / 262144) mod 8; 128 + (cp / 4096) mod 64;
      128 + (cp / 64) mod 64; 128 + cp mod 64])%N.

Definition percent_encode (cp : N) : jsstring :=
  flat_map percent_octet (utf8_octets cp).

(** [None] stands for the URIError thrown at an unpaired surrogate. *)
Fixpoint encodeURIComponent (s : jsstring) : option jsstring :=
  match s with
  | [] => Some []
  | c :: rest =>
      if uri_unescaped c then option_map (cons c) (encodeURIComponent rest)
      else if is_low_surrogate c then None
      else if is_high_surrogate c then
        match rest with
        | [] => None
        | d :: rest' =>
            if is_low_surrogate d then
              option_map (app (percent_encode ((c - 55296) * 1024 + (d - 56320) + 65536)%N))
                         (encodeURIComponent rest')
            else None
        end
      else option_map (app (percent_encode c)) (encodeURIComponent rest)
  end.

(** ** Data of the scripts *)

Record Subscriber : Type := { email : jsstring }.

Record EmailMessage : Type :=
  { msg_from : jsstring; msg_to : jsstring; msg_subject : jsstring; msg_html : jsstring }.

(** A parsed response body. *)
#[local] Unset Elimination Schemes.
Inductive Json : Type :=
| JNull
| JBool (b : bool)
| JNum (n : Z)
| JStr (s : jsstring)
| JArr (items : list Json)
| JObj (fields : list (jsstring * Json)).
#[local] Set Elimination Schemes.

(** What [JSON.stringify] is applied to before a POST. *)
Inductive Payload : Type :=
| PBatch (emails : list EmailMessage)
| PSingle (e : EmailMessage).

(** [{ status, data }] as [fetchJson] resolves it. *)
Record Response (D : Type) : Type := { status : Z; data : D }.

(** What the network does with one request: the request errors (the promise
    of [fetchJson] rejects) or a response arrives. *)
Inductive Outcome (D : Type) : Type :=
| NetError (msg : jsstring)
| Reply (r : Response D).
Arguments NetError {D} msg.
Arguments Reply {D} r.

Inductive Error : Type :=
| NetworkError (msg : jsstring)
| URIError.

(** One argument of [console.log] or [console.error]. *)
#[local] Unset Elimination Schemes.
Inductive LogItem : Type :=
| LStr (s : jsstring)
| LNum (n : Z)
| LUndefined
| LCat (parts : list LogItem)          (* a concatenation or a template literal *)
| LJsonPrefix (len : nat) (j : Json)   (* JSON.stringify(j).slice(0, len) *)
| LErr (e : Error).
#[local] Set Elimination Schemes.

Inductive Event : Type :=
| EvRequest (url method : jsstring) (headers : list (jsstring * jsstring)) (body : option Payload)
| EvSleep (ms : Z)
| EvLog (args : list LogItem)
| EvError (args : list LogItem).

(** [{ success, status, data }] as returned by sendBatch and sendSingle. *)
Record SendResult : Type :=
  { success : bool; res_status : option Z; res_data : option Json }.

(** ** The monad of the scripts

    A computation starts with the number of provider requests made so far
    and gives a result, the new number, and the events it emitted.  A result
    is a value, a thrown error, or the status passed to [process.exit]. *)

Inductive Res (A : Type) : Type :=
| Ok (a : A)
| Throw (e : Error)
| Exit (code : Z).
Arguments Ok {A} a.
Arguments Throw {A} e.
Arguments Exit {A} code.

Definition M (A : Type) : Type := nat -> Res A * nat * list Event.

Definition ret {A} (a : A) : M A := fun n => (Ok a, n, []).

Definition bind {A B} (m : M A) (k : A -> M B) : M B :=
  fun n =>
    match m n with
    | (Ok a, n1, t1) => let '(r, n2, t2) := k a n1 in (r, n2, t1 ++ t2)
    | (Throw e, n1, t1) => (Throw e, n1, t1)
    | (Exit c, n1, t1) => (Exit c, n1, t1)
    end.

Notation "x <- c1 ;; c2" := (bind c1 (fun x => c2))
  (at level 61, c1 at next level, right associativity).
Notation "c1 ;; c2" := (bind c1 (fun _ => c2))
  (at level 61, right associativity).

Definition throw {A} (e : Error) : M A := fun n => (Throw e, n, []).
Definition process_exit {A} (code : Z) : M A := fun n => (Exit code, n, []).
Definition emit (ev : Event) : M unit := fun n => (Ok tt, n, [ev]).

(** [promise.catch(handler)] *)
Definition catch {A} (m : M A) (handler : Error -> M A) : M A :=
  fun n =>
    match m n with
    | (Throw e, n1, t1) => let '(r, n2, t2) := handler e n1 in (r, n2, t1 ++ t2)
    | other => other
    end.

Definition console_log (args : list LogItem) : M unit := emit (EvLog args).
Definition console_error (args : list LogItem) : M unit := emit (EvError args).

(** [sleep(ms)] *)
Definition sleep (ms : Z) : M unit := emit (EvSleep ms).

(** A value that may throw, inside the monad. *)
Definition lift_uri {A} (o : option A) : M A :=
  match o with
  | Some a => ret a
  | None => throw URIError
  end.

(** [xs.map(f)] for an [f] that may throw: the first error ends the map. *)
Fixpoint map_opt {A B} (f : A -> option B) (xs : list A) : option (list B) :=
  match xs with
  | [] => Some []
  | x :: xs' =>
      match f x with
      | None => None
      | Some y => option_map (cons y) (map_opt f xs')
      end
  end.

(** [parts.join(sep)] *)
Fixpoint join (sep : jsstring) (parts : list jsstring) : jsstring :=
  match parts with
  | [] => []
  | [p] => p
  | p :: ps => p ++ sep ++ join sep ps
  end.

(** [xs.slice(i, j)] for [0 <= i <= j] *)
Definition slice {A} (i j : nat) (xs : list A) : list A :=
  firstn (j - i) (skipn i xs).

(** The exit status of the process once the script's promise chain has
    settled: the status given to [process.exit], else 0. *)
Definition exit_status {A} (r : Res A) : Z :=
  match r with
  | Exit c => c
  | Ok _ => 0
  | Throw _ => 1
  end.

(** ** fetchJson, hmacToken and the constants (the same text in both scripts)

    The network is typed by endpoint, as section 6 of the specification
    describes it: the directory answers with subscriber records, the
    provider with some JSON body.  The directory is asked once; the
    provider's answers are indexed by the number of requests made to it. *)

Definition GET : jsstring := js "GET".
Definition POST : jsstring := js "POST".

Section Network.
Variable directory : Outcome (list Subscriber).
Variable provider : nat -> Outcome Json.

Definition fetchJson_directory (url method : jsstring)
    (headers : list (jsstring * jsstring)) : M (Response (list Subscriber)) :=
  fun n =>
    match directory with
    | NetError msg => (Throw (NetworkError msg), n, [EvRequest url method headers None])
    | Reply r => (Ok r, n, [EvRequest url method headers None])
    end.

Definition fetchJson (url method : jsstring)
    (headers : list (jsstring * jsstring)) (body : Payload) : M (Response Json) :=
  fun n =>
    match provider n with
    | NetError msg => (Throw (NetworkError msg), S n, [EvRequest url method headers (Some body)])
    | Reply r => (Ok r, S n, [EvRequest url method headers (Some body)])
    end.
End Network.

Definition BATCH_SIZE : nat := 50.

Definition batch_url : jsstring := js "https://api.resend.com/emails/batch".
Definition single_url : jsstring := js "https://api.resend.com/emails".

(** The default sender: YOMOO, U+6BCF U+65E5, AI, U+5FEB U+9001, and the
    address [<daily@yomoo.net>]. *)
Definition default_from : jsstring :=
  js "YOMOO " ++ [27599; 26085]%N ++ js "AI" ++ [24555; 36865]%N ++ js " <daily@yomoo.net>".

(** The subject up to the date; the dash is U+2014. *)
Definition subject_prefix : jsstring :=
  js "YOMOO " ++ [27599; 26085]%N ++ js "AI" ++ [24555; 36865]%N ++ js " " ++ [8212]%N ++ js " ".

Definition marker : jsstring := js "{{UNSUBSCRIBE_URL}}".

Definition api_headers (key : jsstring) : list (jsstring * jsstring) :=
  [(js "Authorization", js "Bearer " ++ key);
   (js "Content-Type", js "application/json")].

(** [x || dflt] for a string or [undefined] *)
Definition or_default (x : option jsstring) (dflt : jsstring) : jsstring :=
  match x with
  | Some (c :: s) => c :: s
  | _ => dflt
  end.

(** [process.env] as the scripts read it. *)
Record Env : Type :=
  { env_RESEND_API_KEY : option jsstring;
    env_WORKER_URL : option jsstring;
    env_WORKER_SECRET : option jsstring;
    env_RESEND_FROM : option jsstring;
    env_EPISODE_DATE : option jsstring }.

Definition env_string (x : option jsstring) : jsstring :=
  match x with Some s => s | None => js "undefined" end.

(** [path.join("episodes", date, "email.html")], not normalised. *)
Definition email_path (date : jsstring) : jsstring :=
  js "episodes/" ++ date ++ js "/email.html".

Definition log_status (st : option Z) : LogItem :=
  match st with Some z => LNum z | None => LUndefined end.

Definition log_data (d : option Json) : LogItem :=
  match d with Some j => LJsonPrefix 200 j | None => LUndefined end.

Definition inspect {A} (a : A) : {b : A | a = b} := exist _ a eq_refl.

(** [Math.ceil(n / d)] on natural numbers *)
Definition ceil_div (n d : nat) : nat := (n + d - 1) / d.

Definition json_field (k : jsstring) (j : Json) : option Json :=
  match j with
  | JObj fields =>
      option_map snd (find (fun kv => jsstring_eqb (fst kv) k) fields)
  | _ => None
  end.

Definition json_truthy (j : Json) : bool :=
  match j with
  | JNull => false
  | JBool b => b
  | JNum n => negb (n =? 0)%Z
  | JStr s => negb (length s =? 0)%nat
  | JArr _ => true
  | JObj _ => true
  end.

Definition lnat (n : nat) : LogItem := LNum (Z.of_nat n).

(** The sentinel result after the retry loop. *)
Definition max_retries_exceeded : SendResult :=
  {| success := false; res_status := Some 429%Z;
     res_data := Some (JStr (js "Max retries exceeded")) |}.

(** * .github/scripts/send-newsletter.js *)

Module SendNewsletter.
Section Script.
Variable directory : Outcome (list Subscriber).
Variable provider : nat -> Outcome Json.
(** [crypto.createHmac("sha256", key).update(text).digest("hex")] *)
Variable hmac_sha256_hex : jsstring -> jsstring -> jsstring.
Variables RESEND_API_KEY WORKER_URL WORKER_SECRET : jsstring.
Variables FROM SUBJECT emailTemplate : jsstring.

Definition hmacToken (email secret : jsstring) : jsstring :=
  hmac_sha256_hex secret email.

Equations? sendBatch_from (emails : list EmailMessage) (maxRetries attempt : Z)
  : M SendResult by wf (Z.to_nat (maxRetries + 1 - attempt)) lt :=
  sendBatch_from emails maxRetries attempt with inspect (attempt <=? maxRetries)%Z := {
    | exist _ true Hle :=
        resp <- fetchJson provider batch_url POST (api_headers RESEND_API_KEY) (PBatch emails) ;;
        if ((200 <=? status resp) && (status resp <? 300))%Z then
          ret {| success := true; res_status := None; res_data := Some (data resp) |}
        else if ((status resp =? 429) && (attempt <? maxRetries))%Z then
          let backoff := (attempt * 3000)%Z in
          console_log [LStr (js "  Rate limited, retrying batch in"); LNum backoff; LStr (js "ms...")] ;;
          sleep backoff ;;
          sendBatch_from emails maxRetries (attempt + 1)%Z
        else
          ret {| success := false; res_status := Some (status resp);
                 res_data := Some (data resp) |}
    | exist _ false _ := ret max_retries_exceeded }.
Proof. apply Z.leb_le in Hle. lia. Qed.

(** [for (let attempt = 1; attempt <= maxRetries; attempt++)] *)
Definition sendBatch (emails : list EmailMessage) (maxRetries : Z) : M SendResult :=
  sendBatch_from emails maxRetries 1%Z.

(** The callback of [subscribers.map]; [None] is the URIError of
    [encodeURIComponent]. *)
Definition build_email (workerUrl : jsstring) (sub : Subscriber) : option EmailMessage :=
  let token := hmacToken (email sub) WORKER_SECRET in
  match encodeURIComponent (email sub) with
  | None => None
  | Some enc =>
      let unsubUrl := workerUrl ++ js "/unsubscribe?email=" ++ enc ++ js "&token=" ++ token in
      let html := replace_global marker unsubUrl emailTemplate in
      Some {| msg_from := FROM; msg_to := email sub; msg_subject := SUBJECT; msg_html := html |}
  end.

(** [for (let j = 0; j < batch.length; j++) console.log(...)] *)
Fixpoint log_sent (batch : list EmailMessage) : M unit :=
  match batch with
  | [] => ret tt
  | e :: rest =>
      console_log [LStr (js "  Sent to"); LStr (maskEmail (msg_to e))] ;;
      log_sent rest
  end.

Fixpoint log_failed (batch : list EmailMessage) : M unit :=
  match batch with
  | [] => ret tt
  | e :: rest =>
      console_error [LStr (js "  Failed for"); LStr (maskEmail (msg_to e))] ;;
      log_failed rest
  end.

(** The body of the batch loop at index [i]; the result is the new
    [sent] and [failed]. *)
Definition loop_body (allEmails : list EmailMessage) (i sent failed : nat) : M (nat * nat) :=
  let batch := slice i (i + BATCH_SIZE) allEmails in
  let batchNum := (i / BATCH_SIZE + 1)%nat in
  let totalBatches := ceil_div (length allEmails) BATCH_SIZE in
  console_log [LCat [LStr (js "Sending batch "); lnat batchNum; LStr (js "/");
                     lnat totalBatches; LStr (js " ("); lnat (length batch);
                     LStr (js " emails)...")]] ;;
  result <- sendBatch batch 3 ;;
  counts <-
    (if success result then
       let data :=
         match res_data result with
         | Some (JArr items) => JArr items
         | Some j => match json_field (js "data") j with
                     | Some d => if json_truthy d then d else JArr []
                     | None => JArr []
                     end
         | None => JArr []
         end in
       log_sent batch ;;
       ret ((sent + length batch)%nat, failed)
     else
       console_error [LStr (js "  Batch failed:"); log_status (res_status result);
                      log_data (res_data result)] ;;
       log_failed batch ;;
       ret (sent, (failed + length batch)%nat)) ;;
  (if (i + BATCH_SIZE <? length allEmails)%nat then sleep 1000 else ret tt) ;;
  ret counts.

(** [for (let i = 0; i < allEmails.length; i += BATCH_SIZE)] *)
Equations? deliver_from (allEmails : list EmailMessage) (i sent failed : nat)
  : M (nat * nat) by wf (length allEmails - i)%nat lt :=
  deliver_from allEmails i sent failed with inspect (i <? length allEmails)%nat := {
    | exist _ true Hlt :=
        counts <- loop_body allEmails i sent failed ;;
        deliver_from allEmails (i + BATCH_SIZE)%nat (fst counts) (snd counts)
    | exist _ false _ := ret (sent, failed) }.
Proof. apply Nat.ltb_lt in Hlt. unfold BATCH_SIZE. lia. Qed.

Definition main : M unit :=
  let workerUrl := strip_trailing_slash WORKER_URL in
  console_log [LStr (js "Fetching subscribers...")] ;;
  subResp <- fetchJson_directory directory (workerUrl ++ js "/subscribers") GET
               [(js "X-API-Secret", WORKER_SECRET)] ;;
  if negb (status subResp =? 200)%Z then
    console_error [LStr (js "Failed to fetch subscribers:"); LNum (status subResp)] ;;
    process_exit 1
  else
    let subscribers := data subResp in
    console_log [LStr (js "Found"); lnat (length subscribers); LStr (js "subscriber(s)")] ;;
    if (length subscribers =? 0)%nat then
      console_log [LStr (js "No subscribers, done")]
    else
      allEmails <- lift_uri (map_opt (build_email workerUrl) subscribers) ;;
      counts <- deliver_from allEmails 0 0 0 ;;
      console_log [LStr (js "Done:"); lnat (fst counts); LStr (js "sent,");
                   lnat (snd counts); LStr (js "failed, out of");
                   lnat (length subscribers)] ;;
      if (0 <? snd counts)%nat then process_exit 1 else ret tt.
End Script.

(** The script from its first line: the configuration check, the template,
    then [main().catch(...)]. *)
Definition script (env : Env) (fs : jsstring -> option jsstring)
    (directory : Outcome (list Subscriber)) (provider : nat -> Outcome Json)
    (hmac_sha256_hex : jsstring -> jsstring -> jsstring) : M unit :=
  if falsy (env_RESEND_API_KEY env) || falsy (env_WORKER_URL env)
     || falsy (env_WORKER_SECRET env) || falsy (env_EPISODE_DATE env) then
    console_log [LStr (js "Missing required env vars, skipping newsletter")] ;;
    process_exit 0
  else
    let emailPath := email_path (env_string (env_EPISODE_DATE env)) in
    match fs emailPath with
    | None =>
        console_error [LStr (js "Email HTML not found:"); LStr emailPath] ;;
        process_exit 1
    | Some emailTemplate =>
        catch
          (main directory provider hmac_sha256_hex
             (env_string (env_RESEND_API_KEY env)) (env_string (env_WORKER_URL env))
             (env_string (env_WORKER_SECRET env))
             (or_default (env_RESEND_FROM env) default_from)
             (subject_prefix ++ env_string (env_EPISODE_DATE env))
             emailTemplate)
          (fun err => console_error [LErr err] ;; process_exit 1)
    end.
End SendNewsletter.

(** * unnamed/part_000: the variant with validation and fallback *)

Module Part000.

(** The class [[^\s@]] *)
Definition not_space_or_at (c : N) : bool := negb (is_js_space c || N.eqb c ch_at).

(** [/^[^\s@]+@[^\s@]+\.[^\s@]+$/] *)
Definition email_regex : regex :=
  RSeq (RPlus (RClass not_space_or_at))
    (RSeq (RChar ch_at)
       (RSeq (RPlus (RClass not_space_or_at))
          (RSeq (RChar ch_dot) (RPlus (RClass not_space_or_at))))).

Definition isValidEmail (email : jsstring) : bool := regex_test email_regex email.

Section Script.
Variable directory : Outcome (list Subscriber).
Variable provider : nat -> Outcome Json.
(** [crypto.createHmac("sha256", key).update(text).digest("hex")] *)
Variable hmac_sha256_hex : jsstring -> jsstring -> jsstring.
Variables RESEND_API_KEY WORKER_URL WORKER_SECRET : jsstring.
Variables FROM SUBJECT emailTemplate : jsstring.

Definition hmacToken (email secret : jsstring) : jsstring :=
  hmac_sha256_hex secret email.

Equations? sendBatch_from (emails : list EmailMessage) (maxRetries attempt : Z)
  : M SendResult by wf (Z.to_nat (maxRetries + 1 - attempt)) lt :=
  sendBatch_from emails maxRetries attempt with inspect (attempt <=? maxRetries)%Z := {
    | exist _ true Hle :=
        resp <- fetchJson provider batch_url POST (api_headers RESEND_API_KEY) (PBatch emails) ;;
        if ((200 <=? status resp) && (status resp <? 300))%Z then
          ret {| success := true; res_status := None; res_data := Some (data resp) |}
        else if ((status resp =? 429) && (attempt <? maxRetries))%Z then
          let backoff := (attempt * 3000)%Z in
          console_log [LStr (js "  Rate limited, retrying batch in"); LNum backoff; LStr (js "ms...")] ;;
          sleep backoff ;;
          sendBatch_from emails maxRetries (attempt + 1)%Z
        else
          ret {| success := false; res_status := Some (status resp);
                 res_data := Some (data resp) |}
    | exist _ false _ := ret max_retries_exceeded }.
Proof. apply Z.leb_le in Hle. lia. Qed.

Definition sendBatch (emails : list EmailMessage) (maxRetries : Z) : M SendResult :=
  sendBatch_from emails maxRetries 1%Z.

Equations? sendSingle_from (e : EmailMessage) (maxRetries attempt : Z)
  : M SendResult by wf (Z.to_nat (maxRetries + 1 - attempt)) lt :=
  sendSingle_from e maxRetries attempt with inspect (attempt <=? maxRetries)%Z := {
    | exist _ true Hle :=
        resp <- fetchJson provider single_url POST (api_headers RESEND_API_KEY) (PSingle e) ;;
        if ((200 <=? status resp) && (status resp <? 300))%Z then
          ret {| success := true; res_status := None; res_data := None |}
        else if ((status resp =? 429) && (attempt <? maxRetries))%Z then
          let backoff := (attempt * 2000)%Z in
          sleep backoff ;;
          sendSingle_from e maxRetries (attempt + 1)%Z
        else
          ret {| success := false; res_status := Some (status resp); res_data := None |}
    | exist _ false _ :=
        ret {| success := false; res_status := Some 429%Z; res_data := None |} }.
Proof. apply Z.leb_le in Hle. lia. Qed.

Definition sendSingle (e : EmailMessage) (maxRetries : Z) : M SendResult :=
  sendSingle_from e maxRetries 1%Z.

(** [None] is the URIError of [encodeURIComponent]. *)
Definition buildEmailPayload (sub : Subscriber) (workerUrl : jsstring) : option EmailMessage :=
  let token := hmacToken (email sub) WORKER_SECRET in
  match encodeURIComponent (email sub) with
  | None => None
  | Some enc =>
      let unsubUrl := workerUrl ++ js "/unsubscribe?email=" ++ enc ++ js "&token=" ++ token in
      let html := replace_global marker unsubUrl emailTemplate in
      Some {| msg_from := FROM; msg_to := email sub; msg_subject := SUBJECT; msg_html := html |}
  end.

(** [for (const e of batch) console.log("  Sent to", maskEmail(e.to))] *)
Fixpoint log_sent (batch : list EmailMessage) : M unit :=
  match batch with
  | [] => ret tt
  | e :: rest =>
      console_log [LStr (js "  Sent to"); LStr (maskEmail (msg_to e))] ;;
      log_sent rest
  end.

(** The fallback: [for (const e of batch)] with one sendSingle each. *)
Fixpoint fallback (batch : list EmailMessage) (sent failed : nat) : M (nat * nat) :=
  match batch with
  | [] => ret (sent, failed)
  | e :: rest =>
      r <- sendSingle e 3 ;;
      counts <-
        (if success r then
           console_log [LStr (js "  Sent to"); LStr (maskEmail (msg_to e))] ;;
           ret (S sent, failed)
         else
           console_error [LStr (js "  Failed for"); LStr (maskEmail (msg_to e));
                          LStr (js ":"); log_status (res_status r)] ;;
           ret (sent, S failed)) ;;
      sleep 600 ;;
      fallback rest (fst counts) (snd counts)
  end.

(** The body of the batch loop at index [i]. *)
Definition loop_body (allEmails : list EmailMessage) (i sent failed : nat) : M (nat * nat) :=
  let batch := slice i (i + BATCH_SIZE) allEmails in
  let batchNum := (i / BATCH_SIZE + 1)%nat in
  let totalBatches := ceil_div (length allEmails) BATCH_SIZE in
  console_log [LCat [LStr (js "Sending batch "); lnat batchNum; LStr (js "/");
                     lnat totalBatches; LStr (js " ("); lnat (length batch);
                     LStr (js " emails)...")]] ;;
  result <- sendBatch batch 3 ;;
  counts <-
    (if success result then
       log_sent batch ;;
       ret ((sent + length batch)%nat, failed)
     else
       console_log [LCat [LStr (js "  Batch failed ("); log_status (res_status result);
                          LStr (js "), falling back to individual sends...")]] ;;
       fallback batch sent failed) ;;
  (if (i + BATCH_SIZE <? length allEmails)%nat then sleep 1000 else ret tt) ;;
  ret counts.

(** [for (let i = 0; i < allEmails.length; i += BATCH_SIZE)] *)
Equations? deliver_from (allEmails : list EmailMessage) (i sent failed : nat)
  : M (nat * nat) by wf (length allEmails - i)%nat lt :=
  deliver_from allEmails i sent failed with inspect (i <? length allEmails)%nat := {
    | exist _ true Hlt :=
        counts <- loop_body allEmails i sent failed ;;
        deliver_from allEmails (i + BATCH_SIZE)%nat (fst counts) (snd counts)
    | exist _ false _ := ret (sent, failed) }.
Proof. apply Nat.ltb_lt in Hlt. unfold BATCH_SIZE. lia. Qed.

Definition main : M unit :=
  let workerUrl := strip_trailing_slash WORKER_URL in
  console_log [LStr (js "Fetching subscribers...")] ;;
  subResp <- fetchJson_directory directory (workerUrl ++ js "/subscribers") GET
               [(js "X-API-Secret", WORKER_SECRET)] ;;
  if negb (status subResp =? 200)%Z then
    console_error [LStr (js "Failed to fetch subscribers:"); LNum (status subResp)] ;;
    process_exit 1
  else
    let allSubscribers := data subResp in
    console_log [LStr (js "Found"); lnat (length allSubscribers); LStr (js "subscriber(s)")] ;;
    let valid := filter (fun s => isValidEmail (email s)) allSubscribers in
    let invalid := filter (fun s => negb (isValidEmail (email s))) allSubscribers in
    (if (0 <? length invalid)%nat then
       console_log [LStr (js "Skipping"); lnat (length invalid); LStr (js "invalid email(s):");
                    LStr (join (js ", ") (map (fun s => maskEmail (email s)) invalid))]
     else ret tt) ;;
    if (length valid =? 0)%nat then
      console_log [LStr (js "No valid subscribers, done")]
    else
      allEmails <- lift_uri (map_opt (fun sub => buildEmailPayload sub workerUrl) valid) ;;
      counts <- deliver_from allEmails 0 0 0 ;;
      console_log [LStr (js "Done:"); lnat (fst counts); LStr (js "sent,");
                   lnat (snd counts); LStr (js "failed, out of");
                   lnat (length valid)] ;;
      if (0 <? snd counts)%nat then process_exit 1 else ret tt.
End Script.

Definition script (env : Env) (fs : jsstring -> option jsstring)
    (directory : Outcome (list Subscriber)) (provider : nat -> Outcome Json)
    (hmac_sha256_hex : jsstring -> jsstring -> jsstring) : M unit :=
  if falsy (env_RESEND_API_KEY env) || falsy (env_WORKER_URL env)
     || falsy (env_WORKER_SECRET env) || falsy (env_EPISODE_DATE env) then
    console_log [LStr (js "Missing required env vars, skipping newsletter")] ;;
    process_exit 0
  else
    let emailPath := email_path (env_string (env_EPISODE_DATE env)) in
    match fs emailPath with
    | None =>
        console_error [LStr (js "Email HTML not found:"); LStr emailPath] ;;
        process_exit 1
    | Some emailTemplate =>
        catch
          (main directory provider hmac_sha256_hex
             (env_string (env_RESEND_API_KEY env)) (env_string (env_WORKER_URL env))
             (env_string (env_WORKER_SECRET env))
             (or_default (env_RESEND_FROM env) default_from)
             (subject_prefix ++ env_string (env_EPISODE_DATE env))
             emailTemplate)
          (fun err => console_error [LErr err] ;; process_exit 1)
    end.
End Part000.

(** * Specification-side definitions *)

(** ** Observations on a run *)

(** The sleeps and the provider requests of a trace. *)
Definition sleeps_of (t : list Event) : list Z :=
  flat_map (fun ev => match ev with EvSleep ms => [ms] | _ => [] end) t.

Definition payloads_of (url : jsstring) (t : list Event) : list Payload :=
  flat_map (fun ev => match ev with
                      | EvRequest u _ _ (Some p) => if jsstring_eqb u url then [p] else []
                      | _ => []
                      end) t.

Definition batch_request (key : jsstring) (emails : list EmailMessage) : Event :=
  EvRequest batch_url POST (api_headers key) (Some (PBatch emails)).

Definition rate_limited_line (backoff : Z) : Event :=
  EvLog [LStr (js "  Rate limited, retrying batch in"); LNum backoff; LStr (js "ms...")].

Definition sending_line (allEmails : list EmailMessage) (i : nat) : Event :=
  EvLog [LCat [LStr (js "Sending batch "); lnat (i / BATCH_SIZE + 1); LStr (js "/");
               lnat (ceil_div (length allEmails) BATCH_SIZE); LStr (js " (");
               lnat (length (slice i (i + BATCH_SIZE) allEmails));
               LStr (js " emails)...")]].

Definition sent_line (e : EmailMessage) : Event :=
  EvLog [LStr (js "  Sent to"); LStr (maskEmail (msg_to e))].

Definition failed_for_line (e : EmailMessage) : Event :=
  EvError [LStr (js "  Failed for"); LStr (maskEmail (msg_to e))].

(** The console line of the fallback for one message and its result. *)
Definition outcome_line (e : EmailMessage) (r : SendResult) : Event :=
  if success r
  then EvLog [LStr (js "  Sent to"); LStr (maskEmail (msg_to e))]
  else EvError [LStr (js "  Failed for"); LStr (maskEmail (msg_to e));
                LStr (js ":"); log_status (res_status r)].

(** The pause between batches: after every batch but the last. *)
Definition batch_pause (allEmails : list EmailMessage) (i : nat) : list Event :=
  if (i + BATCH_SIZE <? length allEmails)%nat then [EvSleep 1000] else [].

Definition is_console (ev : Event) : Prop :=
  match ev with
  | EvLog _ | EvError _ => True
  | _ => False
  end.

(** Events put before those of a run. *)
Definition with_prefix {A} (pre : list Event) (x : Res A * nat * list Event)
  : Res A * nat * list Event :=
  let '(r, n, t) := x in (r, n, pre ++ t).

(** The delivery loop never exits by itself: it returns or throws. *)
Definition returns_or_throws {A} (x : Res A * nat * list Event) : Prop :=
  match fst (fst x) with
  | Exit _ => False
  | _ => True
  end.

Definition reliable (provider : nat -> Outcome Json) : Prop :=
  forall k, exists r, provider k = Reply r.

(** The provider answers every request, with a status 2xx. *)
Definition always_accepts (provider : nat -> Outcome Json) : Prop :=
  forall k, exists r, provider k = Reply r /\ (200 <= status r < 300)%Z.

(** ** Validation and masking *)

(** The language of a pattern. *)
Inductive re_lang : regex -> jsstring -> Prop :=
| lang_eps : re_lang REps []
| lang_class p c : p c = true -> re_lang (RClass p) [c]
| lang_seq r1 r2 s1 s2 : re_lang r1 s1 -> re_lang r2 s2 -> re_lang (RSeq r1 r2) (s1 ++ s2)
| lang_alt_l r1 r2 s : re_lang r1 s -> re_lang (RAlt r1 r2) s
| lang_alt_r r1 r2 s : re_lang r2 s -> re_lang (RAlt r1 r2) s
| lang_star_nil r : re_lang (RStar r) []
| lang_star_app r s1 s2 : re_lang r s1 -> re_lang (RStar r) s2 -> re_lang (RStar r) (s1 ++ s2).

(** A code unit that is neither white space nor [@]. *)
Definition plain (c : N) : Prop := Part000.not_space_or_at c = true.

(** The validation predicate as the specification words it: a non-empty
    local part free of white space and [@], an [@], and a domain free of
    white space and [@] that contains a dot. *)
Definition valid_shape_as_worded (s : jsstring) : Prop :=
  exists loc dom,
    s = loc ++ ch_at :: dom /\ loc <> [] /\ Forall plain loc /\
    Forall plain dom /\ In ch_dot dom.

(** The shape the pattern accepts: the dot has something on both sides. *)
Definition valid_shape (s : jsstring) : Prop :=
  exists loc a b,
    s = loc ++ ch_at :: a ++ ch_dot :: b /\
    loc <> [] /\ a <> [] /\ b <> [] /\
    Forall plain loc /\ Forall plain a /\ Forall plain b.

(** The general masking rule as the specification words it, for any address
    with an [@]: [local] is the text before the first [@], [domain] all the
    text after it. *)
Definition mask_rule_as_worded : Prop :=
  forall first middle last domain,
    ~ In ch_at (first :: middle ++ [last]) -> middle <> [] ->
    maskEmail ((first :: middle ++ [last]) ++ ch_at :: domain)
    = first :: stars (length middle) ++ [last] ++ ch_at :: domain.

(** ** Batches *)

(** The values that [i] takes in
    [for (let i = 0; i < n; i += BATCH_SIZE)], from [i] on. *)
Equations? loop_indices (n i : nat) : list nat by wf (n - i)%nat lt :=
  loop_indices n i with inspect (i <? n)%nat := {
    | exist _ true Hlt := i :: loop_indices n (i + BATCH_SIZE)%nat
    | exist _ false _ := [] }.
Proof. apply Nat.ltb_lt in Hlt. unfold BATCH_SIZE. lia. Qed.

(** The batches of a run: the slices [allEmails.slice(i, i + BATCH_SIZE)]
    at the indices of the loop, in the order of processing. *)
Definition batches (allEmails : list EmailMessage) : list (list EmailMessage) :=
  map (fun i => slice i (i + BATCH_SIZE) allEmails) (loop_indices (length allEmails) 0).

(** A loop body run at each index of a list in turn, [sent] and [failed]
    threaded through. *)
Fixpoint run_at (body : nat -> nat -> nat -> M (nat * nat)) (indices : list nat)
    (sent failed : nat) : M (nat * nat) :=
  match indices with
  | [] => ret (sent, failed)
  | i :: rest =>
      counts <- body i sent failed ;;
      run_at body rest (fst counts) (snd counts)
  end.

(** ** Fallback *)

(** Per-message delivery of a batch, as the specification describes it: for
    each message in turn, one call of sendSingle, then the console line of
    its result, then a pause of 600 ms whatever the result.  [results] are
    the results of the calls, [n] and [n'] the numbers of provider requests
    before and after, [t] the events. *)
Inductive per_message_delivery (provider : nat -> Outcome Json) (key : jsstring) :
    list EmailMessage -> nat -> list SendResult -> nat -> list Event -> Prop :=
| pmd_done n : per_message_delivery provider key [] n [] n []
| pmd_send e rest n r n1 t1 results n2 t2 :
    Part000.sendSingle provider key e 3 n = (Ok r, n1, t1) ->
    per_message_delivery provider key rest n1 results n2 t2 ->
    per_message_delivery provider key (e :: rest) n (r :: results) n2
      (t1 ++ outcome_line e r :: EvSleep 600 :: t2).

Definition count_sent (results : list SendResult) : nat :=
  length (filter success results).

Definition count_failed (results : list SendResult) : nat :=
  length (filter (fun r => negb (success r)) results).

(** Fallback on batch failure, as a property of the loop body of a script:
    when sendBatch fails on the batch at index [i] (and the network
    answers every request), the body goes on with per-message delivery of
    that batch, adds the successes to [sent] and the failures to [failed],
    and ends with the usual pause between batches. *)
Definition falls_back_on_failure
    (loop_body : (nat -> Outcome Json) -> jsstring -> list EmailMessage ->
                 nat -> nat -> nat -> M (nat * nat)) : Prop :=
  forall provider key allEmails i sent failed n r n1 t1,
    reliable provider ->
    Part000.sendBatch provider key (slice i (i + BATCH_SIZE) allEmails) 3 n = (Ok r, n1, t1) ->
    success r = false ->
    exists results n2 t2 line,
      per_message_delivery provider key (slice i (i + BATCH_SIZE) allEmails) n1 results n2 t2 /\
      is_console line /\
      loop_body provider key allEmails i sent failed n
      = (Ok ((sent + count_sent results)%nat, (failed + count_failed results)%nat), n2,
         sending_line allEmails i :: t1 ++ line :: t2 ++ batch_pause allEmails i).

(** ** The run and its exit status *)

(** The configuration check of the scripts passes. *)
Definition config_present (env : Env) : Prop :=
  falsy (env_RESEND_API_KEY env) || falsy (env_WORKER_URL env)
  || falsy (env_WORKER_SECRET env) || falsy (env_EPISODE_DATE env) = false.

(** [valid] of part_000's main. *)
Definition valid_subscribers (subs : list Subscriber) : list Subscriber :=
  filter (fun s => Part000.isValidEmail (email s)) subs.

(** The payloads part_000's main builds for a configuration. *)
Definition built_payloads (env : Env) (hmac_sha256_hex : jsstring -> jsstring -> jsstring)
    (template : jsstring) (subs : list Subscriber) : option (list EmailMessage) :=
  map_opt (fun sub =>
             Part000.buildEmailPayload hmac_sha256_hex
               (env_string (env_WORKER_SECRET env))
               (or_default (env_RESEND_FROM env) default_from)
               (subject_prefix ++ env_string (env_EPISODE_DATE env))
               template sub
               (strip_trailing_slash (env_string (env_WORKER_URL env))))
          (valid_subscribers subs).

(** A run of part_000 reaches the delivery phase: the configuration is
    there, the template is found, the directory answers 200 with at least
    one valid subscriber, and the payloads are built. *)
Definition reaches_delivery (env : Env) (fs : jsstring -> option jsstring)
    (directory : Outcome (list Subscriber))
    (hmac_sha256_hex : jsstring -> jsstring -> jsstring)
    (allEmails : list EmailMessage) : Prop :=
  config_present env /\
  exists template subs,
    fs (email_path (env_string (env_EPISODE_DATE env))) = Some template /\
    directory = Reply {| status := 200; data := subs |} /\
    valid_subscribers subs <> [] /\
    built_payloads env hmac_sha256_hex template subs = Some allEmails.

(** The exit rule as the specification words it: a run that reaches the
    delivery phase ends with a non-zero status exactly when the delivery loop
    has ended with [failed > 0]. *)
Definition exit_rule_as_worded : Prop :=
  forall env fs directory provider hmac_sha256_hex allEmails,
    reaches_delivery env fs directory hmac_sha256_hex allEmails ->
    (exit_status (fst (fst (Part000.script env fs directory provider hmac_sha256_hex 0)))
     <> 0%Z
     <->
     exists sent failed n t,
       Part000.deliver_from provider (env_string (env_RESEND_API_KEY env)) allEmails 0 0 0 0
       = (Ok (sent, failed), n, t) /\ (0 < failed)%nat).

(** ** The payload *)

(** A lower-case hexadecimal digit, as in [digest("hex")]. *)
Definition is_hex_digit (c : N) : bool :=
  ((48 <=? c) && (c <=? 57) || (97 <=? c) && (c <=? 102))%N.

(** The keyed hash gives hexadecimal digits. *)
Definition hex_digest (hmac_sha256_hex : jsstring -> jsstring -> jsstring) : Prop :=
  forall key text, Forall (fun c => is_hex_digit c = true) (hmac_sha256_hex key text).

(** No unpaired surrogate: the strings that encodeURIComponent accepts. *)
Fixpoint well_formed_utf16 (s : jsstring) : bool :=
  match s with
  | [] => true
  | c :: rest =>
      if is_low_surrogate c then false
      else if is_high_surrogate c then
        match rest with
        | [] => false
        | d :: rest' => is_low_surrogate d && well_formed_utf16 rest'
        end
      else well_formed_utf16 rest
  end.

(** The code units encodeURIComponent writes: the unreserved ones and [%]. *)
Definition uri_output (c : N) : Prop := uri_unescaped c = true \/ c = ch_percent.

(** No proper prefix of the pattern is also a suffix of it. *)
Definition border_free (pat : jsstring) : bool :=
  forallb (fun k => negb (jsstring_eqb (firstn k pat) (skipn (length pat - k) pat)))
          (seq 1 (length pat - 1)).

(** [q] ends with the code unit [l], or is empty. *)
Definition ends_with_or_empty (l : N) (q : jsstring) : Prop :=
  q = [] \/ exists q0, q = q0 ++ [l].

(** The unsubscribe link of a recipient. *)
Definition unsubscribe_url (hmac_sha256_hex : jsstring -> jsstring -> jsstring)
    (secret workerUrl address encoded : jsstring) : jsstring :=
  workerUrl ++ js "/unsubscribe?email=" ++ encoded ++ js "&token="
  ++ hmac_sha256_hex secret address.

(** The claim on the payload builder as the specification words it, for
    every subscriber, template and base URL. *)
Definition marker_always_removed : Prop :=
  forall hmac_sha256_hex secret from subject template sub workerUrl msg,
    hex_digest hmac_sha256_hex ->
    Part000.buildEmailPayload hmac_sha256_hex secret from subject template sub workerUrl
    = Some msg ->
    includes marker (msg_html msg) = false.

(** ** Inputs for examples *)

(** A provider that answers from a list of statuses, then 200. *)
Definition scripted (statuses : list Z) (body : Json) (n : nat) : Outcome Json :=
  Reply {| status := nth n statuses 200%Z; data := body |}.

(** The body of a rate-limit answer of the provider. *)
Definition rate_limit_body : Json :=
  JObj [(js "statusCode", JNum 429); (js "message", JStr (js "Too many requests"))].

(** A network on which every request to the provider fails. *)
Definition unreachable_provider (n : nat) : Outcome Json :=
  NetError (js "ECONNRESET").

(** Messages for examples. *)
Definition sample_messages (n : nat) : list EmailMessage :=
  map (fun i => {| msg_from := default_from;
                   msg_to := js "reader" ++ [N.of_nat (48 + i mod 10)] ++ js "@example.com";
                   msg_subject := subject_prefix ++ js "2024-05-01";
                   msg_html := js "<p>" ++ [N.of_nat (48 + i mod 10)] ++ js "</p>" |})
      (seq 0 n).

(** An environment and a file system for examples. *)
Definition sample_env : Env :=
  {| env_RESEND_API_KEY := Some (js "re_key");
     env_WORKER_URL := Some (js "https://worker.example.com/");
     env_WORKER_SECRET := Some (js "secret");
     env_RESEND_FROM := None;
     env_EPISODE_DATE := Some (js "2024-05-01") |}.

Definition sample_template : jsstring :=
  js "<p>News</p><a href='{{UNSUBSCRIBE_URL}}'>unsubscribe</a>".

Definition sample_fs (path : jsstring) : option jsstring :=
  if jsstring_eqb path (js "episodes/2024-05-01/email.html")
  then Some sample_template
  else None.

(** A stand-in for the keyed hash in examples: 64 hexadecimal digits. *)
Definition sample_hmac (secret text : jsstring) : jsstring := repeat 97%N 64.

Definition sample_directory : Outcome (list Subscriber) :=
  Reply {| status := 200;
           data := [ {| email := js "alice@example.com" |};
                     {| email := js "not-an-address" |};
                     {| email := js "bob@example.org" |} ] |}.

(** The payloads of the two valid subscribers of [sample_directory]. *)
Definition sample_payloads : list EmailMessage :=
  match built_payloads sample_env sample_hmac sample_template
          [ {| email := js "alice@example.com" |};
            {| email := js "not-an-address" |};
            {| email := js "bob@example.org" |} ] with
  | Some l => l
  | None => []
  end.

(** ** Further observations *)

Definition single_request (key : jsstring) (e : EmailMessage) : Event :=
  EvRequest single_url POST (api_headers key) (Some (PSingle e)).

(** The events of [k] attempts answered 429 and one more attempt, without
    the console lines: each request but the last is followed by its wait. *)
Definition retry_events (request : Event) (wait : nat -> Z) (k : nat) : list Event :=
  flat_map (fun j => [request; EvSleep (wait j)]) (seq 1 k) ++ [request].

(** A status that is neither a success nor a rate limit. *)
Definition rejected_status (st : Z) : Prop :=
  ~ (200 <= st < 300)%Z /\ st <> 429%Z.

(** The request to the subscriber directory. *)
Definition directory_request (env : Env) : Event :=
  EvRequest (strip_trailing_slash (env_string (env_WORKER_URL env)) ++ js "/subscribers") GET
    [(js "X-API-Secret", env_string (env_WORKER_SECRET env))] None.

Definition fetching_line : Event := EvLog [LStr (js "Fetching subscribers...")].

(** The payloads send-newsletter.js builds: one for every subscriber. *)
Definition built_payloads_sn (env : Env) (hmac_sha256_hex : jsstring -> jsstring -> jsstring)
    (template : jsstring) (subs : list Subscriber) : option (list EmailMessage) :=
  map_opt (SendNewsletter.build_email hmac_sha256_hex
             (env_string (env_WORKER_SECRET env))
             (or_default (env_RESEND_FROM env) default_from)
             (subject_prefix ++ env_string (env_EPISODE_DATE env))
             template
             (strip_trailing_slash (env_string (env_WORKER_URL env))))
          subs.

(** The masked form of a local part: all stars when it has at most two
    characters, else its first and last character around the stars. *)
Definition masked_local (loc : jsstring) : jsstring :=
  if (length loc <=? 2)%nat then stars (length loc)
  else firstn 1 loc ++ stars (length loc - 2) ++ skipn (length loc - 1) loc.

(** An environment with another [WORKER_URL]. *)
Definition with_worker_url (env : Env) (u : jsstring) : Env :=
  {| env_RESEND_API_KEY := env_RESEND_API_KEY env;
     env_WORKER_URL := Some u;
     env_WORKER_SECRET := env_WORKER_SECRET env;
     env_RESEND_FROM := env_RESEND_FROM env;
     env_EPISODE_DATE := env_EPISODE_DATE env |}.

(** [u] does not end with a slash. *)
Definition no_trailing_slash (u : jsstring) : Prop :=
  forall v, u <> v ++ [ch_slash].

(** ** The console lines of main *)

Definition found_line (subs : list Subscriber) : Event :=
  EvLog [LStr (js "Found"); lnat (length subs); LStr (js "subscriber(s)")].

(** [invalid] of part_000's main. *)
Definition invalid_subscribers (subs : list Subscriber) : list Subscriber :=
  filter (fun s => negb (Part000.isValidEmail (email s))) subs.

(** The line on the skipped addresses, when there are some. *)
Definition skipping_line (subs : list Subscriber) : list Event :=
  if (0 <? length (invalid_subscribers subs))%nat then
    [EvLog [LStr (js "Skipping"); lnat (length (invalid_subscribers subs));
            LStr (js "invalid email(s):");
            LStr (join (js ", ")
                    (map (fun s => maskEmail (email s)) (invalid_subscribers subs)))]]
  else [].

Definition done_line (sent failed total : nat) : Event :=
  EvLog [LStr (js "Done:"); lnat sent; LStr (js "sent,"); lnat failed;
         LStr (js "failed, out of"); lnat total].

(** [console.error(err)] of [main().catch]. *)
Definition caught_line (e : Error) : Event := EvError [LErr e].

(** What part_000 does before it builds the payloads. *)
Definition preamble (env : Env) (subs : list Subscriber) : list Event :=
  [fetching_line; directory_request env; found_line subs] ++ skipping_line subs.

(** What send-newsletter.js does before it builds the payloads. *)
Definition preamble_sn (env : Env) (subs : list Subscriber) : list Event :=
  [fetching_line; directory_request env; found_line subs].

(** An address with an unpaired surrogate (U+D800) in its local part. *)
Definition broken_address : jsstring := js "x" ++ [55296%N] ++ js "@example.com".

(** ** The requests of a run *)

(** A run that started after [n] requests to the provider has made at most
    [nb] requests to the batch endpoint and at most [ns] to the endpoint for
    single messages, and the provider has seen no other request. *)
Definition within_budget {A} (nb ns n : nat) (x : Res A * nat * list Event) : Prop :=
  (length (payloads_of batch_url (snd x)) <= nb)%nat /\
  (length (payloads_of single_url (snd x)) <= ns)%nat /\
  snd (fst x)
  = (n + length (payloads_of batch_url (snd x))
     + length (payloads_of single_url (snd x)))%nat.

(** ** The events of the delivery loop *)

(** The texts among the arguments of a console line. *)
Fixpoint item_texts (it : LogItem) : list jsstring :=
  match it with
  | LStr s => [s]
  | LCat parts => flat_map item_texts parts
  | _ => []
  end.

(** The argument shows a response body of the provider or an error. *)
Fixpoint shows_data (it : LogItem) : bool :=
  match it with
  | LJsonPrefix _ _ => true
  | LErr _ => true
  | LCat parts => existsb shows_data parts
  | _ => false
  end.

(** The string literals of the console lines of the delivery loops. *)
Definition delivery_literals : list jsstring :=
  [js "Sending batch "; js "/"; js " ("; js " emails)...";
   js "  Rate limited, retrying batch in"; js "ms...";
   js "  Sent to"; js "  Failed for"; js ":";
   js "  Batch failed ("; js "), falling back to individual sends...";
   js "  Batch failed:"].

(** A text of the log: a literal of the script or the masked address of a
    recipient. *)
Definition log_text_allowed (allEmails : list EmailMessage) (s : jsstring) : Prop :=
  In s delivery_literals \/ exists e, In e allEmails /\ s = maskEmail (msg_to e).

(** What the delivery loop may do, one event at a time; [fallback] tells
    part_000 (with per-message delivery) from send-newsletter.js. *)
Definition delivery_event (fallback : bool) (key : jsstring) (allEmails : list EmailMessage)
    (ev : Event) : Prop :=
  match ev with
  | EvRequest url method headers body =>
      method = POST /\ headers = api_headers key /\
      ((url = batch_url /\ exists b, In b (batches allEmails) /\ body = Some (PBatch b)) \/
       (fallback = true /\ url = single_url /\
        exists e, In e allEmails /\ body = Some (PSingle e)))
  | EvSleep ms =>
      In ms (if fallback then [1000; 3000; 6000; 600; 2000; 4000]
             else [1000; 3000; 6000])%Z
  | EvLog args | EvError args =>
      Forall (log_text_allowed allEmails) (flat_map item_texts args) /\
      (fallback = true -> existsb shows_data args = false)
  end.

(** The subscribers of [sample_directory]. *)
Definition sample_subscribers : list Subscriber :=
  [ {| email := js "alice@example.com" |};
    {| email := js "not-an-address" |};
    {| email := js "bob@example.org" |} ].

(** The payloads send-newsletter.js builds for them: three. *)
Definition sample_payloads_sn : list EmailMessage :=
  match built_payloads_sn sample_env sample_hmac sample_template sample_subscribers with
  | Some l => l
  | None => []
  end.

(** ** The messages of a run *)

Definition payload_messages (p : Payload) : list EmailMessage :=
  match p with
  | PBatch emails => emails
  | PSingle e => [e]
  end.

(** Every message in the body of a request of a trace, to any URL. *)
Definition messages_sent (t : list Event) : list EmailMessage :=
  flat_map (fun ev => match ev with
                      | EvRequest _ _ _ (Some p) => payload_messages p
                      | _ => []
                      end) t.

(** ** The result of a send and the answers of the provider *)

(** A result [r] of sendBatch or sendSingle, reached after the requests
    number [n] to [n' - 1], tells the last answer: success exactly for a
    status 2xx, else that answer's status; every answer before the last was
    a 429. *)
Definition reflects_last_response (provider : nat -> Outcome Json)
    (n : nat) (r : SendResult) (n' : nat) : Prop :=
  exists resp,
    (n < n')%nat /\ provider (n' - 1)%nat = Reply resp /\
    (success r = true <-> (200 <= status resp < 300)%Z) /\
    (success r = false -> res_status r = Some (status resp)) /\
    (forall j, (n <= j < n' - 1)%nat ->
       exists d, provider j = Reply {| status := 429; data := d |}).

(** ** The waits of a run *)

(** The time a trace spends in [sleep], in milliseconds. *)
Definition total_wait (t : list Event) : Z := fold_right Z.add 0%Z (sleeps_of t).

(** A run sleeps for at most [w] ms in all. *)
Definition waits_within {A} (w : Z) (x : Res A * nat * list Event) : Prop :=
  (0 <= total_wait (snd x) <= w)%Z.

(** * Proofs *)

Unset Implicit Arguments.

(** A code unit is not in a literal: by evaluation. *)
Ltac not_in_literal :=
  let H := fresh "H" in
  vm_compute; intros H; repeat (destruct H as [H|H]; [discriminate H|]); exact H.

(** *** Facts about [split] *)

Lemma split_no_sep sep s : ~ In sep s -> split sep s = [s].
Proof.
  induction s as [|c s IH]; intros H; simpl; [reflexivity|].
  destruct (N.eqb_spec c sep) as [->|Hne].
  - exfalso. apply H. now left.
  - rewrite IH; [reflexivity|]. intros Hin. apply H. now right.
Qed.

Lemma split_app_sep sep a b :
  ~ In sep a -> split sep (a ++ sep :: b) = a :: split sep b.
Proof.
  induction a as [|c a IH]; intros H; simpl.
  - now rewrite N.eqb_refl.
  - destruct (N.eqb_spec c sep) as [->|Hne].
    + exfalso. apply H. now left.
    + rewrite IH; [reflexivity|]. intros Hin. apply H. now right.
Qed.

(** The piece that [maskEmail] calls [domain]: the text between the first
    and the second [@] (or the end). *)
Lemma split_second sep a d rest :
  ~ In sep a -> ~ In sep d -> (rest = [] \/ exists r, rest = sep :: r) ->
  nth 0 (split sep (a ++ sep :: d ++ rest)) [] = a /\
  nth_error (split sep (a ++ sep :: d ++ rest)) 1 = Some d.
Proof.
  intros Ha Hd Hrest. rewrite split_app_sep by assumption. simpl.
  split; [reflexivity|].
  destruct Hrest as [->|[r ->]].
  - rewrite app_nil_r, split_no_sep by assumption. reflexivity.
  - rewrite split_app_sep by assumption. reflexivity.
Qed.

Lemma last_nth_error (A : Type) (l : list A) (x : A) :
  nth_error (l ++ [x]) (length (l ++ [x]) - 1) = Some x.
Proof.
  rewrite length_app. simpl.
  replace (length l + 1 - 1)%nat with (length l) by lia.
  rewrite nth_error_app2 by lia. now rewrite Nat.sub_diag.
Qed.

Lemma maskEmail_pieces loc d rest :
  ~ In ch_at loc -> ~ In ch_at d -> (rest = [] \/ exists r, rest = ch_at :: r) ->
  maskEmail (loc ++ ch_at :: d ++ rest) =
  if falsy (Some d) then js "***"
  else (if (length loc <=? 2)%nat then stars (length loc)
        else str_index loc 0 ++ stars (length loc - 2) ++ str_index loc (length loc - 1))
       ++ js "@" ++ d.
Proof.
  intros Hl Hd Hr. unfold maskEmail.
  destruct (split_second ch_at loc d rest Hl Hd Hr) as [-> ->]. reflexivity.
Qed.

(** C8 (as amended).  The three examples hold; an input without [@] masks
    to [***]; so does an input with nothing between its first [@] and the
    next one (or the end).  Otherwise, with [domain] the non-empty text
    between the first [@] and the next one (or the end): a local part of
    more than two characters keeps its first and last character with one
    star for each character between them, a shorter one is all stars, and
    [@] and [domain] follow. *)
Theorem maskEmail_spec :
  maskEmail (js "ab@x.com") = js "**@x.com" /\
  maskEmail (js "a@x.com") = js "*@x.com" /\
  maskEmail (js "alice@example.com") = js "a***e@example.com" /\
  (forall s, ~ In ch_at s -> maskEmail s = js "***") /\
  (forall loc rest, ~ In ch_at loc -> (rest = [] \/ exists r, rest = ch_at :: r) ->
     maskEmail (loc ++ ch_at :: rest) = js "***") /\
  (forall first middle last domain rest,
     ~ In ch_at (first :: middle ++ [last]) -> middle <> [] ->
     ~ In ch_at domain -> domain <> [] ->
     (rest = [] \/ exists r, rest = ch_at :: r) ->
     maskEmail ((first :: middle ++ [last]) ++ ch_at :: domain ++ rest)
     = first :: stars (length middle) ++ [last] ++ ch_at :: domain) /\
  (forall loc domain rest,
     ~ In ch_at loc -> (length loc <= 2)%nat ->
     ~ In ch_at domain -> domain <> [] ->
     (rest = [] \/ exists r, rest = ch_at :: r) ->
     maskEmail (loc ++ ch_at :: domain ++ rest) = stars (length loc) ++ ch_at :: domain).
Proof.
  split; [reflexivity|]. split; [reflexivity|]. split; [reflexivity|].
  split; [|split; [|split]].
  - intros s Hs. unfold maskEmail. rewrite split_no_sep by assumption. reflexivity.
  - intros loc rest Hl Hr.
    change (loc ++ ch_at :: rest) with (loc ++ ch_at :: [] ++ rest).
    rewrite maskEmail_pieces; auto.
  - intros first middle last domain rest Hl Hm Hd Hne Hr.
    rewrite maskEmail_pieces by assumption.
    destruct domain as [|d0 domain]; [congruence|]. cbn [falsy].
    assert (Hlen : length (first :: middle ++ [last]) = S (S (length middle))).
    { simpl. rewrite length_app. simpl. lia. }
    destruct middle as [|m0 middle]; [congruence|].
    rewrite Hlen. cbn [Nat.leb].
    unfold str_index at 2.
    change (first :: (m0 :: middle) ++ [last]) with ((first :: m0 :: middle) ++ [last]) at 2.
    replace (S (S (length (m0 :: middle))) - 1)%nat
      with (length ((first :: m0 :: middle) ++ [last]) - 1)%nat
      by (rewrite length_app; simpl; lia).
    rewrite last_nth_error.
    replace (S (S (length (m0 :: middle))) - 2)%nat with (length (m0 :: middle)) by lia.
    cbn [length Nat.leb str_index nth_error app]. rewrite <- app_assoc. reflexivity.
  - intros loc domain rest Hl Hlen Hd Hne Hr.
    rewrite maskEmail_pieces by assumption.
    destruct domain as [|d0 domain]; [congruence|]. cbn [falsy].
    apply Nat.leb_le in Hlen. rewrite Hlen. reflexivity.
Qed.

Lemma maskEmail_spec_witness :
  maskEmail (js "bob.smith@mail.example.org@x") = js "b*******h@mail.example.org" /\
  maskEmail (js "no-at-sign") = js "***".
Proof.
  destruct maskEmail_spec as (_ & _ & _ & Hno & _ & Hlong & _).
  split.
  - apply (Hlong 98%N (js "ob.smit") 104%N (js "mail.example.org") (js "@x")).
    + not_in_literal.
    + discriminate.
    + not_in_literal.
    + discriminate.
    + right. eexists. reflexivity.
  - apply Hno. not_in_literal.
Defined.

(** C8 (as stated, refuted).  The address [abc@] has an [@] and a local
    part of three characters, yet it masks to the sentinel; and of
    [abc@x@y] only [x] is shown after the [@]. *)
Lemma maskEmail_rule_counterexample :
  maskEmail (js "abc@") = js "***" /\
  maskEmail (js "abc@x@y") = js "a*c@x" /\
  ~ mask_rule_as_worded.
Proof.
  split; [reflexivity|]. split; [reflexivity|].
  intros H. specialize (H 97%N [98%N] 99%N []).
  assert (Hin : ~ In ch_at (97%N :: [98%N] ++ [99%N])).
  { not_in_literal. }
  specialize (H Hin ltac:(discriminate)). vm_compute in H. discriminate H.
Qed.

(** ** The pattern matcher decides the language *)

Lemma lang_seq_inv r1 r2 s :
  re_lang (RSeq r1 r2) s -> exists s1 s2, s = s1 ++ s2 /\ re_lang r1 s1 /\ re_lang r2 s2.
Proof. intros H. inversion H; subst. eauto. Qed.

Lemma lang_alt_inv r1 r2 s : re_lang (RAlt r1 r2) s -> re_lang r1 s \/ re_lang r2 s.
Proof. intros H. inversion H; subst; auto. Qed.

Lemma nullable_spec r : nullable r = true <-> re_lang r [].
Proof.
  induction r as [| |p|r1 IH1 r2 IH2|r1 IH1 r2 IH2|r IH]; simpl.
  - split; [discriminate|]. intros H. inversion H.
  - split; [constructor|reflexivity].
  - split; [discriminate|]. intros H. inversion H.
  - rewrite andb_true_iff, IH1, IH2. split.
    + intros [H1 H2]. change (@nil N) with (@nil N ++ []). now constructor.
    + intros H. apply lang_seq_inv in H. destruct H as (s1 & s2 & He & H1 & H2).
      symmetry in He. apply app_eq_nil in He. destruct He; subst. auto.
  - rewrite orb_true_iff, IH1, IH2. split.
    + intros [H|H]; [now apply lang_alt_l|now apply lang_alt_r].
    + apply lang_alt_inv.
  - split; [constructor|reflexivity].
Qed.

(** A non-empty word of a starred pattern begins with a non-empty word of
    the pattern. *)
Lemma lang_star_cons r x w :
  re_lang (RStar r) (x :: w) ->
  exists w1 w2, w = w1 ++ w2 /\ re_lang r (x :: w1) /\ re_lang (RStar r) w2.
Proof.
  intros H. remember (RStar r) as r' eqn:Er. remember (x :: w) as xw eqn:Ew.
  revert x w Ew.
  induction H as [|q d Hq|? ? ? ? ? ? ? ?|? ? ? ? ?|? ? ? ? ?|?|r0 u1 u2 H1 _ H2 IH2];
    intros x w Ew; try discriminate.
  injection Er as ->.
  destruct u1 as [|c1 u1].
  - simpl in Ew. apply IH2; auto.
  - simpl in Ew. injection Ew as -> <-. eauto.
Qed.

Lemma deriv_spec c r s : re_lang (deriv c r) s <-> re_lang r (c :: s).
Proof.
  revert s. induction r as [| |p|r1 IH1 r2 IH2|r1 IH1 r2 IH2|r IH]; intros s; simpl.
  - split; intros H; inversion H.
  - split; intros H; inversion H.
  - destruct (p c) eqn:Hp; split; intros H; inversion H; subst.
    + now constructor.
    + constructor.
    + congruence.
  - assert (Hseq : re_lang (RSeq (deriv c r1) r2) s <->
                   exists s1 s2, s = s1 ++ s2 /\ re_lang r1 (c :: s1) /\ re_lang r2 s2).
    { split.
      - intros H. apply lang_seq_inv in H. destruct H as (s1 & s2 & -> & H1 & H2).
        apply IH1 in H1. eauto.
      - intros (s1 & s2 & -> & H1 & H2). constructor; [now apply IH1|assumption]. }
    destruct (nullable r1) eqn:Hn.
    + split.
      * intros H. apply lang_alt_inv in H. destruct H as [H|H].
        -- apply Hseq in H. destruct H as (s1 & s2 & -> & H1 & H2).
           change (c :: s1 ++ s2) with ((c :: s1) ++ s2). now constructor.
        -- apply IH2 in H. apply nullable_spec in Hn.
           change (c :: s) with ([] ++ c :: s). now constructor.
      * intros H. apply lang_seq_inv in H. destruct H as (s1 & s2 & He & H1 & H2).
        destruct s1 as [|c1 s1]; simpl in He.
        -- subst s2. apply lang_alt_r. now apply IH2.
        -- injection He as <- ->. apply lang_alt_l. apply Hseq. eauto.
    + rewrite Hseq. split.
      * intros (s1 & s2 & -> & H1 & H2).
        change (c :: s1 ++ s2) with ((c :: s1) ++ s2). now constructor.
      * intros H. apply lang_seq_inv in H. destruct H as (s1 & s2 & He & H1 & H2).
        destruct s1 as [|c1 s1]; simpl in He.
        -- apply nullable_spec in H1. congruence.
        -- injection He as <- ->. eauto.
  - split.
    + intros H. apply lang_alt_inv in H.
      destruct H as [H|H]; [apply lang_alt_l, IH1|apply lang_alt_r, IH2]; assumption.
    + intros H. apply lang_alt_inv in H.
      destruct H as [H|H]; [apply lang_alt_l, IH1|apply lang_alt_r, IH2]; assumption.
  - split.
    + intros H. apply lang_seq_inv in H. destruct H as (s1 & s2 & -> & H1 & H2).
      apply IH in H1. change (c :: s1 ++ s2) with ((c :: s1) ++ s2). now constructor.
    + intros H. apply lang_star_cons in H. destruct H as (s1 & s2 & -> & H1 & H2).
      constructor; [now apply IH|assumption].
Qed.

Lemma regex_test_spec r s : regex_test r s = true <-> re_lang r s.
Proof.
  revert r. induction s as [|c s IH]; intros r; simpl.
  - apply nullable_spec.
  - rewrite IH. apply deriv_spec.
Qed.

Lemma lang_class_inv p s : re_lang (RClass p) s <-> exists c, s = [c] /\ p c = true.
Proof.
  split.
  - intros H. inversion H; subst. eauto.
  - intros (c & -> & Hp). now constructor.
Qed.

Lemma lang_char c s : re_lang (RChar c) s <-> s = [c].
Proof.
  unfold RChar. rewrite lang_class_inv. split.
  - intros (d & -> & Hd). apply N.eqb_eq in Hd. now subst.
  - intros ->. exists c. split; [reflexivity|apply N.eqb_refl].
Qed.

Lemma lang_star_class p s :
  re_lang (RStar (RClass p)) s <-> Forall (fun c => p c = true) s.
Proof.
  split.
  - intros H. remember (RStar (RClass p)) as r eqn:Er.
    induction H as [|q d Hq|? ? ? ? ? ? ? ?|? ? ? ? ?|? ? ? ? ?|?|r0 s1 s2 H1 _ H2 IH2];
      try discriminate.
    + constructor.
    + injection Er as ->. apply lang_class_inv in H1. destruct H1 as (c & -> & Hp).
      simpl. constructor; auto.
  - induction 1 as [|c s Hc _ IH].
    + constructor.
    + change (c :: s) with ([c] ++ s). constructor; [now constructor|assumption].
Qed.

Lemma lang_plus_class p s :
  re_lang (RPlus (RClass p)) s <-> s <> [] /\ Forall (fun c => p c = true) s.
Proof.
  unfold RPlus. split.
  - intros H. apply lang_seq_inv in H. destruct H as (s1 & s2 & -> & H1 & H2).
    apply lang_class_inv in H1. destruct H1 as (c & -> & Hp).
    apply lang_star_class in H2. split; [discriminate|]. simpl. now constructor.
  - intros [Hne Hall]. destruct s as [|c s]; [congruence|].
    inversion Hall; subst. change (c :: s) with ([c] ++ s).
    constructor; [now constructor|now apply lang_star_class].
Qed.

Lemma email_regex_lang s : re_lang Part000.email_regex s <-> valid_shape s.
Proof.
  unfold Part000.email_regex, valid_shape, plain. split.
  - intros H.
    apply lang_seq_inv in H. destruct H as (loc & s1 & -> & Hloc & H).
    apply lang_seq_inv in H. destruct H as (at1 & s2 & -> & Hat & H).
    apply lang_seq_inv in H. destruct H as (a & s3 & -> & Ha & H).
    apply lang_seq_inv in H. destruct H as (dot & b & -> & Hdot & Hb).
    apply lang_char in Hat. apply lang_char in Hdot. subst at1 dot.
    apply lang_plus_class in Hloc, Ha, Hb.
    destruct Hloc as [? ?], Ha as [? ?], Hb as [? ?].
    exists loc, a, b. simpl. auto 10.
  - intros (loc & a & b & -> & Hl & Ha & Hb & Fl & Fa & Fb).
    constructor; [apply lang_plus_class; auto|].
    change (ch_at :: a ++ ch_dot :: b) with ([ch_at] ++ a ++ [ch_dot] ++ b).
    constructor; [now apply lang_char|].
    constructor; [apply lang_plus_class; auto|].
    constructor; [now apply lang_char|apply lang_plus_class; auto].
Qed.

(** C7 (as amended).  The predicate accepts exactly the strings made of a
    non-empty local part, an [@], and a domain of the form [a.b] with [a]
    and [b] non-empty, where the local part, [a] and [b] hold neither white
    space nor [@]; ["a@b.co"] is accepted and ["no-at-sign"], ["@nodomain"]
    and ["user@nodot"] are rejected. *)
Theorem isValidEmail_spec :
  (forall s, Part000.isValidEmail s = true <-> valid_shape s) /\
  Part000.isValidEmail (js "a@b.co") = true /\
  Part000.isValidEmail (js "no-at-sign") = false /\
  Part000.isValidEmail (js "@nodomain") = false /\
  Part000.isValidEmail (js "user@nodot") = false.
Proof.
  split; [|repeat split; reflexivity].
  intros s. unfold Part000.isValidEmail. rewrite regex_test_spec. apply email_regex_lang.
Qed.

Lemma plain_Forall_dec (s : jsstring) :
  forallb Part000.not_space_or_at s = true -> Forall plain s.
Proof. intros H. apply Forall_forall. intros c Hc. rewrite forallb_forall in H. now apply H. Qed.

(** C7 (as stated, refuted).  ["a@.co"] has a non-empty local part, an
    [@], and a domain without white space or [@] that contains a dot, and
    it is rejected: nothing stands before the dot. *)
Lemma isValidEmail_worded_counterexample :
  valid_shape_as_worded (js "a@.co") /\
  Part000.isValidEmail (js "a@.co") = false /\
  ~ (forall s, Part000.isValidEmail s = true <-> valid_shape_as_worded s).
Proof.
  assert (Hw : valid_shape_as_worded (js "a@.co")).
  { exists (js "a"), (js ".co"). split; [reflexivity|]. split; [discriminate|].
    split; [now apply plain_Forall_dec|]. split; [now apply plain_Forall_dec|].
    now left. }
  split; [exact Hw|]. split; [reflexivity|].
  intros H. apply H in Hw. vm_compute in Hw. discriminate Hw.
Qed.

(** ** Running the monad *)

Lemma bind_run (A B : Type) (m : M A) (k : A -> M B) n :
  bind m k n =
  match m n with
  | (Ok a, n1, t1) => let '(r, n2, t2) := k a n1 in (r, n2, t1 ++ t2)
  | (Throw e, n1, t1) => (Throw e, n1, t1)
  | (Exit c, n1, t1) => (Exit c, n1, t1)
  end.
Proof. reflexivity. Qed.

Lemma bind_ok (A B : Type) (m : M A) (k : A -> M B) n a n1 t1 :
  m n = (Ok a, n1, t1) ->
  bind m k n = (let '(r, n2, t2) := k a n1 in (r, n2, t1 ++ t2)).
Proof. intros H. unfold bind. now rewrite H. Qed.

Lemma bind_emit (B : Type) (ev : Event) (k : unit -> M B) n :
  bind (emit ev) k n = (let '(r, n2, t2) := k tt n in (r, n2, ev :: t2)).
Proof. reflexivity. Qed.

Lemma bind_ret (A B : Type) (a : A) (k : A -> M B) n :
  bind (ret a) k n = k a n.
Proof. unfold bind, ret. destruct (k a n) as [[r n2] t2]. reflexivity. Qed.

Lemma bind_assoc (A B C : Type) (m : M A) (f : A -> M B) (g : B -> M C) n :
  bind (bind m f) g n = bind m (fun x => bind (f x) g) n.
Proof.
  unfold bind. destruct (m n) as [[[a|e|c] n1] t1]; try reflexivity.
  destruct (f a n1) as [[[b|e|c] n2] t2]; try reflexivity.
  destruct (g b n2) as [[r n3] t3]. now rewrite app_assoc.
Qed.


Section SendBatchFacts.
Variable provider : nat -> Outcome Json.
Variable key : jsstring.

Lemma sendBatch_from_unfold emails m a :
  Part000.sendBatch_from provider key emails m a =
  if (a <=? m)%Z then
    resp <- fetchJson provider batch_url POST (api_headers key) (PBatch emails) ;;
    if ((200 <=? status resp) && (status resp <? 300))%Z then
      ret {| success := true; res_status := None; res_data := Some (data resp) |}
    else if ((status resp =? 429) && (a <? m))%Z then
      console_log [LStr (js "  Rate limited, retrying batch in"); LNum (a * 3000)%Z;
                   LStr (js "ms...")] ;;
      sleep (a * 3000)%Z ;;
      Part000.sendBatch_from provider key emails m (a + 1)%Z
    else
      ret {| success := false; res_status := Some (status resp);
             res_data := Some (data resp) |}
  else ret max_retries_exceeded.
Proof.
  rewrite Part000.sendBatch_from_equation_1. unfold inspect.
  generalize (@eq_refl bool (a <=? m)%Z).
  generalize (a <=? m)%Z at 2 4 5. intros [] e; reflexivity.
Qed.

Lemma sendBatch_from_unfold_sn emails m a :
  SendNewsletter.sendBatch_from provider key emails m a =
  if (a <=? m)%Z then
    resp <- fetchJson provider batch_url POST (api_headers key) (PBatch emails) ;;
    if ((200 <=? status resp) && (status resp <? 300))%Z then
      ret {| success := true; res_status := None; res_data := Some (data resp) |}
    else if ((status resp =? 429) && (a <? m))%Z then
      console_log [LStr (js "  Rate limited, retrying batch in"); LNum (a * 3000)%Z;
                   LStr (js "ms...")] ;;
      sleep (a * 3000)%Z ;;
      SendNewsletter.sendBatch_from provider key emails m (a + 1)%Z
    else
      ret {| success := false; res_status := Some (status resp);
             res_data := Some (data resp) |}
  else ret max_retries_exceeded.
Proof.
  rewrite SendNewsletter.sendBatch_from_equation_1. unfold inspect.
  generalize (@eq_refl bool (a <=? m)%Z).
  generalize (a <=? m)%Z at 2 4 5. intros [] e; reflexivity.
Qed.

End SendBatchFacts.

Lemma bind_fetch_reply (B : Type) provider url method headers body
    (k : Response Json -> M B) n r :
  provider n = Reply r ->
  bind (fetchJson provider url method headers body) k n =
  (let '(res, n2, t2) := k r (S n) in
   (res, n2, EvRequest url method headers (Some body) :: t2)).
Proof. intros H. unfold bind, fetchJson. rewrite H. reflexivity. Qed.

(** ** sendBatch: the two scripts agree *)

Lemma sendBatch_from_agree provider key emails m :
  forall k a n, Z.to_nat (m + 1 - a) = k ->
    SendNewsletter.sendBatch_from provider key emails m a n
    = Part000.sendBatch_from provider key emails m a n.
Proof.
  induction k as [|k IH]; intros a n Hk;
    rewrite sendBatch_from_unfold, sendBatch_from_unfold_sn;
    destruct (Z.leb_spec a m) as [Hle|Hgt]; try reflexivity; [lia|].
  rewrite !bind_run.
  destruct (fetchJson provider batch_url POST (api_headers key) (PBatch emails) n)
    as [[[resp|e|c] n1] t1]; try reflexivity.
  destruct ((200 <=? status resp)%Z && (status resp <? 300)%Z); [reflexivity|].
  destruct ((status resp =? 429)%Z && (a <? m)%Z); [|reflexivity].
  unfold console_log, sleep. rewrite !bind_emit.
  rewrite IH by lia. reflexivity.
Qed.

Lemma sendBatch_same_run provider key emails m n :
  SendNewsletter.sendBatch provider key emails m n
  = Part000.sendBatch provider key emails m n.
Proof.
  unfold SendNewsletter.sendBatch, Part000.sendBatch.
  exact (sendBatch_from_agree provider key emails m _ 1%Z n eq_refl).
Qed.

(** C10.  The sendBatch functions of the two scripts are extensionally
    equal: with the same provider answers, API key, message list,
    [maxRetries] and starting point they give the same result, make the same
    number of requests and emit the same events (requests, log lines and
    backoff waits). *)
Theorem sendBatch_variants_agree :
  forall (provider : nat -> Outcome Json) (key : jsstring)
         (emails : list EmailMessage) (maxRetries : Z) (n : nat),
    SendNewsletter.sendBatch provider key emails maxRetries n
    = Part000.sendBatch provider key emails maxRetries n.
Proof.
  intros. unfold SendNewsletter.sendBatch, Part000.sendBatch.
  now apply sendBatch_from_agree with (k := Z.to_nat (maxRetries + 1 - 1)).
Qed.

(** ** sendBatch: retries and backoff *)



Lemma payloads_of_batch_request key emails t :
  payloads_of batch_url (batch_request key emails :: t)
  = PBatch emails :: payloads_of batch_url t.
Proof. reflexivity. Qed.

(** [k] answers 429 and then an answer 2xx, with enough attempts left:
    success after [k] waits, the wait after attempt [a + j] being
    [(a + j) * 3000]. *)
Lemma sendBatch_from_backoff provider key emails m r :
  forall k a n,
    (a + Z.of_nat k <= m)%Z ->
    (forall j, (j < k)%nat ->
       exists d, provider (n + j)%nat = Reply {| status := 429; data := d |}) ->
    provider (n + k)%nat = Reply r ->
    (200 <= status r < 300)%Z ->
    exists t,
      Part000.sendBatch_from provider key emails m a n
      = (Ok {| success := true; res_status := None; res_data := Some (data r) |},
         (n + k + 1)%nat, t)
      /\ sleeps_of t = map (fun j => ((a + Z.of_nat j) * 3000)%Z) (seq 0 k)
      /\ payloads_of batch_url t = repeat (PBatch emails) (S k).
Proof.
  induction k as [|k IH]; intros a n Ham H429 Hok Hst.
  - rewrite sendBatch_from_unfold.
    replace (a <=? m)%Z with true by (symmetry; apply Z.leb_le; lia).
    rewrite Nat.add_0_r in Hok.
    rewrite (bind_fetch_reply _ _ _ _ _ _ _ _ _ Hok).
    replace ((200 <=? status r)%Z && (status r <? 300)%Z) with true
      by (symmetry; apply andb_true_iff; split; [apply Z.leb_le|apply Z.ltb_lt]; lia).
    unfold ret. eexists. split; [|split].
    + replace (n + 0 + 1)%nat with (S n) by lia. reflexivity.
    + reflexivity.
    + reflexivity.
  - rewrite sendBatch_from_unfold.
    replace (a <=? m)%Z with true by (symmetry; apply Z.leb_le; lia).
    destruct (H429 0%nat ltac:(lia)) as [d Hd]. rewrite Nat.add_0_r in Hd.
    rewrite (bind_fetch_reply _ _ _ _ _ _ _ _ _ Hd). cbn [status data].
    change ((200 <=? 429)%Z && (429 <? 300)%Z) with false. cbv iota.
    change (429 =? 429)%Z with true.
    replace (a <? m)%Z with true by (symmetry; apply Z.ltb_lt; lia).
    cbn [andb]. unfold console_log, sleep. rewrite !bind_emit.
    destruct (IH (a + 1)%Z (S n)) as (t & Hrun & Hsl & Hpay).
    + lia.
    + intros j Hj. replace (S n + j)%nat with (n + S j)%nat by lia. apply H429. lia.
    + replace (S n + k)%nat with (n + S k)%nat by lia. exact Hok.
    + exact Hst.
    + rewrite Hrun. eexists. split; [|split].
      * replace (S n + k + 1)%nat with (n + S k + 1)%nat by lia. reflexivity.
      * cbn [sleeps_of flat_map app]. fold (sleeps_of t). rewrite Hsl.
        cbn [seq map]. rewrite <- seq_shift, map_map. f_equal.
        -- f_equal. lia.
        -- apply map_ext. intros j. f_equal. lia.
      * fold (batch_request key emails). rewrite payloads_of_batch_request.
        cbn [payloads_of flat_map app]. fold (payloads_of batch_url t).
        rewrite Hpay. reflexivity.
Qed.

(** C4.  With [k] answers 429 followed by an answer 2xx and
    [maxRetries > k], sendBatch succeeds after [k + 1] requests, and its
    waits are [3000, 6000, ..., k * 3000]: the wait after attempt [j] is
    [j * 3000] ms.  In the scenario 429, 429, 200 with [maxRetries = 3] the
    events are: request, log line, wait 3000, request, log line, wait 6000,
    request.  Both scripts behave so. *)
Theorem sendBatch_retry_backoff :
  (forall provider key emails (maxRetries : Z) (k n : nat) r,
     (Z.of_nat k < maxRetries)%Z ->
     (forall j, (j < k)%nat ->
        exists d, provider (n + j)%nat = Reply {| status := 429; data := d |}) ->
     provider (n + k)%nat = Reply r ->
     (200 <= status r < 300)%Z ->
     exists t,
       Part000.sendBatch provider key emails maxRetries n
       = (Ok {| success := true; res_status := None; res_data := Some (data r) |},
          (n + k + 1)%nat, t)
       /\ SendNewsletter.sendBatch provider key emails maxRetries n
          = Part000.sendBatch provider key emails maxRetries n
       /\ sleeps_of t = map (fun j => (Z.of_nat j * 3000)%Z) (seq 1 k)
       /\ payloads_of batch_url t = repeat (PBatch emails) (S k))
  /\
  (forall provider key emails n d1 d2 d3,
     provider n = Reply {| status := 429; data := d1 |} ->
     provider (S n) = Reply {| status := 429; data := d2 |} ->
     provider (S (S n)) = Reply {| status := 200; data := d3 |} ->
     Part000.sendBatch provider key emails 3 n
     = (Ok {| success := true; res_status := None; res_data := Some d3 |},
        S (S (S n)),
        [batch_request key emails; rate_limited_line 3000; EvSleep 3000;
         batch_request key emails; rate_limited_line 6000; EvSleep 6000;
         batch_request key emails])
     /\ SendNewsletter.sendBatch provider key emails 3 n
        = Part000.sendBatch provider key emails 3 n).
Proof.
  split.
  - intros provider key emails m k n r Hk H429 Hok Hst.
    destruct (sendBatch_from_backoff provider key emails m r k 1%Z n)
      as (t & Hrun & Hsl & Hpay); try assumption; [lia|].
    exists t. unfold Part000.sendBatch. split; [exact Hrun|].
    split; [apply sendBatch_same_run|]. split; [|exact Hpay].
    rewrite Hsl, <- seq_shift, map_map. apply map_ext. intros j. f_equal. lia.
  - intros provider key emails n d1 d2 d3 H1 H2 H3.
    split; [|apply sendBatch_same_run].
    unfold Part000.sendBatch.
    rewrite sendBatch_from_unfold. change (1 <=? 3)%Z with true. cbv iota.
    rewrite (bind_fetch_reply _ _ _ _ _ _ _ _ _ H1). cbn [status data].
    change ((200 <=? 429)%Z && (429 <? 300)%Z) with false.
    change ((429 =? 429)%Z && (1 <? 3)%Z) with true. cbv iota.
    unfold console_log, sleep. rewrite !bind_emit.
    rewrite sendBatch_from_unfold. change (1 + 1 <=? 3)%Z with true. cbv iota.
    rewrite (bind_fetch_reply _ _ _ _ _ _ _ _ _ H2). cbn [status data].
    change ((200 <=? 429)%Z && (429 <? 300)%Z) with false.
    change ((429 =? 429)%Z && (1 + 1 <? 3)%Z) with true. cbv iota.
    unfold console_log, sleep. rewrite !bind_emit.
    rewrite sendBatch_from_unfold. change (1 + 1 + 1 <=? 3)%Z with true. cbv iota.
    rewrite (bind_fetch_reply _ _ _ _ _ _ _ _ _ H3). cbn [status data].
    change ((200 <=? 200)%Z && (200 <? 300)%Z) with true. cbv iota.
    reflexivity.
Qed.


Lemma sendBatch_retry_backoff_witness :
  exists t,
    Part000.sendBatch (scripted [429; 429; 200]%Z JNull) (js "key") [] 3 0
    = (Ok {| success := true; res_status := None; res_data := Some JNull |}, 3%nat, t)
    /\ sleeps_of t = [3000; 6000]%Z.
Proof.
  destruct sendBatch_retry_backoff as [Hgen _].
  destruct (Hgen (scripted [429; 429; 200]%Z JNull) (js "key") [] 3%Z 2%nat 0%nat
              {| status := 200; data := JNull |})
    as (t & Hrun & _ & Hsl & _).
  - lia.
  - intros j Hj. exists JNull. destruct j as [|[|j]]; [reflexivity|reflexivity|lia].
  - reflexivity.
  - simpl. lia.
  - exists t. split; [exact Hrun|exact Hsl].
Defined.

(** ** sendBatch: 429 on every attempt *)

(** When every attempt is answered 429, the last attempt leaves the loop by
    the general failure [return]: the result carries the body of the last
    answer.  The statement after the loop is reached only when the loop
    runs zero times. *)
Lemma sendBatch_from_all_429 provider key emails m :
  forall k a n,
    (a + Z.of_nat k = m)%Z ->
    (forall j, (j <= k)%nat ->
       exists d, provider (n + j)%nat = Reply {| status := 429; data := d |}) ->
    exists d t,
      provider (n + k)%nat = Reply {| status := 429; data := d |} /\
      Part000.sendBatch_from provider key emails m a n
      = (Ok {| success := false; res_status := Some 429%Z; res_data := Some d |},
         (n + k + 1)%nat, t).
Proof.
  induction k as [|k IH]; intros a n Ham H429.
  - destruct (H429 0%nat ltac:(lia)) as [d Hd]. exists d.
    rewrite sendBatch_from_unfold.
    replace (a <=? m)%Z with true by (symmetry; apply Z.leb_le; lia).
    rewrite Nat.add_0_r in Hd.
    rewrite (bind_fetch_reply _ _ _ _ _ _ _ _ _ Hd). cbn [status data].
    change ((200 <=? 429)%Z && (429 <? 300)%Z) with false. cbv iota.
    replace (a <? m)%Z with false by (symmetry; apply Z.ltb_ge; lia).
    rewrite andb_false_r. eexists. rewrite Nat.add_0_r. split; [exact Hd|].
    unfold ret. replace (n + 1)%nat with (S n) by lia. reflexivity.
  - destruct (H429 0%nat ltac:(lia)) as [d0 Hd0]. rewrite Nat.add_0_r in Hd0.
    destruct (IH (a + 1)%Z (S n)) as (d & t & Hd & Hrun).
    + lia.
    + intros j Hj. replace (S n + j)%nat with (n + S j)%nat by lia. apply H429. lia.
    + exists d. rewrite sendBatch_from_unfold.
      replace (a <=? m)%Z with true by (symmetry; apply Z.leb_le; lia).
      rewrite (bind_fetch_reply _ _ _ _ _ _ _ _ _ Hd0). cbn [status data].
      change ((200 <=? 429)%Z && (429 <? 300)%Z) with false. cbv iota.
      change (429 =? 429)%Z with true.
      replace (a <? m)%Z with true by (symmetry; apply Z.ltb_lt; lia).
      cbn [andb]. unfold console_log, sleep. rewrite !bind_emit. rewrite Hrun.
      eexists. replace (n + S k)%nat with (S n + k)%nat by lia.
      split; [exact Hd|reflexivity].
Qed.

Lemma sendBatch_zero_attempts provider key emails m n :
  (m < 1)%Z ->
  Part000.sendBatch provider key emails m n = (Ok max_retries_exceeded, n, []).
Proof.
  intros Hm. unfold Part000.sendBatch. rewrite sendBatch_from_unfold.
  replace (1 <=? m)%Z with false by (symmetry; apply Z.leb_gt; lia). reflexivity.
Qed.


(** C2 (the code at the failing input).  The provider answers 429 with
    [rate_limit_body] to each of the three attempts of [sendBatch(emails)]
    for two messages: the result has status 429, and its body is the
    provider's body, not the string of the statement after the loop.  Both
    scripts behave so. *)
Theorem sendBatch_all_429_keeps_provider_body :
  let provider := scripted [429; 429; 429]%Z rate_limit_body in
  let emails := sample_messages 2 in
  let result := {| success := false; res_status := Some 429%Z;
                   res_data := Some rate_limit_body |} in
  Part000.sendBatch provider (js "key") emails 3 0
  = (Ok result, 3%nat,
     [batch_request (js "key") emails; rate_limited_line 3000; EvSleep 3000;
      batch_request (js "key") emails; rate_limited_line 6000; EvSleep 6000;
      batch_request (js "key") emails]) /\
  SendNewsletter.sendBatch provider (js "key") emails 3 0
  = Part000.sendBatch provider (js "key") emails 3 0 /\
  res_data result <> res_data max_retries_exceeded.
Proof.
  cbv zeta. split; [vm_compute; reflexivity|].
  split; [apply sendBatch_same_run|discriminate].
Qed.

(** ** The batch loop *)

Lemma loop_indices_step n i :
  loop_indices n i = if (i <? n)%nat then i :: loop_indices n (i + BATCH_SIZE) else [].
Proof.
  rewrite loop_indices_equation_1. unfold inspect.
  generalize (@eq_refl bool (i <? n)%nat).
  generalize (i <? n)%nat at 2 4 5. intros [] e; reflexivity.
Qed.

Lemma deliver_from_unfold provider key allEmails i sent failed :
  Part000.deliver_from provider key allEmails i sent failed =
  if (i <? length allEmails)%nat then
    counts <- Part000.loop_body provider key allEmails i sent failed ;;
    Part000.deliver_from provider key allEmails (i + BATCH_SIZE) (fst counts) (snd counts)
  else ret (sent, failed).
Proof.
  rewrite Part000.deliver_from_equation_1. unfold inspect.
  generalize (@eq_refl bool (i <? length allEmails)%nat).
  generalize (i <? length allEmails)%nat at 2 4 5. intros [] e; reflexivity.
Qed.

Lemma deliver_from_unfold_sn provider key allEmails i sent failed :
  SendNewsletter.deliver_from provider key allEmails i sent failed =
  if (i <? length allEmails)%nat then
    counts <- SendNewsletter.loop_body provider key allEmails i sent failed ;;
    SendNewsletter.deliver_from provider key allEmails (i + BATCH_SIZE) (fst counts) (snd counts)
  else ret (sent, failed).
Proof.
  rewrite SendNewsletter.deliver_from_equation_1. unfold inspect.
  generalize (@eq_refl bool (i <? length allEmails)%nat).
  generalize (i <? length allEmails)%nat at 2 4 5. intros [] e; reflexivity.
Qed.

(** The loop is its body run at the loop's indices. *)
Lemma deliver_from_run_at provider key allEmails :
  forall k i sent failed n, (length allEmails - i = k)%nat ->
    Part000.deliver_from provider key allEmails i sent failed n
    = run_at (Part000.loop_body provider key allEmails)
        (loop_indices (length allEmails) i) sent failed n.
Proof.
  induction k as [k IH] using lt_wf_ind. intros i sent failed n Hk.
  rewrite deliver_from_unfold, loop_indices_step.
  destruct (Nat.ltb_spec i (length allEmails)) as [Hlt|Hge]; [|reflexivity].
  cbn [run_at]. rewrite !bind_run.
  destruct (Part000.loop_body provider key allEmails i sent failed n) as [[[c|e|c] n1] t1];
    try reflexivity.
  rewrite (IH (length allEmails - (i + BATCH_SIZE))%nat); [reflexivity| |reflexivity].
  unfold BATCH_SIZE. lia.
Qed.

Lemma deliver_from_run_at_sn provider key allEmails :
  forall k i sent failed n, (length allEmails - i = k)%nat ->
    SendNewsletter.deliver_from provider key allEmails i sent failed n
    = run_at (SendNewsletter.loop_body provider key allEmails)
        (loop_indices (length allEmails) i) sent failed n.
Proof.
  induction k as [k IH] using lt_wf_ind. intros i sent failed n Hk.
  rewrite deliver_from_unfold_sn, loop_indices_step.
  destruct (Nat.ltb_spec i (length allEmails)) as [Hlt|Hge]; [|reflexivity].
  cbn [run_at]. rewrite !bind_run.
  destruct (SendNewsletter.loop_body provider key allEmails i sent failed n)
    as [[[c|e|c] n1] t1]; try reflexivity.
  rewrite (IH (length allEmails - (i + BATCH_SIZE))%nat); [reflexivity| |reflexivity].
  unfold BATCH_SIZE. lia.
Qed.

(** ** The partition into batches *)

Lemma slice_length (A : Type) (i j : nat) (l : list A) :
  (length (slice i j l) <= j - i)%nat.
Proof. unfold slice. rewrite length_firstn. lia. Qed.

Lemma slice_then_rest (A : Type) (i : nat) (l : list A) :
  slice i (i + BATCH_SIZE) l ++ skipn (i + BATCH_SIZE) l = skipn i l.
Proof.
  unfold slice. replace (i + BATCH_SIZE - i)%nat with BATCH_SIZE by lia.
  rewrite (Nat.add_comm i BATCH_SIZE), <- skipn_skipn. apply firstn_skipn.
Qed.

Lemma ceil_div_step m : (1 <= m)%nat -> ceil_div m 50 = S (ceil_div (m - 50) 50).
Proof.
  unfold ceil_div. intros Hm.
  assert (H1 := Nat.div_mod_eq (m + 50 - 1) 50).
  assert (H2 := Nat.div_mod_eq (m - 50 + 50 - 1) 50).
  assert (H3 := Nat.mod_upper_bound (m + 50 - 1) 50 ltac:(lia)).
  assert (H4 := Nat.mod_upper_bound (m - 50 + 50 - 1) 50 ltac:(lia)).
  lia.
Qed.

(** [ceil_div] is the ceiling of the exact quotient. *)
Lemma ceil_div_is_ceiling n :
  Qround.Qceiling (QArith_base.Qmake (Z.of_nat n) 50) = Z.of_nat (ceil_div n 50).
Proof.
  unfold Qround.Qceiling, Qround.Qfloor, QArith_base.Qopp, ceil_div.
  cbn [QArith_base.Qnum QArith_base.Qden].
  rewrite Nat2Z.inj_div.
  replace (Z.of_nat (n + 50 - 1)) with (Z.of_nat n + 49)%Z by lia.
  change (Z.of_nat 50) with 50%Z.
  Z.div_mod_to_equations. lia.
Qed.

Lemma loop_indices_facts (l : list EmailMessage) :
  forall k i, (length l - i = k)%nat ->
    length (loop_indices (length l) i) = ceil_div (length l - i) 50 /\
    concat (map (fun j => slice j (j + BATCH_SIZE) l) (loop_indices (length l) i))
    = skipn i l.
Proof.
  induction k as [k IH] using lt_wf_ind. intros i Hk.
  rewrite loop_indices_step.
  destruct (Nat.ltb_spec i (length l)) as [Hlt|Hge].
  - destruct (IH (length l - (i + BATCH_SIZE))%nat) with (i := (i + BATCH_SIZE)%nat)
      as [Hlen Hcat]; [unfold BATCH_SIZE; lia|reflexivity|].
    split.
    + cbn [length]. rewrite Hlen. unfold BATCH_SIZE.
      rewrite (ceil_div_step (length l - i)) by lia. f_equal. f_equal. lia.
    + cbn [map concat]. rewrite Hcat. apply slice_then_rest.
  - split.
    + replace (length l - i)%nat with 0%nat by lia. reflexivity.
    + simpl. symmetry. apply skipn_all2. lia.
Qed.

Lemma payloads_of_app url t1 t2 :
  payloads_of url (t1 ++ t2) = payloads_of url t1 ++ payloads_of url t2.
Proof. unfold payloads_of. apply flat_map_app. Qed.

Lemma payloads_of_console url ev t :
  is_console ev -> payloads_of url (ev :: t) = payloads_of url t.
Proof. destruct ev; simpl; intros H; (contradiction || reflexivity). Qed.

Lemma payloads_of_single_batch_request key emails t :
  payloads_of single_url (batch_request key emails :: t) = payloads_of single_url t.
Proof. reflexivity. Qed.

Lemma payloads_of_sent_lines url batch : payloads_of url (map sent_line batch) = [].
Proof. induction batch as [|e batch IH]; [reflexivity|exact IH]. Qed.

Lemma payloads_of_batch_pause url allEmails i : payloads_of url (batch_pause allEmails i) = [].
Proof. unfold batch_pause. destruct (i + BATCH_SIZE <? length allEmails)%nat; reflexivity. Qed.

Lemma log_sent_trace batch n :
  Part000.log_sent batch n = (Ok tt, n, map sent_line batch).
Proof.
  induction batch as [|e batch IH]; [reflexivity|].
  cbn [Part000.log_sent map]. unfold console_log. now rewrite bind_emit, IH.
Qed.

Lemma log_sent_trace_sn batch n :
  SendNewsletter.log_sent batch n = (Ok tt, n, map sent_line batch).
Proof.
  induction batch as [|e batch IH]; [reflexivity|].
  cbn [SendNewsletter.log_sent map]. unfold console_log. now rewrite bind_emit, IH.
Qed.

Lemma pause_between_batches (allEmails : list EmailMessage) (i n : nat) :
  (if (i + BATCH_SIZE <? length allEmails)%nat then sleep 1000 else ret tt) n
  = (Ok tt, n, batch_pause allEmails i).
Proof. unfold batch_pause. destruct (i + BATCH_SIZE <? length allEmails)%nat; reflexivity. Qed.

Lemma sendBatch_first_try provider key emails n r :
  provider n = Reply r -> (200 <= status r < 300)%Z ->
  Part000.sendBatch provider key emails 3 n
  = (Ok {| success := true; res_status := None; res_data := Some (data r) |}, S n,
     [batch_request key emails]).
Proof.
  intros Hr Hst. unfold Part000.sendBatch. rewrite sendBatch_from_unfold.
  change (1 <=? 3)%Z with true. cbv iota.
  rewrite (bind_fetch_reply _ _ _ _ _ _ _ _ _ Hr).
  replace ((200 <=? status r)%Z && (status r <? 300)%Z) with true
    by (symmetry; apply andb_true_iff; split; [apply Z.leb_le|apply Z.ltb_lt]; lia).
  reflexivity.
Qed.

(** The body of the loop when the provider accepts the batch at once. *)
Lemma loop_body_accepted provider key allEmails i sent failed n :
  always_accepts provider ->
  Part000.loop_body provider key allEmails i sent failed n
  = (Ok ((sent + length (slice i (i + BATCH_SIZE) allEmails))%nat, failed), S n,
     sending_line allEmails i
     :: batch_request key (slice i (i + BATCH_SIZE) allEmails)
     :: map sent_line (slice i (i + BATCH_SIZE) allEmails) ++ batch_pause allEmails i)
  /\
  SendNewsletter.loop_body provider key allEmails i sent failed n
  = Part000.loop_body provider key allEmails i sent failed n.
Proof.
  intros Hacc. destruct (Hacc n) as (r & Hr & Hst).
  pose proof (sendBatch_first_try provider key (slice i (i + BATCH_SIZE) allEmails) n r Hr Hst)
    as Hb.
  assert (Hp : Part000.loop_body provider key allEmails i sent failed n
               = (Ok ((sent + length (slice i (i + BATCH_SIZE) allEmails))%nat, failed), S n,
                  sending_line allEmails i
                  :: batch_request key (slice i (i + BATCH_SIZE) allEmails)
                  :: map sent_line (slice i (i + BATCH_SIZE) allEmails)
                     ++ batch_pause allEmails i)).
  { unfold Part000.loop_body, console_log. rewrite bind_emit.
    rewrite (bind_ok _ _ _ _ _ _ _ _ Hb). cbn [success].
    rewrite bind_assoc, (bind_ok _ _ _ _ _ _ _ _ (log_sent_trace _ (S n))), bind_ret.
    rewrite (bind_ok _ _ _ _ _ _ _ _ (pause_between_batches allEmails i (S n))).
    unfold ret, sending_line. cbn [app]. rewrite app_nil_r. reflexivity. }
  split; [exact Hp|]. rewrite Hp.
  rewrite <- sendBatch_same_run in Hb.
  unfold SendNewsletter.loop_body, console_log. rewrite bind_emit.
  rewrite (bind_ok _ _ _ _ _ _ _ _ Hb). cbn [success].
  cbv zeta.
  rewrite bind_assoc, (bind_ok _ _ _ _ _ _ _ _ (log_sent_trace_sn _ (S n))), bind_ret.
  rewrite (bind_ok _ _ _ _ _ _ _ _ (pause_between_batches allEmails i (S n))).
  unfold ret, sending_line. cbn [app]. rewrite app_nil_r. reflexivity.
Qed.

Lemma run_at_accepted provider key allEmails :
  always_accepts provider ->
  forall indices sent failed n,
    exists t,
      run_at (Part000.loop_body provider key allEmails) indices sent failed n
      = (Ok ((sent + list_sum (map (fun i => length (slice i (i + BATCH_SIZE) allEmails))
                                  indices))%nat, failed),
         (n + length indices)%nat, t) /\
      run_at (SendNewsletter.loop_body provider key allEmails) indices sent failed n
      = run_at (Part000.loop_body provider key allEmails) indices sent failed n /\
      payloads_of batch_url t
      = map (fun i => PBatch (slice i (i + BATCH_SIZE) allEmails)) indices /\
      payloads_of single_url t = [].
Proof.
  intros Hacc. induction indices as [|i indices IH]; intros sent failed n.
  - exists []. cbn. rewrite !Nat.add_0_r. auto.
  - destruct (loop_body_accepted provider key allEmails i sent failed n Hacc) as [Hp Hsn].
    destruct (IH (sent + length (slice i (i + BATCH_SIZE) allEmails))%nat failed (S n))
      as (t & Hrun & Hrun_sn & Hb & Hs).
    eexists. cbn [run_at]. split; [|split; [|split]].
    + rewrite (bind_ok _ _ _ _ _ _ _ _ Hp). cbn [fst snd]. rewrite Hrun.
      replace (sent + list_sum (map (fun j => length (slice j (j + BATCH_SIZE) allEmails))
                                  (i :: indices)))%nat
        with (sent + length (slice i (i + BATCH_SIZE) allEmails)
              + list_sum (map (fun j => length (slice j (j + BATCH_SIZE) allEmails))
                            indices))%nat
        by (unfold list_sum; cbn [map fold_right]; lia).
      replace (n + length (i :: indices))%nat with (S n + length indices)%nat
        by (cbn [length]; lia).
      reflexivity.
    + unfold bind. rewrite Hsn, Hp. cbn [fst snd]. now rewrite Hrun_sn.
    + cbn [app map].
      rewrite payloads_of_console by exact I.
      rewrite payloads_of_batch_request.
      rewrite !payloads_of_app, payloads_of_sent_lines, payloads_of_batch_pause, Hb.
      reflexivity.
    + cbn [app].
      rewrite payloads_of_console by exact I.
      rewrite payloads_of_single_batch_request.
      rewrite !payloads_of_app, payloads_of_sent_lines, payloads_of_batch_pause, Hs.
      reflexivity.
Qed.

(** C3.  The loop of either script is its body run once at each index
    [0, 50, 100, ...] below the list's length, on the batch
    [allEmails.slice(i, i + 50)].  These batches number [ceil(n / 50)]
    (the ceiling of the exact quotient, which is also the [totalBatches] that
    the scripts log), each has at most 50 messages, and their concatenation
    in the order of processing is the message list: when the provider
    accepts every request, the bodies of the batch requests are, in order,
    exactly these batches. *)
Theorem batches_partition :
  forall allEmails : list EmailMessage,
    Z.of_nat (length (batches allEmails))
    = Qround.Qceiling (QArith_base.Qmake (Z.of_nat (length allEmails)) 50) /\
    length (batches allEmails) = ceil_div (length allEmails) BATCH_SIZE /\
    Forall (fun b => (length b <= 50)%nat) (batches allEmails) /\
    concat (batches allEmails) = allEmails /\
    (forall provider key sent failed n,
       Part000.deliver_from provider key allEmails 0 sent failed n
       = run_at (Part000.loop_body provider key allEmails)
           (loop_indices (length allEmails) 0) sent failed n) /\
    (forall provider key sent failed n,
       SendNewsletter.deliver_from provider key allEmails 0 sent failed n
       = run_at (SendNewsletter.loop_body provider key allEmails)
           (loop_indices (length allEmails) 0) sent failed n) /\
    (forall provider key n,
       always_accepts provider ->
       exists t,
         Part000.deliver_from provider key allEmails 0 0 0 n
         = (Ok (length allEmails, 0%nat), (n + length (batches allEmails))%nat, t) /\
         SendNewsletter.deliver_from provider key allEmails 0 0 0 n
         = Part000.deliver_from provider key allEmails 0 0 0 n /\
         payloads_of batch_url t = map PBatch (batches allEmails) /\
         payloads_of single_url t = []).
Proof.
  intros allEmails.
  destruct (loop_indices_facts allEmails (length allEmails - 0) 0 eq_refl) as [Hlen Hcat].
  assert (Hn : length (batches allEmails) = ceil_div (length allEmails) BATCH_SIZE).
  { unfold batches. rewrite length_map, Hlen. f_equal. lia. }
  split; [rewrite Hn; symmetry; apply ceil_div_is_ceiling|].
  split; [exact Hn|].
  split; [|split; [exact Hcat|split; [|split]]].
  - unfold batches. apply Forall_forall. intros b Hb.
    apply in_map_iff in Hb. destruct Hb as (i & <- & _).
    pose proof (slice_length _ i (i + BATCH_SIZE) allEmails) as H.
    unfold BATCH_SIZE in *. lia.
  - intros. now apply deliver_from_run_at with (k := (length allEmails - 0)%nat).
  - intros. now apply deliver_from_run_at_sn with (k := (length allEmails - 0)%nat).
  - intros provider key n Hacc.
    destruct (run_at_accepted provider key allEmails Hacc
                (loop_indices (length allEmails) 0) 0 0 n) as (t & Hrun & Hsn & Hb & Hs).
    exists t.
    rewrite (deliver_from_run_at provider key allEmails _ 0 0 0 n eq_refl).
    rewrite (deliver_from_run_at_sn provider key allEmails _ 0 0 0 n eq_refl).
    split; [|split; [exact Hsn|split; [|exact Hs]]].
    + rewrite Hrun. unfold batches. rewrite length_map.
      replace (list_sum (map (fun i => length (slice i (i + BATCH_SIZE) allEmails))
                           (loop_indices (length allEmails) 0)))
        with (length allEmails); [reflexivity|].
      rewrite <- Hcat at 1. cbn [skipn].
      generalize (loop_indices (length allEmails) 0). intros l.
      induction l as [|i l IH]; [reflexivity|].
      cbn [map concat list_sum fold_right]. rewrite length_app, IH. reflexivity.
    + rewrite Hb. unfold batches. now rewrite map_map.
Qed.

Lemma scripted_accepts body : always_accepts (scripted [] body).
Proof.
  intros k. eexists. split; [reflexivity|]. cbn [status]. destruct k; simpl; lia.
Qed.

Lemma batches_partition_witness :
  exists t,
    Part000.deliver_from (scripted [] JNull) (js "key") (sample_messages 120) 0 0 0 0
    = (Ok (120%nat, 0%nat), 3%nat, t) /\
    payloads_of batch_url t
    = [PBatch (slice 0 50 (sample_messages 120)); PBatch (slice 50 100 (sample_messages 120));
       PBatch (slice 100 150 (sample_messages 120))].
Proof.
  destruct (batches_partition (sample_messages 120)) as (_ & _ & _ & _ & _ & _ & H).
  destruct (H (scripted [] JNull) (js "key") 0%nat (scripted_accepts JNull))
    as (t & Hrun & _ & Hb & _).
  exists t. split.
  - rewrite Hrun. vm_compute. reflexivity.
  - rewrite Hb. vm_compute. reflexivity.
Defined.

(** ** Counting: every message is counted once *)


Lemma sendSingle_from_unfold provider key e m a :
  Part000.sendSingle_from provider key e m a =
  if (a <=? m)%Z then
    resp <- fetchJson provider single_url POST (api_headers key) (PSingle e) ;;
    if ((200 <=? status resp) && (status resp <? 300))%Z then
      ret {| success := true; res_status := None; res_data := None |}
    else if ((status resp =? 429) && (a <? m))%Z then
      sleep (a * 2000)%Z ;;
      Part000.sendSingle_from provider key e m (a + 1)%Z
    else
      ret {| success := false; res_status := Some (status resp); res_data := None |}
  else ret {| success := false; res_status := Some 429%Z; res_data := None |}.
Proof.
  rewrite Part000.sendSingle_from_equation_1. unfold inspect.
  generalize (@eq_refl bool (a <=? m)%Z).
  generalize (a <=? m)%Z at 2 4 5. intros [] e0; reflexivity.
Qed.

Section Counting.
Variable provider : nat -> Outcome Json.
Variable key : jsstring.

Lemma log_sent_run batch n :
  exists t, Part000.log_sent batch n = (Ok tt, n, t).
Proof.
  induction batch as [|e batch [t IH]]; simpl.
  - eexists. reflexivity.
  - unfold console_log. rewrite bind_emit, IH. eexists. reflexivity.
Qed.

Lemma log_sent_run_sn batch n :
  exists t, SendNewsletter.log_sent batch n = (Ok tt, n, t).
Proof.
  induction batch as [|e batch [t IH]]; simpl.
  - eexists. reflexivity.
  - unfold console_log. rewrite bind_emit, IH. eexists. reflexivity.
Qed.

Lemma log_failed_run_sn batch n :
  exists t, SendNewsletter.log_failed batch n = (Ok tt, n, t).
Proof.
  induction batch as [|e batch [t IH]]; simpl.
  - eexists. reflexivity.
  - unfold console_error. rewrite bind_emit, IH. eexists. reflexivity.
Qed.

(** sendBatch and sendSingle never exit, and return when the network
    answers. *)
Lemma sendBatch_from_total emails m :
  reliable provider ->
  forall k a n, Z.to_nat (m + 1 - a) = k ->
    exists r n' t, Part000.sendBatch_from provider key emails m a n = (Ok r, n', t).
Proof.
  intros Hrel. induction k as [|k IH]; intros a n Hk;
    rewrite sendBatch_from_unfold;
    destruct (Z.leb_spec a m) as [Hle|Hgt];
    try (do 3 eexists; reflexivity); [lia|].
  destruct (Hrel n) as [r Hr]. rewrite (bind_fetch_reply _ _ _ _ _ _ _ _ _ Hr).
  destruct ((200 <=? status r)%Z && (status r <? 300)%Z); [do 3 eexists; reflexivity|].
  destruct ((status r =? 429)%Z && (a <? m)%Z); [|do 3 eexists; reflexivity].
  unfold console_log, sleep. rewrite !bind_emit.
  destruct (IH (a + 1)%Z (S n) ltac:(lia)) as (r' & n' & t & Hrun). rewrite Hrun.
  do 3 eexists; reflexivity.
Qed.

Lemma sendSingle_from_total e m :
  reliable provider ->
  forall k a n, Z.to_nat (m + 1 - a) = k ->
    exists r n' t, Part000.sendSingle_from provider key e m a n = (Ok r, n', t).
Proof.
  intros Hrel. induction k as [|k IH]; intros a n Hk;
    rewrite sendSingle_from_unfold;
    destruct (Z.leb_spec a m) as [Hle|Hgt];
    try (do 3 eexists; reflexivity); [lia|].
  destruct (Hrel n) as [r Hr]. rewrite (bind_fetch_reply _ _ _ _ _ _ _ _ _ Hr).
  destruct ((200 <=? status r)%Z && (status r <? 300)%Z); [do 3 eexists; reflexivity|].
  destruct ((status r =? 429)%Z && (a <? m)%Z); [|do 3 eexists; reflexivity].
  unfold sleep. rewrite !bind_emit.
  destruct (IH (a + 1)%Z (S n) ltac:(lia)) as (r' & n' & t & Hrun). rewrite Hrun.
  do 3 eexists; reflexivity.
Qed.

Lemma sendBatch_total emails m n :
  reliable provider ->
  exists r n' t, Part000.sendBatch provider key emails m n = (Ok r, n', t).
Proof. intros H. now apply sendBatch_from_total with (k := Z.to_nat (m + 1 - 1)). Qed.

Lemma sendSingle_total e m n :
  reliable provider ->
  exists r n' t, Part000.sendSingle provider key e m n = (Ok r, n', t).
Proof. intros H. now apply sendSingle_from_total with (k := Z.to_nat (m + 1 - 1)). Qed.

(** One step of the fallback loop, once sendSingle has returned. *)
Lemma fallback_step e rest sent failed n r n1 t1 :
  Part000.sendSingle provider key e 3 n = (Ok r, n1, t1) ->
  Part000.fallback provider key (e :: rest) sent failed n =
  (let '(res, n2, t2) :=
     Part000.fallback provider key rest
       (if success r then S sent else sent) (if success r then failed else S failed) n1 in
   (res, n2,
    t1 ++ (if success r
           then EvLog [LStr (js "  Sent to"); LStr (maskEmail (msg_to e))]
           else EvError [LStr (js "  Failed for"); LStr (maskEmail (msg_to e));
                         LStr (js ":"); log_status (res_status r)])
       :: EvSleep 600 :: t2)).
Proof.
  intros Hs. cbn [Part000.fallback]. rewrite bind_run, Hs.
  destruct (success r); unfold console_log, console_error, sleep;
    rewrite bind_assoc, bind_emit, bind_ret, bind_emit; cbn [fst snd];
    destruct (Part000.fallback provider key rest _ _ n1) as [[res n2] t2]; reflexivity.
Qed.

Lemma fallback_counts batch :
  forall sent failed n sent' failed' n' t,
    Part000.fallback provider key batch sent failed n = (Ok (sent', failed'), n', t) ->
    (sent' + failed' = sent + failed + length batch)%nat /\ (sent <= sent')%nat /\
    (failed <= failed')%nat.
Proof.
  induction batch as [|e batch IH]; intros sent failed n sent' failed' n' t Hrun.
  - cbn in Hrun. injection Hrun as <- <- _ _. simpl. lia.
  - destruct (Part000.sendSingle provider key e 3 n) as [[[r|err|c] n1] t1] eqn:Hs;
      try (cbn [Part000.fallback] in Hrun; rewrite bind_run, Hs in Hrun; discriminate).
    rewrite (fallback_step _ _ _ _ _ _ _ _ Hs) in Hrun.
    destruct (Part000.fallback provider key batch _ _ n1) as [[res n2] t2] eqn:Hf.
    injection Hrun as -> _ _. apply IH in Hf. simpl. destruct (success r); lia.
Qed.

Lemma fallback_total batch :
  reliable provider ->
  forall sent failed n,
    exists sent' failed' n' t,
      Part000.fallback provider key batch sent failed n = (Ok (sent', failed'), n', t).
Proof.
  intros Hrel. induction batch as [|e batch IH]; intros sent failed n.
  - do 4 eexists. reflexivity.
  - destruct (sendSingle_total e 3 n Hrel) as (r & n1 & t1 & Hs).
    rewrite (fallback_step _ _ _ _ _ _ _ _ Hs).
    destruct (IH (if success r then S sent else sent)
                 (if success r then failed else S failed) n1)
      as (s' & f' & n' & t & Hf).
    rewrite Hf. do 4 eexists. reflexivity.
Qed.

End Counting.

Lemma bind_Ok_inv (A B : Type) (m : M A) (k : A -> M B) n b n' t :
  bind m k n = (Ok b, n', t) ->
  exists a n1 t1 t2, m n = (Ok a, n1, t1) /\ k a n1 = (Ok b, n', t2) /\ t = t1 ++ t2.
Proof.
  unfold bind. destruct (m n) as [[[a|e|c] n1] t1]; try discriminate.
  destruct (k a n1) as [[r n2] t2] eqn:Hk. intros H. injection H as -> -> <-.
  exists a, n1, t1, t2. auto.
Qed.

Lemma bind_Ok_intro (A B : Type) (m : M A) (k : A -> M B) n a n1 t1 b n2 t2 :
  m n = (Ok a, n1, t1) -> k a n1 = (Ok b, n2, t2) ->
  bind m k n = (Ok b, n2, t1 ++ t2).
Proof. intros Hm Hk. unfold bind. now rewrite Hm, Hk. Qed.

Section LoopCounting.
Variable provider : nat -> Outcome Json.
Variable key : jsstring.

Lemma loop_body_counts allEmails i sent failed n sent' failed' n' t :
  Part000.loop_body provider key allEmails i sent failed n = (Ok (sent', failed'), n', t) ->
  (sent' + failed' = sent + failed + length (slice i (i + BATCH_SIZE) allEmails))%nat /\
  (sent <= sent')%nat /\ (failed <= failed')%nat.
Proof.
  unfold Part000.loop_body. intros H.
  apply bind_Ok_inv in H. destruct H as (_ & n0 & t0 & t1 & _ & H & _).
  apply bind_Ok_inv in H. destruct H as (r & n1 & t2 & t3 & _ & H & _).
  apply bind_Ok_inv in H. destruct H as (counts & n2 & t4 & t5 & Hc & H & _).
  apply bind_Ok_inv in H. destruct H as (_ & n3 & t6 & t7 & _ & H & _).
  injection H as -> _ _.
  destruct (success r).
  - apply bind_Ok_inv in Hc. destruct Hc as (_ & n4 & t8 & t9 & _ & Hc & _).
    injection Hc as <- <- _ _. lia.
  - apply bind_Ok_inv in Hc. destruct Hc as (_ & n4 & t8 & t9 & _ & Hc & _).
    apply fallback_counts in Hc. lia.
Qed.

Lemma loop_body_counts_sn allEmails i sent failed n sent' failed' n' t :
  SendNewsletter.loop_body provider key allEmails i sent failed n
  = (Ok (sent', failed'), n', t) ->
  (sent' + failed' = sent + failed + length (slice i (i + BATCH_SIZE) allEmails))%nat /\
  (sent <= sent')%nat /\ (failed <= failed')%nat.
Proof.
  unfold SendNewsletter.loop_body. intros H.
  apply bind_Ok_inv in H. destruct H as (_ & n0 & t0 & t1 & _ & H & _).
  apply bind_Ok_inv in H. destruct H as (r & n1 & t2 & t3 & _ & H & _).
  apply bind_Ok_inv in H. destruct H as (counts & n2 & t4 & t5 & Hc & H & _).
  apply bind_Ok_inv in H. destruct H as (_ & n3 & t6 & t7 & _ & H & _).
  injection H as -> _ _.
  destruct (success r).
  - apply bind_Ok_inv in Hc. destruct Hc as (_ & n4 & t8 & t9 & _ & Hc & _).
    injection Hc as <- <- _ _. lia.
  - apply bind_Ok_inv in Hc. destruct Hc as (_ & n4 & t8 & t9 & _ & Hc & _).
    apply bind_Ok_inv in Hc. destruct Hc as (_ & n5 & t10 & t11 & _ & Hc & _).
    injection Hc as <- <- _ _. lia.
Qed.

Lemma loop_body_total allEmails i sent failed n :
  reliable provider ->
  exists sent' failed' n' t,
    Part000.loop_body provider key allEmails i sent failed n = (Ok (sent', failed'), n', t).
Proof.
  intros Hrel. unfold Part000.loop_body.
  set (batch := slice i (i + BATCH_SIZE) allEmails).
  destruct (sendBatch_total provider key batch 3 n Hrel) as (r & n1 & t1 & Hb).
  assert (Hc : exists counts n2 t2,
             (if success r
              then Part000.log_sent batch ;; ret ((sent + length batch)%nat, failed)
              else console_log [LCat [LStr (js "  Batch failed ("); log_status (res_status r);
                                      LStr (js "), falling back to individual sends...")]] ;;
                   Part000.fallback provider key batch sent failed) n1
             = (Ok counts, n2, t2)).
  { destruct (success r).
    - destruct (log_sent_run batch n1) as [t2 Hl].
      do 3 eexists. eapply bind_Ok_intro; [exact Hl|reflexivity].
    - destruct (fallback_total provider key batch Hrel sent failed n1)
        as (s' & f' & n2 & t2 & Hf).
      do 3 eexists. eapply bind_Ok_intro; [reflexivity|exact Hf]. }
  destruct Hc as ([s' f'] & n2 & t2 & Hc).
  pose proof (pause_between_batches allEmails i n2) as Hs.
  exists s', f'. do 2 eexists.
  eapply bind_Ok_intro; [reflexivity|].
  eapply bind_Ok_intro; [exact Hb|].
  eapply bind_Ok_intro; [exact Hc|].
  eapply bind_Ok_intro; [exact Hs|reflexivity].
Qed.

Lemma loop_body_total_sn allEmails i sent failed n :
  reliable provider ->
  exists sent' failed' n' t,
    SendNewsletter.loop_body provider key allEmails i sent failed n
    = (Ok (sent', failed'), n', t).
Proof.
  intros Hrel. unfold SendNewsletter.loop_body.
  set (batch := slice i (i + BATCH_SIZE) allEmails).
  destruct (sendBatch_total provider key batch 3 n Hrel) as (r & n1 & t1 & Hb).
  rewrite <- sendBatch_same_run in Hb.
  pose proof (pause_between_batches allEmails i n1) as Hs.
  destruct (success r) eqn:Hsucc.
  - destruct (log_sent_run_sn batch n1) as [t2 Hl].
    do 4 eexists.
    eapply bind_Ok_intro; [reflexivity|].
    eapply bind_Ok_intro; [exact Hb|]. rewrite Hsucc.
    eapply bind_Ok_intro; [eapply bind_Ok_intro; [exact Hl|reflexivity]|].
    eapply bind_Ok_intro; [exact Hs|reflexivity].
  - destruct (log_failed_run_sn batch n1) as [t2 Hl].
    do 4 eexists.
    eapply bind_Ok_intro; [reflexivity|].
    eapply bind_Ok_intro; [exact Hb|]. rewrite Hsucc.
    eapply bind_Ok_intro;
      [eapply bind_Ok_intro; [reflexivity|eapply bind_Ok_intro; [exact Hl|reflexivity]]|].
    eapply bind_Ok_intro; [exact Hs|reflexivity].
Qed.

(** The counts after the body has run at a list of indices. *)
Lemma run_at_counts (body : nat -> nat -> nat -> M (nat * nat)) (size : nat -> nat) :
  (forall i s f n s' f' n' t,
     body i s f n = (Ok (s', f'), n', t) -> (s' + f' = s + f + size i)%nat) ->
  forall indices sent failed n sent' failed' n' t,
    run_at body indices sent failed n = (Ok (sent', failed'), n', t) ->
    (sent' + failed' = sent + failed + list_sum (map size indices))%nat.
Proof.
  intros Hbody. induction indices as [|i indices IH];
    intros sent failed n sent' failed' n' t Hrun.
  - injection Hrun as <- <- _ _. simpl. lia.
  - cbn [run_at] in Hrun. apply bind_Ok_inv in Hrun.
    destruct Hrun as ([s1 f1] & n1 & t1 & t2 & Hb & Hrest & _).
    apply Hbody in Hb. apply IH in Hrest. cbn [fst snd] in Hrest. simpl. lia.
Qed.

Lemma run_at_total (body : nat -> nat -> nat -> M (nat * nat)) :
  (forall i s f n, exists s' f' n' t, body i s f n = (Ok (s', f'), n', t)) ->
  forall indices sent failed n,
    exists sent' failed' n' t,
      run_at body indices sent failed n = (Ok (sent', failed'), n', t).
Proof.
  intros Hbody. induction indices as [|i indices IH]; intros sent failed n.
  - do 4 eexists. reflexivity.
  - destruct (Hbody i sent failed n) as (s1 & f1 & n1 & t1 & Hb).
    destruct (IH s1 f1 n1) as (s2 & f2 & n2 & t2 & Hr).
    exists s2, f2. do 2 eexists. cbn [run_at].
    eapply bind_Ok_intro; [exact Hb|exact Hr].
Qed.

End LoopCounting.

Lemma batch_sizes_sum (allEmails : list EmailMessage) :
  list_sum (map (fun i => length (slice i (i + BATCH_SIZE) allEmails))
              (loop_indices (length allEmails) 0))
  = length allEmails.
Proof.
  destruct (loop_indices_facts allEmails (length allEmails - 0) 0 eq_refl) as [_ Hcat].
  cbn [skipn] in Hcat. rewrite <- Hcat at 2. revert Hcat.
  generalize (loop_indices (length allEmails) 0). intros l _.
  induction l as [|i l IH]; simpl; [reflexivity|].
  rewrite length_app, IH. reflexivity.
Qed.

Lemma scripted_reliable statuses body : reliable (scripted statuses body).
Proof. intros k. eexists. reflexivity. Qed.

(** C9.  In either script, when the batch loop over [allEmails] ends, [sent
    + failed] is the number of messages; and the loop does end whenever the
    network answers every request (it cannot exit, and throws only on a
    network error).  Batch by batch: the body of the loop never lowers a
    counter and raises the two together by the size of its batch. *)
Theorem sent_plus_failed_is_total :
  forall (provider : nat -> Outcome Json) (key : jsstring)
         (allEmails : list EmailMessage) (n : nat),
    (forall sent failed n' t,
       Part000.deliver_from provider key allEmails 0 0 0 n = (Ok (sent, failed), n', t) ->
       (sent + failed = length allEmails)%nat) /\
    (forall sent failed n' t,
       SendNewsletter.deliver_from provider key allEmails 0 0 0 n
       = (Ok (sent, failed), n', t) ->
       (sent + failed = length allEmails)%nat) /\
    (reliable provider ->
     exists sent failed n' t,
       Part000.deliver_from provider key allEmails 0 0 0 n = (Ok (sent, failed), n', t) /\
       (sent + failed = length allEmails)%nat) /\
    (reliable provider ->
     exists sent failed n' t,
       SendNewsletter.deliver_from provider key allEmails 0 0 0 n
       = (Ok (sent, failed), n', t) /\
       (sent + failed = length allEmails)%nat) /\
    (forall i sent failed m sent' failed' m' t,
       Part000.loop_body provider key allEmails i sent failed m
       = (Ok (sent', failed'), m', t) ->
       (sent' + failed' = sent + failed + length (slice i (i + BATCH_SIZE) allEmails))%nat /\
       (sent <= sent')%nat /\ (failed <= failed')%nat) /\
    (forall i sent failed m sent' failed' m' t,
       SendNewsletter.loop_body provider key allEmails i sent failed m
       = (Ok (sent', failed'), m', t) ->
       (sent' + failed' = sent + failed + length (slice i (i + BATCH_SIZE) allEmails))%nat /\
       (sent <= sent')%nat /\ (failed <= failed')%nat).
Proof.
  intros provider key allEmails n.
  assert (H1 : forall sent failed n' t,
             Part000.deliver_from provider key allEmails 0 0 0 n = (Ok (sent, failed), n', t) ->
             (sent + failed = length allEmails)%nat).
  { intros sent failed n' t Hrun.
    rewrite (deliver_from_run_at provider key allEmails _ 0 0 0 n eq_refl) in Hrun.
    apply (run_at_counts _ (fun i => length (slice i (i + BATCH_SIZE) allEmails))) in Hrun.
    - rewrite batch_sizes_sum in Hrun. lia.
    - intros. eapply proj1, loop_body_counts; eassumption. }
  assert (H2 : forall sent failed n' t,
             SendNewsletter.deliver_from provider key allEmails 0 0 0 n
             = (Ok (sent, failed), n', t) ->
             (sent + failed = length allEmails)%nat).
  { intros sent failed n' t Hrun.
    rewrite (deliver_from_run_at_sn provider key allEmails _ 0 0 0 n eq_refl) in Hrun.
    apply (run_at_counts _ (fun i => length (slice i (i + BATCH_SIZE) allEmails))) in Hrun.
    - rewrite batch_sizes_sum in Hrun. lia.
    - intros. eapply proj1, loop_body_counts_sn; eassumption. }
  split; [exact H1|]. split; [exact H2|].
  split; [|split; [|split; [apply loop_body_counts|apply loop_body_counts_sn]]].
  - intros Hrel.
    destruct (run_at_total (Part000.loop_body provider key allEmails)
                (fun i s f m => loop_body_total provider key allEmails i s f m Hrel)
                (loop_indices (length allEmails) 0) 0 0 n) as (s & f & n' & t & Hrun).
    rewrite <- (deliver_from_run_at provider key allEmails _ 0 0 0 n eq_refl) in Hrun.
    exists s, f, n', t. split; [exact Hrun|]. eapply H1; eassumption.
  - intros Hrel.
    destruct (run_at_total (SendNewsletter.loop_body provider key allEmails)
                (fun i s f m => loop_body_total_sn provider key allEmails i s f m Hrel)
                (loop_indices (length allEmails) 0) 0 0 n) as (s & f & n' & t & Hrun).
    rewrite <- (deliver_from_run_at_sn provider key allEmails _ 0 0 0 n eq_refl) in Hrun.
    exists s, f, n', t. split; [exact Hrun|]. eapply H2; eassumption.
Qed.

Lemma sent_plus_failed_is_total_witness :
  exists sent failed n' t,
    Part000.deliver_from (scripted [200; 500; 200; 429; 500]%Z JNull) (js "key")
      (sample_messages 120) 0 0 0 0 = (Ok (sent, failed), n', t) /\
    (sent + failed = 120)%nat.
Proof.
  destruct (sent_plus_failed_is_total (scripted [200; 500; 200; 429; 500]%Z JNull)
              (js "key") (sample_messages 120) 0) as (_ & _ & H & _).
  destruct (H (scripted_reliable _ _)) as (sent & failed & n' & t & Hrun & Hsum).
  exists sent, failed, n', t. split; [exact Hrun|].
  rewrite Hsum. unfold sample_messages. rewrite length_map, length_seq. reflexivity.
Defined.

(** ** Fallback to per-message delivery *)

Lemma per_message_delivery_counts provider key batch n results n' t :
  per_message_delivery provider key batch n results n' t ->
  length results = length batch /\
  (count_sent results + count_failed results = length batch)%nat.
Proof.
  unfold count_sent, count_failed.
  induction 1 as [|e rest n r n1 t1 results n2 t2 Hs _ [IH1 IH2]]; [split; reflexivity|].
  cbn [length filter]. destruct (success r); cbn [negb length]; lia.
Qed.

Lemma fallback_delivery provider key :
  reliable provider ->
  forall batch sent failed n,
    exists results n2 t2,
      per_message_delivery provider key batch n results n2 t2 /\
      Part000.fallback provider key batch sent failed n
      = (Ok ((sent + count_sent results)%nat, (failed + count_failed results)%nat), n2, t2).
Proof.
  intros Hrel. induction batch as [|e batch IH]; intros sent failed n.
  - exists [], n, []. split; [constructor|].
    unfold count_sent, count_failed. cbn. now rewrite !Nat.add_0_r.
  - destruct (sendSingle_total provider key e 3 n Hrel) as (r & n1 & t1 & Hs).
    destruct (IH (if success r then S sent else sent)
                 (if success r then failed else S failed) n1)
      as (results & n2 & t2 & Hd & Hf).
    exists (r :: results), n2, (t1 ++ outcome_line e r :: EvSleep 600 :: t2).
    split; [econstructor; eassumption|].
    rewrite (fallback_step _ _ _ _ _ _ _ _ _ _ Hs), Hf.
    unfold outcome_line, count_sent, count_failed. cbn [filter].
    destruct (success r); cbn [negb length]; rewrite ?Nat.add_succ_r; reflexivity.
Qed.

Lemma part000_falls_back : falls_back_on_failure Part000.loop_body.
Proof.
  intros provider key allEmails i sent failed n r n1 t1 Hrel Hb Hfail.
  destruct (fallback_delivery provider key Hrel (slice i (i + BATCH_SIZE) allEmails)
              sent failed n1) as (results & n2 & t2 & Hd & Hf).
  exists results, n2, t2,
    (EvLog [LCat [LStr (js "  Batch failed ("); log_status (res_status r);
                  LStr (js "), falling back to individual sends...")]]).
  split; [exact Hd|]. split; [exact I|].
  unfold Part000.loop_body, console_log. rewrite bind_emit.
  rewrite (bind_ok _ _ _ _ _ _ _ _ Hb), Hfail.
  rewrite bind_assoc, bind_emit.
  rewrite (bind_ok _ _ _ _ _ _ _ _ Hf).
  rewrite (bind_ok _ _ _ _ _ _ _ _ (pause_between_batches allEmails i n2)).
  unfold ret, sending_line. cbn [app]. rewrite app_nil_r. reflexivity.
Qed.


Lemma log_failed_trace batch n :
  SendNewsletter.log_failed batch n = (Ok tt, n, map failed_for_line batch).
Proof.
  induction batch as [|e batch IH]; [reflexivity|].
  cbn [SendNewsletter.log_failed map]. unfold console_error. now rewrite bind_emit, IH.
Qed.

Lemma send_newsletter_no_fallback provider key allEmails i sent failed n r n1 t1 :
  SendNewsletter.sendBatch provider key (slice i (i + BATCH_SIZE) allEmails) 3 n
  = (Ok r, n1, t1) ->
  success r = false ->
  SendNewsletter.loop_body provider key allEmails i sent failed n
  = (Ok (sent, (failed + length (slice i (i + BATCH_SIZE) allEmails))%nat), n1,
     sending_line allEmails i :: t1
     ++ EvError [LStr (js "  Batch failed:"); log_status (res_status r);
                 log_data (res_data r)]
     :: map failed_for_line (slice i (i + BATCH_SIZE) allEmails)
     ++ batch_pause allEmails i).
Proof.
  intros Hb Hfail.
  unfold SendNewsletter.loop_body, console_log. rewrite bind_emit.
  rewrite (bind_ok _ _ _ _ _ _ _ _ Hb), Hfail.
  unfold console_error. rewrite bind_assoc, bind_emit, bind_assoc.
  rewrite (bind_ok _ _ _ _ _ _ _ _ (log_failed_trace _ n1)), bind_ret.
  rewrite (bind_ok _ _ _ _ _ _ _ _ (pause_between_batches allEmails i n1)).
  unfold ret, sending_line. cbn [app]. rewrite app_nil_r. reflexivity.
Qed.

(** C1 (as amended).  In the script with the fallback (unnamed/part_000),
    when sendBatch fails on a batch and the network answers every request,
    the loop goes on with per-message delivery of that batch: for each of
    its messages in turn exactly one sendSingle call, the console line of
    its result, then a pause of 600 ms whatever the result; each success
    adds one to [sent] and each failure one to [failed], the two numbers
    adding up to the size of the batch; the counts of the earlier batches
    are kept, and the loop is its body run at each index in turn, so the
    other batches are handled as usual.  The script without the fallback
    (send-newsletter.js) makes no individual send: a failed batch adds its
    size to [failed] and logs every recipient as failed. *)
Theorem fallback_on_batch_failure :
  falls_back_on_failure Part000.loop_body /\
  (forall provider key batch n results n' t,
     per_message_delivery provider key batch n results n' t ->
     length results = length batch /\
     (count_sent results + count_failed results = length batch)%nat) /\
  (forall provider key allEmails sent failed n,
     Part000.deliver_from provider key allEmails 0 sent failed n
     = run_at (Part000.loop_body provider key allEmails)
         (loop_indices (length allEmails) 0) sent failed n) /\
  (forall provider key allEmails i sent failed n r n1 t1,
     SendNewsletter.sendBatch provider key (slice i (i + BATCH_SIZE) allEmails) 3 n
     = (Ok r, n1, t1) ->
     success r = false ->
     SendNewsletter.loop_body provider key allEmails i sent failed n
     = (Ok (sent, (failed + length (slice i (i + BATCH_SIZE) allEmails))%nat), n1,
        sending_line allEmails i :: t1
        ++ EvError [LStr (js "  Batch failed:"); log_status (res_status r);
                    log_data (res_data r)]
        :: map failed_for_line (slice i (i + BATCH_SIZE) allEmails)
        ++ batch_pause allEmails i)).
Proof.
  split; [exact part000_falls_back|].
  split; [exact per_message_delivery_counts|].
  split; [|exact send_newsletter_no_fallback].
  intros. now apply deliver_from_run_at with (k := (length allEmails - 0)%nat).
Qed.

(** The scenario of 120 messages: the provider answers 200 to the first
    batch, 500 to the second, and 200 to everything after. *)
Lemma fallback_on_batch_failure_witness :
  let provider := scripted [200; 500]%Z JNull in
  let allEmails := sample_messages 120 in
  (exists results n2 t2 line,
     per_message_delivery provider (js "key") (slice 50 100 allEmails) 2 results n2 t2 /\
     length results = 50%nat /\
     Part000.loop_body provider (js "key") allEmails 50 50 0 1
     = (Ok ((50 + count_sent results)%nat, (0 + count_failed results)%nat), n2,
        sending_line allEmails 50
        :: [batch_request (js "key") (slice 50 100 allEmails)]
        ++ line :: t2 ++ [EvSleep 1000])) /\
  (let '(res, n, t) := Part000.deliver_from provider (js "key") allEmails 0 0 0 0 in
   res = Ok (120%nat, 0%nat) /\
   payloads_of batch_url t = map PBatch (batches allEmails) /\
   map (@length _) (batches allEmails) = [50; 50; 20]%nat /\
   payloads_of single_url t = map PSingle (slice 50 100 allEmails) /\
   sleeps_of t = ([1000] ++ repeat 600 50 ++ [1000])%Z).
Proof.
  cbv zeta. split.
  - destruct fallback_on_batch_failure as (Hfb & Hcount & _).
    destruct (Hfb (scripted [200; 500]%Z JNull) (js "key") (sample_messages 120)
                50%nat 50%nat 0%nat 1%nat
                {| success := false; res_status := Some 500%Z; res_data := Some JNull |}
                2%nat
                [batch_request (js "key") (slice 50 100 (sample_messages 120))])
      as (results & n2 & t2 & line & Hd & _ & Hrun).
    + apply scripted_reliable.
    + vm_compute. reflexivity.
    + reflexivity.
    + exists results, n2, t2, line. split; [exact Hd|].
      split; [apply Hcount in Hd; destruct Hd as [-> _]; vm_compute; reflexivity|].
      exact Hrun.
  - vm_compute. repeat split; reflexivity.
Defined.

(** C1 (as stated, refuted).  In send-newsletter.js a failed batch is not
    followed by individual sends: with one message and the answer 500 the
    body makes the batch request only and counts the message as failed. *)
Lemma fallback_missing_counterexample :
  let provider := scripted [500]%Z JNull in
  let allEmails := sample_messages 1 in
  SendNewsletter.sendBatch provider (js "key") (slice 0 50 allEmails) 3 0
  = (Ok {| success := false; res_status := Some 500%Z; res_data := Some JNull |}, 1%nat,
     [batch_request (js "key") allEmails]) /\
  (let '(res, n, t) := SendNewsletter.loop_body provider (js "key") allEmails 0 0 0 0 in
   res = Ok (0%nat, 1%nat) /\ n = 1%nat /\
   payloads_of single_url t = [] /\ sleeps_of t = []) /\
  ~ falls_back_on_failure SendNewsletter.loop_body.
Proof.
  cbv zeta. split; [vm_compute; reflexivity|]. split; [vm_compute; repeat split|].
  intros H.
  destruct (H (scripted [500]%Z JNull) (js "key") (sample_messages 1) 0%nat 0%nat 0%nat 0%nat
              {| success := false; res_status := Some 500%Z; res_data := Some JNull |}
              1%nat [batch_request (js "key") (sample_messages 1)])
    as (results & n2 & t2 & line & Hd & _ & Hrun).
  - apply scripted_reliable.
  - vm_compute. reflexivity.
  - reflexivity.
  - assert (Hres : fst (fst (SendNewsletter.loop_body (scripted [500]%Z JNull) (js "key")
                               (sample_messages 1) 0 0 0 0)) = Ok (0%nat, 1%nat))
      by (vm_compute; reflexivity).
    rewrite Hrun in Hres. cbn [fst] in Hres. injection Hres as Hs Hf.
    remember (slice 0 (0 + BATCH_SIZE) (sample_messages 1)) as batch eqn:Hbatch.
    vm_compute in Hbatch. subst batch.
    inversion Hd as [|e rest n r n1' t1' results' n2' t2' Hsingle Hrest]; subst.
    vm_compute in Hsingle. injection Hsingle as <- _ _.
    unfold count_sent in Hs. cbn in Hs. discriminate Hs.
Qed.

(** ** The exit status *)

Lemma bind_emit_prefix (B : Type) (ev : Event) (k : unit -> M B) n :
  bind (emit ev) k n = with_prefix [ev] (k tt n).
Proof. unfold bind, emit, with_prefix. destruct (k tt n) as [[r n2] t2]. reflexivity. Qed.

Lemma bind_ok_prefix (A B : Type) (m : M A) (k : A -> M B) n a n1 t1 :
  m n = (Ok a, n1, t1) -> bind m k n = with_prefix t1 (k a n1).
Proof. intros H. unfold bind, with_prefix. rewrite H. reflexivity. Qed.

Lemma with_prefix_twice (A : Type) p q (x : Res A * nat * list Event) :
  with_prefix p (with_prefix q x) = with_prefix (p ++ q) x.
Proof. destruct x as [[r n] t]. unfold with_prefix. now rewrite app_assoc. Qed.

Lemma bind_directory_reply (B : Type) directory url method headers
    (k : Response (list Subscriber) -> M B) n r :
  directory = Reply r ->
  bind (fetchJson_directory directory url method headers) k n =
  with_prefix [EvRequest url method headers None] (k r n).
Proof.
  intros ->. unfold bind, fetchJson_directory, with_prefix.
  destruct (k r n) as [[res n2] t2]. reflexivity.
Qed.

Lemma optional_line_run (b : bool) (args : list LogItem) n :
  (if b then console_log args else ret tt) n = (Ok tt, n, if b then [EvLog args] else []).
Proof. destruct b; reflexivity. Qed.

(** main of part_000 once the directory has answered 200 with some valid
    subscriber and the payloads are built: what follows is the delivery
    loop, the summary line, and the exit. *)
Lemma main_delivery directory provider hmac key url secret from subject template
    subs allEmails :
  directory = Reply {| status := 200; data := subs |} ->
  valid_subscribers subs <> [] ->
  map_opt (fun sub => Part000.buildEmailPayload hmac secret from subject template sub
                        (strip_trailing_slash url)) (valid_subscribers subs)
  = Some allEmails ->
  exists pre,
    Part000.main directory provider hmac key url secret from subject template 0
    = with_prefix pre
        match Part000.deliver_from provider key allEmails 0 0 0 0 with
        | (Ok (sent, failed), n, t) =>
            (if (0 <? failed)%nat then Exit 1%Z else Ok tt, n,
             t ++ [EvLog [LStr (js "Done:"); lnat sent; LStr (js "sent,");
                          lnat failed; LStr (js "failed, out of");
                          lnat (length (valid_subscribers subs))]])
        | (Throw e, n, t) => (Throw e, n, t)
        | (Exit c, n, t) => (Exit c, n, t)
        end.
Proof.
  intros Hdir Hvalid Hbuild. unfold Part000.main. cbv zeta.
  unfold console_log at 1. rewrite bind_emit_prefix.
  rewrite (bind_directory_reply _ _ _ _ _ _ _ _ Hdir). cbn [status data].
  change (negb (200 =? 200)%Z) with false. cbv iota.
  unfold console_log at 1. rewrite bind_emit_prefix.
  fold (valid_subscribers subs).
  rewrite (bind_ok_prefix _ _ _ _ _ _ _ _ (optional_line_run _ _ 0)).
  rewrite !with_prefix_twice. eexists. f_equal.
  destruct (Nat.eqb_spec (length (valid_subscribers subs)) 0) as [Hz|_].
  { destruct (valid_subscribers subs); [congruence|discriminate]. }
  rewrite Hbuild. unfold lift_uri. rewrite bind_ret, bind_run.
  destruct (Part000.deliver_from provider key allEmails 0 0 0 0) as [[[[s f]|e|c] n] t];
    try reflexivity.
  unfold console_log. rewrite bind_emit. cbn [fst snd].
  destruct (0 <? f)%nat; reflexivity.
Qed.

Lemma exit_status_with_prefix (A : Type) pre (x : Res A * nat * list Event) :
  fst (fst (with_prefix pre x)) = fst (fst x).
Proof. destruct x as [[r n] t]. reflexivity. Qed.

Lemma catch_run (A : Type) (m : M A) n :
  fst (fst (catch m (fun err => console_error [LErr err] ;; process_exit 1) n))
  = match fst (fst (m n)) with
    | Throw _ => Exit 1%Z
    | other => other
    end.
Proof.
  unfold catch. destruct (m n) as [[[a|e|c] n1] t1]; reflexivity.
Qed.

(** The result of part_000 from the result of its delivery loop. *)
Lemma script_delivery env fs directory provider hmac allEmails :
  reaches_delivery env fs directory hmac allEmails ->
  fst (fst (Part000.script env fs directory provider hmac 0))
  = match Part000.deliver_from provider (env_string (env_RESEND_API_KEY env))
            allEmails 0 0 0 0 with
    | (Ok (sent, failed), _, _) => if (0 <? failed)%nat then Exit 1%Z else Ok tt
    | (Throw e, _, _) => Exit 1%Z
    | (Exit c, _, _) => Exit c
    end.
Proof.
  intros (Hcfg & template & subs & Hfs & Hdir & Hvalid & Hbuild).
  unfold Part000.script. unfold config_present in Hcfg. rewrite Hcfg. cbv zeta.
  rewrite Hfs, catch_run.
  destruct (main_delivery directory provider hmac (env_string (env_RESEND_API_KEY env))
              (env_string (env_WORKER_URL env)) (env_string (env_WORKER_SECRET env))
              (or_default (env_RESEND_FROM env) default_from)
              (subject_prefix ++ env_string (env_EPISODE_DATE env))
              template subs allEmails Hdir Hvalid Hbuild) as [pre Hmain].
  rewrite Hmain, exit_status_with_prefix.
  destruct (Part000.deliver_from provider (env_string (env_RESEND_API_KEY env))
              allEmails 0 0 0 0) as [[[[s f]|e|c] n] t]; cbn [fst]; try reflexivity.
  destruct (0 <? f)%nat; reflexivity.
Qed.


Lemma bind_returns_or_throws (A B : Type) (m : M A) (k : A -> M B) n :
  returns_or_throws (m n) -> (forall a n1, returns_or_throws (k a n1)) ->
  returns_or_throws (bind m k n).
Proof.
  unfold returns_or_throws, bind. intros Hm Hk.
  destruct (m n) as [[[a|e|c] n1] t1]; cbn [fst] in *; auto.
  specialize (Hk a n1). destruct (k a n1) as [[r n2] t2]. exact Hk.
Qed.

Lemma fetchJson_returns_or_throws provider url method headers body n :
  returns_or_throws (fetchJson provider url method headers body n).
Proof. unfold returns_or_throws, fetchJson. destruct (provider n); exact I. Qed.

Lemma sendBatch_from_returns_or_throws provider key emails m :
  forall k a n, Z.to_nat (m + 1 - a) = k ->
    returns_or_throws (Part000.sendBatch_from provider key emails m a n).
Proof.
  induction k as [|k IH]; intros a n Hk; rewrite sendBatch_from_unfold;
    destruct (Z.leb_spec a m) as [Hle|Hgt]; try exact I; [lia|].
  apply bind_returns_or_throws; [apply fetchJson_returns_or_throws|].
  intros resp n1.
  destruct ((200 <=? status resp)%Z && (status resp <? 300)%Z); [exact I|].
  destruct ((status resp =? 429)%Z && (a <? m)%Z); [|exact I].
  apply bind_returns_or_throws; [exact I|]. intros _ n2.
  apply bind_returns_or_throws; [exact I|]. intros _ n3.
  apply IH. lia.
Qed.

Lemma sendSingle_from_returns_or_throws provider key e m :
  forall k a n, Z.to_nat (m + 1 - a) = k ->
    returns_or_throws (Part000.sendSingle_from provider key e m a n).
Proof.
  induction k as [|k IH]; intros a n Hk; rewrite sendSingle_from_unfold;
    destruct (Z.leb_spec a m) as [Hle|Hgt]; try exact I; [lia|].
  apply bind_returns_or_throws; [apply fetchJson_returns_or_throws|].
  intros resp n1.
  destruct ((200 <=? status resp)%Z && (status resp <? 300)%Z); [exact I|].
  destruct ((status resp =? 429)%Z && (a <? m)%Z); [|exact I].
  apply bind_returns_or_throws; [exact I|]. intros _ n2.
  apply IH. lia.
Qed.

Lemma fallback_returns_or_throws provider key batch :
  forall sent failed n,
    returns_or_throws (Part000.fallback provider key batch sent failed n).
Proof.
  induction batch as [|e batch IH]; intros sent failed n; [exact I|].
  cbn [Part000.fallback].
  apply bind_returns_or_throws.
  { now apply sendSingle_from_returns_or_throws with (k := Z.to_nat (3 + 1 - 1)). }
  intros r n1. apply bind_returns_or_throws.
  { destruct (success r); (apply bind_returns_or_throws; [exact I|intros; exact I]). }
  intros counts n2. apply bind_returns_or_throws; [exact I|]. intros _ n3. apply IH.
Qed.

Lemma loop_body_returns_or_throws provider key allEmails i sent failed n :
  returns_or_throws (Part000.loop_body provider key allEmails i sent failed n).
Proof.
  unfold Part000.loop_body.
  apply bind_returns_or_throws; [exact I|]. intros _ n0.
  apply bind_returns_or_throws.
  { now apply sendBatch_from_returns_or_throws with (k := Z.to_nat (3 + 1 - 1)). }
  intros r n1. apply bind_returns_or_throws.
  { destruct (success r).
    - apply bind_returns_or_throws; [|intros; exact I].
      destruct (log_sent_run (slice i (i + BATCH_SIZE) allEmails) n1) as [t Ht].
      unfold returns_or_throws. rewrite Ht. exact I.
    - apply bind_returns_or_throws; [exact I|]. intros. apply fallback_returns_or_throws. }
  intros counts n2. apply bind_returns_or_throws; [|intros; exact I].
  destruct (i + BATCH_SIZE <? length allEmails)%nat; exact I.
Qed.

Lemma deliver_from_returns_or_throws provider key allEmails sent failed n :
  returns_or_throws (Part000.deliver_from provider key allEmails 0 sent failed n).
Proof.
  rewrite (deliver_from_run_at provider key allEmails _ 0 sent failed n eq_refl).
  generalize (loop_indices (length allEmails) 0). intros indices.
  revert sent failed n. induction indices as [|i indices IH]; intros sent failed n;
    [exact I|].
  cbn [run_at]. apply bind_returns_or_throws; [apply loop_body_returns_or_throws|].
  intros counts n1. apply IH.
Qed.

(** C5 (as amended).  A run of part_000 that reaches the delivery phase
    ends with status 1 when the delivery loop ends with [failed > 0] and
    with status 0 when it ends with [failed = 0]; the loop ends whenever the
    network answers every request; when a request of the loop fails with a
    network error instead, the run ends with status 1 whatever the counts.
    A run whose configuration is incomplete ends with status 0 after one
    console line, and a run with no valid subscriber ends with status 0
    without any request to the provider. *)
Theorem exit_status_rule :
  (forall env fs directory provider hmac allEmails,
     reaches_delivery env fs directory hmac allEmails ->
     let code := exit_status (fst (fst (Part000.script env fs directory provider hmac 0))) in
     let loop := Part000.deliver_from provider (env_string (env_RESEND_API_KEY env))
                   allEmails 0 0 0 0 in
     (forall sent failed n t,
        loop = (Ok (sent, failed), n, t) ->
        code = (if (0 <? failed)%nat then 1 else 0)%Z /\
        (code <> 0%Z <-> (0 < failed)%nat)) /\
     (forall e n t, loop = (Throw e, n, t) -> code = 1%Z) /\
     ((exists sent failed n t, loop = (Ok (sent, failed), n, t)) \/
      (exists e n t, loop = (Throw e, n, t))) /\
     (reliable provider -> exists sent failed n t, loop = (Ok (sent, failed), n, t))) /\
  (forall env fs directory provider hmac,
     ~ config_present env ->
     Part000.script env fs directory provider hmac 0
     = (Exit 0%Z, 0%nat,
        [EvLog [LStr (js "Missing required env vars, skipping newsletter")]])) /\
  (forall env fs directory provider hmac template subs,
     config_present env ->
     fs (email_path (env_string (env_EPISODE_DATE env))) = Some template ->
     directory = Reply {| status := 200; data := subs |} ->
     valid_subscribers subs = [] ->
     let '(res, n, t) := Part000.script env fs directory provider hmac 0 in
     exit_status res = 0%Z /\ n = 0%nat /\
     payloads_of batch_url t = [] /\ payloads_of single_url t = []).
Proof.
  split; [|split].
  - intros env fs directory provider hmac allEmails Hreach. cbv zeta.
    rewrite (script_delivery env fs directory provider hmac allEmails Hreach).
    split; [|split; [|split]].
    + intros sent failed n t ->.
      destruct (Nat.ltb_spec 0 failed) as [Hpos|Hzero]; cbn [exit_status].
      * split; [reflexivity|]. split; [intros _; exact Hpos|discriminate].
      * split; [reflexivity|]. split; [congruence|lia].
    + intros e n t ->. reflexivity.
    + pose proof (deliver_from_returns_or_throws provider
                    (env_string (env_RESEND_API_KEY env)) allEmails 0 0 0) as Hne.
      unfold returns_or_throws in Hne.
      destruct (Part000.deliver_from provider (env_string (env_RESEND_API_KEY env))
                  allEmails 0 0 0 0) as [[[[s f]|e|c] n] t]; cbn [fst] in Hne.
      * left. exists s, f, n, t. reflexivity.
      * right. exists e, n, t. reflexivity.
      * contradiction.
    + intros Hrel.
      destruct (run_at_total
                  (Part000.loop_body provider (env_string (env_RESEND_API_KEY env)) allEmails)
                  (fun i s f m => loop_body_total provider _ allEmails i s f m Hrel)
                  (loop_indices (length allEmails) 0) 0 0 0) as (s & f & n' & t & Hrun).
      rewrite <- (deliver_from_run_at provider _ allEmails _ 0 0 0 0 eq_refl) in Hrun.
      exists s, f, n', t. exact Hrun.
  - intros env fs directory provider hmac Hcfg. unfold Part000.script.
    unfold config_present in Hcfg.
    destruct (falsy (env_RESEND_API_KEY env) || falsy (env_WORKER_URL env)
              || falsy (env_WORKER_SECRET env) || falsy (env_EPISODE_DATE env));
      [reflexivity|congruence].
  - intros env fs directory provider hmac template subs Hcfg Hfs Hdir Hvalid.
    unfold Part000.script. unfold config_present in Hcfg. rewrite Hcfg. cbv zeta.
    rewrite Hfs. unfold catch, Part000.main. cbv zeta.
    unfold console_log at 1. rewrite bind_emit_prefix.
    rewrite (bind_directory_reply _ _ _ _ _ _ _ _ Hdir). cbn [status data].
    change (negb (200 =? 200)%Z) with false. cbv iota.
    unfold console_log at 1. rewrite bind_emit_prefix.
    fold (valid_subscribers subs).
    rewrite (bind_ok_prefix _ _ _ _ _ _ _ _ (optional_line_run _ _ 0)).
    rewrite Hvalid. cbn [length Nat.eqb]. unfold console_log, emit, with_prefix.
    destruct (0 <? length (filter (fun s => negb (Part000.isValidEmail (email s))) subs))%nat;
      repeat split; reflexivity.
Qed.

Lemma sample_reaches_delivery :
  reaches_delivery sample_env sample_fs sample_directory sample_hmac sample_payloads.
Proof.
  split; [reflexivity|].
  exists sample_template,
    [ {| email := js "alice@example.com" |}; {| email := js "not-an-address" |};
      {| email := js "bob@example.org" |} ].
  split; [reflexivity|]. split; [reflexivity|].
  split; [vm_compute; discriminate|]. vm_compute. reflexivity.
Qed.

(** Two valid subscribers; the batch is answered 500, the first individual
    send 200 and the second 404: one failure, exit status 1.  With 200 for
    the batch: exit status 0. *)
Lemma exit_status_rule_witness :
  exit_status (fst (fst (Part000.script sample_env sample_fs sample_directory
                           (scripted [500; 200; 404]%Z JNull) sample_hmac 0))) = 1%Z /\
  exit_status (fst (fst (Part000.script sample_env sample_fs sample_directory
                           (scripted [200]%Z JNull) sample_hmac 0))) = 0%Z.
Proof.
  destruct exit_status_rule as (Hrule & _ & _).
  split.
  - destruct (Hrule sample_env sample_fs sample_directory
                (scripted [500; 200; 404]%Z JNull) sample_hmac sample_payloads
                sample_reaches_delivery) as (Hok & _).
    destruct (Part000.deliver_from (scripted [500; 200; 404]%Z JNull)
                (env_string (env_RESEND_API_KEY sample_env)) sample_payloads 0 0 0 0)
      as [[res n] t] eqn:Hloop.
    assert (Hres : res = Ok (1%nat, 1%nat)).
    { change res with (fst (fst (res, n, t))). rewrite <- Hloop. vm_compute. reflexivity. }
    subst res. destruct (Hok 1%nat 1%nat n t eq_refl) as [Hcode _]. exact Hcode.
  - destruct (Hrule sample_env sample_fs sample_directory
                (scripted [200]%Z JNull) sample_hmac sample_payloads
                sample_reaches_delivery) as (Hok & _).
    destruct (Part000.deliver_from (scripted [200]%Z JNull)
                (env_string (env_RESEND_API_KEY sample_env)) sample_payloads 0 0 0 0)
      as [[res n] t] eqn:Hloop.
    assert (Hres : res = Ok (2%nat, 0%nat)).
    { change res with (fst (fst (res, n, t))). rewrite <- Hloop. vm_compute. reflexivity. }
    subst res. destruct (Hok 2%nat 0%nat n t eq_refl) as [Hcode _]. exact Hcode.
Defined.

(** C5 (as stated, refuted).  The run reaches the delivery phase and the
    first request to the provider fails with a network error: the promise of
    main is rejected and the handler of [main().catch] ends the process with
    status 1, although the loop has not ended and nothing was counted as
    failed. *)
Lemma exit_status_counterexample :
  reaches_delivery sample_env sample_fs sample_directory sample_hmac sample_payloads /\
  exit_status (fst (fst (Part000.script sample_env sample_fs sample_directory
                           unreachable_provider sample_hmac 0))) = 1%Z /\
  fst (fst (Part000.deliver_from unreachable_provider
              (env_string (env_RESEND_API_KEY sample_env)) sample_payloads 0 0 0 0))
  = Throw (NetworkError (js "ECONNRESET")) /\
  ~ exit_rule_as_worded.
Proof.
  split; [exact sample_reaches_delivery|].
  split; [vm_compute; reflexivity|]. split; [vm_compute; reflexivity|].
  intros H.
  destruct (H sample_env sample_fs sample_directory unreachable_provider sample_hmac
              sample_payloads sample_reaches_delivery) as [Hex _].
  destruct Hex as (sent & failed & n & t & Hloop & _).
  - vm_compute. discriminate.
  - assert (Hres : fst (fst (Part000.deliver_from unreachable_provider
                               (env_string (env_RESEND_API_KEY sample_env))
                               sample_payloads 0 0 0 0))
                   = Throw (NetworkError (js "ECONNRESET"))) by (vm_compute; reflexivity).
    rewrite Hloop in Hres. discriminate Hres.
Qed.

(** ** Replacing the marker *)

Lemma starts_with_spec pat s : starts_with pat s = true <-> exists rest, s = pat ++ rest.
Proof.
  revert s. induction pat as [|p pat IH]; intros s; simpl.
  - split; [intros _; now exists s|reflexivity].
  - destruct s as [|c s]; [split; [discriminate|intros [rest H]; discriminate H]|].
    rewrite andb_true_iff, N.eqb_eq, IH. split.
    + intros [-> [rest ->]]. now exists rest.
    + intros [rest H]. injection H as -> ->. split; [reflexivity|now exists rest].
Qed.

Lemma starts_with_nil_r pat : starts_with pat [] = true -> pat = [].
Proof. destruct pat; [reflexivity|discriminate]. Qed.

Lemma includes_cons pat c s :
  includes pat (c :: s) = starts_with pat (c :: s) || includes pat s.
Proof. reflexivity. Qed.

Lemma includes_spec pat s : includes pat s = true <-> exists a b, s = a ++ pat ++ b.
Proof.
  induction s as [|c s IH].
  - simpl. rewrite orb_false_r. split.
    + intros H. apply starts_with_nil_r in H. subst. now exists [], [].
    + intros (a & b & H). symmetry in H. apply app_eq_nil in H. destruct H as [_ H].
      apply app_eq_nil in H. destruct H as [-> _]. reflexivity.
  - rewrite includes_cons, orb_true_iff, IH, starts_with_spec. split.
    + intros [[rest ->]|(a & b & ->)]; [now exists [], rest|now exists (c :: a), b].
    + intros (a & b & H). destruct a as [|a0 a].
      * left. now exists b.
      * injection H as -> ->. right. now exists a, b.
Qed.

Lemma GetSubstitution_literal matched before after template :
  ~ In ch_dollar template -> GetSubstitution matched before after template = template.
Proof.
  induction template as [|c t IH]; intros H; [reflexivity|].
  cbn [GetSubstitution]. destruct (N.eqb_spec c ch_dollar) as [->|_].
  - exfalso. apply H. now left.
  - rewrite IH; [reflexivity|]. intros Hin. apply H. now right.
Qed.

Lemma replace_from_step pat template before c rest :
  replace_from pat template before (c :: rest) =
  if starts_with pat (c :: rest) then
    GetSubstitution pat before (skipn (length pat - 1) rest) template
    ++ replace_from pat template (before ++ pat) (skipn (length pat - 1) rest)
  else c :: replace_from pat template (before ++ [c]) rest.
Proof.
  rewrite replace_from_equation_2.
  destruct (starts_with pat (c :: rest)); reflexivity.
Qed.


Lemma ends_with_or_empty_tail l c q :
  ends_with_or_empty l (c :: q) -> ends_with_or_empty l q.
Proof.
  intros [H|[q0 H]]; [discriminate|].
  destruct q0 as [|c0 q0]; simpl in H; injection H as -> ->.
  - now left.
  - right. now exists q0.
Qed.

Section ReplaceLiteral.
(** The pattern begins with [p0] and ends with [pl]; the replacement is
    [W ++ x :: R'], free of [$], where [pl] is not in [W], [x] is not in the
    pattern and [p0] is not in [R']. *)
Variables (pat W R' : jsstring) (p0 pl x : N).
Hypothesis pat_head : exists ptail, pat = p0 :: ptail.
Hypothesis pat_last : exists pbody, pat = pbody ++ [pl].
Hypothesis x_not_in_pat : ~ In x pat.
Hypothesis pl_not_in_W : ~ In pl W.
Hypothesis p0_not_in_R' : ~ In p0 R'.
Hypothesis literal : ~ In ch_dollar (W ++ x :: R').

Lemma no_start_in_W W0 q rest :
  ~ In pl W0 -> ~ In x q -> ends_with_or_empty pl q ->
  starts_with q (W0 ++ x :: rest) = true -> q = [].
Proof.
  revert q. induction W0 as [|w W0 IH]; intros q HW Hx Hq Hs.
  - destruct q as [|c q]; [reflexivity|]. simpl in Hs.
    apply andb_true_iff in Hs. destruct Hs as [Hc _]. apply N.eqb_eq in Hc. subst c.
    exfalso. apply Hx. now left.
  - destruct q as [|c q]; [reflexivity|]. simpl in Hs.
    apply andb_true_iff in Hs. destruct Hs as [Hc Hs]. apply N.eqb_eq in Hc. subst c.
    assert (Hq' : q = []).
    { apply IH; auto.
      - intros Hin. apply HW. now right.
      - intros Hin. apply Hx. now right.
      - eapply ends_with_or_empty_tail; eassumption. }
    subst q. destruct Hq as [Hq|[q0 Hq]]; [discriminate|].
    destruct q0 as [|c0 q0]; simpl in Hq.
    + injection Hq as ->. exfalso. apply HW. now left.
    + injection Hq as _ Hq. destruct q0; discriminate Hq.
Qed.

(** A prefix of the output that could be the end of the pattern is a prefix
    of the input. *)
Lemma replaced_prefix :
  forall k s before q, (length s <= k)%nat ->
    ~ In x q -> ends_with_or_empty pl q ->
    starts_with q (replace_from pat (W ++ x :: R') before s) = true ->
    starts_with q s = true.
Proof.
  induction k as [|k IH]; intros s before q Hk Hx Hq Hs.
  - destruct s; [|simpl in Hk; lia]. exact Hs.
  - destruct s as [|c s]; [exact Hs|]. rewrite replace_from_step in Hs.
    destruct (starts_with pat (c :: s)) eqn:Hm.
    + rewrite GetSubstitution_literal in Hs by exact literal.
      rewrite <- app_assoc in Hs. cbn [app] in Hs.
      apply no_start_in_W in Hs; auto. subst q. reflexivity.
    + destruct q as [|d q]; [reflexivity|]. simpl in Hs |- *.
      apply andb_true_iff in Hs. destruct Hs as [Hd Hs]. rewrite Hd. cbn [andb].
      eapply IH; [simpl in Hk; lia| | |exact Hs].
      * intros Hin. apply Hx. now right.
      * eapply ends_with_or_empty_tail; eassumption.
Qed.

Lemma includes_after_R' u v :
  ~ In p0 u -> includes pat (u ++ v) = includes pat v.
Proof.
  induction u as [|c u IH]; intros Hu; [reflexivity|].
  cbn [app]. rewrite includes_cons, IH by (intros Hin; apply Hu; now right).
  destruct pat_head as [ptail ->]. simpl.
  destruct (N.eqb_spec p0 c) as [->|_]; [exfalso; apply Hu; now left|reflexivity].
Qed.

Lemma includes_after_W W0 v :
  ~ In pl W0 -> includes pat (W0 ++ x :: v) = includes pat v.
Proof.
  induction W0 as [|w W0 IH]; intros HW.
  - cbn [app]. rewrite includes_cons.
    destruct pat_head as [ptail Hpat]. rewrite Hpat at 1. simpl.
    destruct (N.eqb_spec p0 x) as [->|_]; [|reflexivity].
    exfalso. apply x_not_in_pat. rewrite Hpat. now left.
  - cbn [app]. rewrite includes_cons, IH by (intros Hin; apply HW; now right).
    destruct (starts_with pat (w :: W0 ++ x :: v)) eqn:Hs; [|reflexivity].
    change (w :: W0 ++ x :: v) with ((w :: W0) ++ x :: v) in Hs.
    apply no_start_in_W in Hs; auto.
    + destruct pat_head as [ptail Hpat]. rewrite Hpat in Hs. discriminate Hs.
    + right. exact pat_last.
Qed.

(** After the replacement the pattern occurs nowhere. *)
Lemma replaced_without_pattern :
  forall k s before, (length s <= k)%nat ->
    includes pat (replace_from pat (W ++ x :: R') before s) = false.
Proof.
  induction k as [|k IH]; intros s before Hk.
  - destruct s; [|simpl in Hk; lia].
    rewrite replace_from_equation_1. destruct pat_head as [ptail ->]. reflexivity.
  - destruct s as [|c s].
    { rewrite replace_from_equation_1. destruct pat_head as [ptail ->]. reflexivity. }
    rewrite replace_from_step. destruct (starts_with pat (c :: s)) eqn:Hm.
    + rewrite GetSubstitution_literal by exact literal.
      rewrite <- app_assoc. cbn [app].
      rewrite includes_after_W by exact pl_not_in_W.
      rewrite includes_after_R' by exact p0_not_in_R'.
      apply IH. rewrite length_skipn. simpl in Hk. lia.
    + rewrite includes_cons, IH by (simpl in Hk; lia). rewrite orb_false_r.
      destruct (starts_with pat (c :: replace_from pat (W ++ x :: R') (before ++ [c]) s))
        eqn:Hs; [|reflexivity].
      destruct pat_head as [ptail Hpat]. rewrite Hpat in Hm. rewrite Hpat in Hs at 1.
      simpl in Hs, Hm.
      apply andb_true_iff in Hs. destruct Hs as [Hc Hs]. rewrite Hc in Hm. cbn [andb] in Hm.
      apply replaced_prefix with (k := k) in Hs.
      * congruence.
      * simpl in Hk. lia.
      * intros Hin. apply x_not_in_pat. rewrite Hpat. now right.
      * apply ends_with_or_empty_tail with (c := p0). rewrite <- Hpat. right. exact pat_last.
Qed.

End ReplaceLiteral.

Lemma replace_marker_free pat template :
  forall s before, pat <> [] -> includes pat s = false ->
    replace_from pat template before s = s.
Proof.
  induction s as [|c s IH]; intros before Hpat Hinc.
  - apply replace_from_equation_1.
  - rewrite includes_cons in Hinc. apply orb_false_iff in Hinc. destruct Hinc as [Hs Hinc].
    rewrite replace_from_step, Hs, IH by assumption. reflexivity.
Qed.

Lemma jsstring_eqb_refl s : jsstring_eqb s s = true.
Proof. unfold jsstring_eqb. destruct (list_eq_dec N.eq_dec s s); congruence. Qed.

Lemma firstn_length_app (A : Type) (a b : list A) : firstn (length a) (a ++ b) = a.
Proof. rewrite firstn_app, firstn_all, Nat.sub_diag. cbn [firstn]. apply app_nil_r. Qed.

Lemma skipn_length_app (A : Type) (a b : list A) : skipn (length a) (a ++ b) = b.
Proof. rewrite skipn_app, skipn_all, Nat.sub_diag. reflexivity. Qed.

(** With a border-free pattern, a match cannot begin in a text without the
    pattern and end in a following copy of the pattern. *)
Lemma no_straddling_match pat u rest :
  border_free pat = true -> u <> [] -> includes pat u = false ->
  starts_with pat (u ++ pat ++ rest) = false.
Proof.
  intros Hbf Hu Hinc. destruct (starts_with pat (u ++ pat ++ rest)) eqn:Hs; [|reflexivity].
  exfalso. apply starts_with_spec in Hs. destruct Hs as [r Hr].
  apply (f_equal (firstn (length pat))) in Hr. rewrite firstn_length_app in Hr.
  rewrite (firstn_app (length pat) u) in Hr.
  destruct (Nat.le_gt_cases (length pat) (length u)) as [Hle|Hgt].
  - assert (Hinc' : includes pat u = true).
    { apply includes_spec. exists [], (skipn (length pat) u). cbn [app].
      replace (length pat - length u)%nat with 0%nat in Hr by lia.
      cbn [firstn] in Hr. rewrite app_nil_r in Hr.
      rewrite <- Hr at 1. symmetry. apply firstn_skipn. }
    congruence.
  - set (k := (length pat - length u)%nat) in *.
    rewrite (firstn_all2 u) in Hr by lia.
    rewrite (firstn_app k pat) in Hr.
    replace (k - length pat)%nat with 0%nat in Hr by lia. cbn [firstn] in Hr.
    rewrite app_nil_r in Hr.
    unfold border_free in Hbf. rewrite forallb_forall in Hbf.
    assert (Hk : In k (seq 1 (length pat - 1))).
    { apply in_seq. destruct u; [congruence|]. simpl in *. lia. }
    apply Hbf in Hk. apply negb_true_iff in Hk.
    replace (length pat - k)%nat with (length u) in Hk by lia.
    rewrite <- Hr in Hk at 2. rewrite skipn_length_app, jsstring_eqb_refl in Hk.
    discriminate Hk.
Qed.

(** A text without the pattern, then the pattern: the text is kept and the
    pattern replaced. *)
Lemma replace_piece pat template :
  ~ In ch_dollar template -> border_free pat = true -> pat <> [] ->
  forall p before rest,
    includes pat p = false ->
    replace_from pat template before (p ++ pat ++ rest)
    = p ++ template ++ replace_from pat template (before ++ p ++ pat) rest.
Proof.
  intros Hlit Hbf Hpat. induction p as [|c p IH]; intros before rest Hinc.
  - cbn [app]. destruct pat as [|p0 ptail]; [congruence|].
    cbn [app]. rewrite replace_from_step.
    replace (starts_with (p0 :: ptail) (p0 :: ptail ++ rest)) with true
      by (symmetry; apply starts_with_spec; now exists rest).
    rewrite GetSubstitution_literal by assumption.
    replace (length (p0 :: ptail) - 1)%nat with (length ptail) by (simpl; lia).
    rewrite skipn_length_app. reflexivity.
  - cbn [app]. rewrite replace_from_step.
    change (c :: p ++ pat ++ rest) with ((c :: p) ++ pat ++ rest).
    rewrite no_straddling_match by (assumption || discriminate).
    rewrite includes_cons in Hinc. apply orb_false_iff in Hinc.
    rewrite IH by apply Hinc. rewrite <- !app_assoc. reflexivity.
Qed.

(** A template cut at the occurrences of the pattern: every occurrence is
    replaced. *)
Lemma replace_join pat template :
  ~ In ch_dollar template -> border_free pat = true -> pat <> [] ->
  forall pieces before,
    pieces <> [] -> Forall (fun p => includes pat p = false) pieces ->
    replace_from pat template before (join pat pieces) = join template pieces.
Proof.
  intros Hlit Hbf Hpat. induction pieces as [|p pieces IH]; intros before Hne Hall;
    [congruence|].
  inversion Hall as [|? ? Hp Hrest]; subst.
  destruct pieces as [|p' pieces].
  - cbn [join]. now apply replace_marker_free.
  - change (join pat (p :: p' :: pieces)) with (p ++ pat ++ join pat (p' :: pieces)).
    change (join template (p :: p' :: pieces))
      with (p ++ template ++ join template (p' :: pieces)).
    rewrite replace_piece by assumption. rewrite IH by (assumption || discriminate).
    reflexivity.
Qed.

(** ** encodeURIComponent: its alphabet and when it returns *)


Lemma hex_digit_unescaped d : (d < 16)%N -> uri_unescaped (hex_digit d) = true.
Proof.
  intros Hd. unfold hex_digit, uri_unescaped.
  destruct (N.ltb_spec d 10) as [Hlt|Hge].
  - replace ((48 <=? 48 + d)%N && (48 + d <=? 57)%N) with true
      by (symmetry; apply andb_true_iff; split; apply N.leb_le; lia).
    now rewrite !orb_true_r.
  - replace ((65 <=? 55 + d)%N && (55 + d <=? 90)%N) with true
      by (symmetry; apply andb_true_iff; split; apply N.leb_le; lia).
    reflexivity.
Qed.

Lemma percent_octet_output o : Forall uri_output (percent_octet o).
Proof.
  unfold percent_octet.
  apply Forall_cons; [now right|].
  apply Forall_cons; [left; apply hex_digit_unescaped, N.mod_lt; discriminate|].
  apply Forall_cons; [left; apply hex_digit_unescaped, N.mod_lt; discriminate|].
  constructor.
Qed.

Lemma percent_encode_output cp : Forall uri_output (percent_encode cp).
Proof.
  unfold percent_encode. generalize (utf8_octets cp). intros l.
  induction l as [|o l IH]; [constructor|].
  cbn [flat_map]. apply Forall_app. split; [apply percent_octet_output|exact IH].
Qed.

Lemma encodeURIComponent_output :
  forall k s out, (length s <= k)%nat ->
    encodeURIComponent s = Some out -> Forall uri_output out.
Proof.
  induction k as [|k IH]; intros s out Hk Henc.
  - destruct s; [|simpl in Hk; lia]. injection Henc as <-. constructor.
  - destruct s as [|c rest]; [injection Henc as <-; constructor|].
    cbn [encodeURIComponent] in Henc. simpl in Hk.
    destruct (uri_unescaped c) eqn:Hu.
    { destruct (encodeURIComponent rest) as [o|] eqn:Hr; [|discriminate].
      injection Henc as <-. constructor; [now left|]. apply (IH rest); [lia|exact Hr]. }
    destruct (is_low_surrogate c); [discriminate|].
    destruct (is_high_surrogate c).
    + destruct rest as [|d rest']; [discriminate|].
      destruct (is_low_surrogate d); [|discriminate].
      destruct (encodeURIComponent rest') as [o|] eqn:Hr; [|discriminate].
      injection Henc as <-. apply Forall_app. split; [apply percent_encode_output|].
      apply (IH rest'); [simpl in Hk; lia|exact Hr].
    + destruct (encodeURIComponent rest) as [o|] eqn:Hr; [|discriminate].
      injection Henc as <-. apply Forall_app. split; [apply percent_encode_output|].
      apply (IH rest); [lia|exact Hr].
Qed.

Lemma surrogate_escaped c :
  is_high_surrogate c = true \/ is_low_surrogate c = true -> uri_unescaped c = false.
Proof.
  unfold is_high_surrogate, is_low_surrogate, uri_unescaped.
  rewrite !andb_true_iff, !N.leb_le. intros H.
  repeat (apply orb_false_iff; split);
    try (apply andb_false_iff;
         destruct (N.leb_spec 65 c), (N.leb_spec c 90), (N.leb_spec 97 c),
           (N.leb_spec c 122), (N.leb_spec 48 c), (N.leb_spec c 57); auto; lia);
    apply N.eqb_neq; lia.
Qed.

Lemma encodeURIComponent_total :
  forall k s, (length s <= k)%nat ->
    well_formed_utf16 s = true -> exists out, encodeURIComponent s = Some out.
Proof.
  induction k as [|k IH]; intros s Hk Hwf.
  - destruct s; [|simpl in Hk; lia]. now exists [].
  - destruct s as [|c rest]; [now exists []|].
    cbn [encodeURIComponent well_formed_utf16] in *. simpl in Hk.
    destruct (is_low_surrogate c) eqn:Hlow; [discriminate|].
    destruct (is_high_surrogate c) eqn:Hhigh.
    + rewrite (surrogate_escaped c) by now left.
      destruct rest as [|d rest']; [discriminate|].
      apply andb_true_iff in Hwf. destruct Hwf as [Hd Hwf]. rewrite Hd.
      destruct (IH rest' ltac:(simpl in Hk; lia) Hwf) as [o Ho]. rewrite Ho.
      eexists. reflexivity.
    + destruct (IH rest ltac:(lia) Hwf) as [o Ho]. rewrite Ho.
      destruct (uri_unescaped c); eexists; reflexivity.
Qed.

(** ** The payload builder *)

Lemma uri_output_plain c : uri_output c -> c <> ch_dollar /\ c <> ch_lbrace.
Proof.
  intros [H|H]; split; intros ->; try discriminate H; vm_compute in H; discriminate H.
Qed.

Lemma hex_digit_plain c : is_hex_digit c = true -> c <> ch_dollar /\ c <> ch_lbrace.
Proof. intros H; split; intros ->; vm_compute in H; discriminate H. Qed.

Lemma not_in_Forall (c : N) (P : N -> Prop) (s : jsstring) :
  Forall P s -> (forall d, P d -> d <> c) -> ~ In c s.
Proof.
  intros Hall Hne Hin. rewrite Forall_forall in Hall. apply (Hne c); auto.
Qed.

Lemma not_in_app (A : Type) (x : A) (l1 l2 : list A) :
  ~ In x l1 -> ~ In x l2 -> ~ In x (l1 ++ l2).
Proof. intros H1 H2 Hin. apply in_app_or in Hin. tauto. Qed.

Lemma marker_border_free : border_free marker = true.
Proof. vm_compute. reflexivity. Qed.

Section Payload.
Variable hmac_sha256_hex : jsstring -> jsstring -> jsstring.
Variables secret workerUrl address encoded : jsstring.
Hypothesis digest_is_hex : hex_digest hmac_sha256_hex.
Hypothesis encoded_output : Forall uri_output encoded.
Hypothesis no_dollar : ~ In ch_dollar workerUrl.
Hypothesis no_rbrace : ~ In ch_rbrace workerUrl.

Let tail : jsstring :=
  js "unsubscribe?email=" ++ encoded ++ js "&token=" ++ hmac_sha256_hex secret address.

Lemma unsubscribe_url_shape :
  unsubscribe_url hmac_sha256_hex secret workerUrl address encoded
  = workerUrl ++ ch_slash :: tail.
Proof. reflexivity. Qed.

Lemma tail_plain : ~ In ch_dollar tail /\ ~ In ch_lbrace tail.
Proof.
  unfold tail. split.
  - repeat apply not_in_app; try not_in_literal.
    + apply (not_in_Forall _ _ _ encoded_output). intros d Hd. now apply uri_output_plain.
    + apply (not_in_Forall _ _ _ (digest_is_hex secret address)).
      intros d Hd. now apply hex_digit_plain.
  - repeat apply not_in_app; try not_in_literal.
    + apply (not_in_Forall _ _ _ encoded_output). intros d Hd. now apply uri_output_plain.
    + apply (not_in_Forall _ _ _ (digest_is_hex secret address)).
      intros d Hd. now apply hex_digit_plain.
Qed.

Lemma unsubscribe_url_literal :
  ~ In ch_dollar (unsubscribe_url hmac_sha256_hex secret workerUrl address encoded).
Proof.
  rewrite unsubscribe_url_shape. apply not_in_app; [exact no_dollar|].
  intros [H|H]; [discriminate H|]. now apply tail_plain in H.
Qed.

Lemma rendered_without_marker template :
  includes marker
    (replace_global marker
       (unsubscribe_url hmac_sha256_hex secret workerUrl address encoded) template)
  = false.
Proof.
  unfold replace_global. rewrite unsubscribe_url_shape.
  apply (replaced_without_pattern marker workerUrl tail ch_lbrace ch_rbrace ch_slash)
    with (k := length template).
  - eexists. reflexivity.
  - exists (js "{{UNSUBSCRIBE_URL}"). reflexivity.
  - not_in_literal.
  - exact no_rbrace.
  - apply tail_plain.
  - rewrite <- unsubscribe_url_shape. exact unsubscribe_url_literal.
  - apply Nat.le_refl.
Qed.

Lemma rendered_by_pieces pieces :
  pieces <> [] -> Forall (fun p => includes marker p = false) pieces ->
  replace_global marker
    (unsubscribe_url hmac_sha256_hex secret workerUrl address encoded)
    (join marker pieces)
  = join (unsubscribe_url hmac_sha256_hex secret workerUrl address encoded) pieces.
Proof.
  intros Hne Hall. unfold replace_global.
  apply replace_join;
    [exact unsubscribe_url_literal|exact marker_border_free|discriminate
    |exact Hne|exact Hall].
Qed.

End Payload.

(** C6 (as amended).  For every template, every subscriber whose address
    has no unpaired surrogate, and every base URL that contains neither [$]
    nor [}] (the keyed hash giving hexadecimal digits), the builder of
    either script returns a message addressed to the subscriber in whose
    HTML every occurrence of the marker has been replaced by the unsubscribe
    URL (cut the template at its occurrences of the marker: the HTML is the
    same pieces joined by the URL), so that the marker occurs nowhere in the
    HTML; and the URL contains the address as encoded by
    encodeURIComponent, made of unreserved characters and [%]. *)
Theorem payload_marker_replaced :
  forall hmac_sha256_hex secret from subject template sub workerUrl,
    hex_digest hmac_sha256_hex ->
    ~ In ch_dollar workerUrl -> ~ In ch_rbrace workerUrl ->
    well_formed_utf16 (email sub) = true ->
    exists encoded msg,
      encodeURIComponent (email sub) = Some encoded /\
      Forall uri_output encoded /\
      Part000.buildEmailPayload hmac_sha256_hex secret from subject template sub workerUrl
      = Some msg /\
      SendNewsletter.build_email hmac_sha256_hex secret from subject template workerUrl sub
      = Some msg /\
      msg_to msg = email sub /\
      includes marker (msg_html msg) = false /\
      includes encoded
        (unsubscribe_url hmac_sha256_hex secret workerUrl (email sub) encoded) = true /\
      (forall pieces,
         pieces <> [] -> Forall (fun p => includes marker p = false) pieces ->
         template = join marker pieces ->
         msg_html msg
         = join (unsubscribe_url hmac_sha256_hex secret workerUrl (email sub) encoded)
             pieces).
Proof.
  intros hmac secret from subject template sub workerUrl Hhex Hdollar Hbrace Hwf.
  destruct (encodeURIComponent_total (length (email sub)) (email sub) (Nat.le_refl _) Hwf)
    as [encoded Henc].
  pose proof (encodeURIComponent_output _ _ _ (Nat.le_refl _) Henc) as Hout.
  exists encoded.
  exists {| msg_from := from; msg_to := email sub; msg_subject := subject;
            msg_html := replace_global marker
                          (unsubscribe_url hmac secret workerUrl (email sub) encoded)
                          template |}.
  split; [exact Henc|]. split; [exact Hout|].
  split; [unfold Part000.buildEmailPayload; rewrite Henc; reflexivity|].
  split; [unfold SendNewsletter.build_email; rewrite Henc; reflexivity|].
  split; [reflexivity|]. cbn [msg_html].
  split; [now apply rendered_without_marker|]. split.
  - apply includes_spec.
    exists (workerUrl ++ js "/unsubscribe?email="),
      (js "&token=" ++ hmac secret (email sub)).
    unfold unsubscribe_url. now rewrite <- !app_assoc.
  - intros pieces Hne Hall ->. now apply rendered_by_pieces.
Qed.

Lemma sample_hmac_hex : hex_digest sample_hmac.
Proof.
  intros key text. unfold sample_hmac. apply Forall_forall. intros c Hc.
  apply repeat_spec in Hc. subst c. reflexivity.
Qed.

Lemma payload_marker_replaced_witness :
  exists encoded msg,
    encodeURIComponent (js "a+b@example.com") = Some encoded /\
    encoded = js "a%2Bb%40example.com" /\
    Part000.buildEmailPayload sample_hmac (js "secret") default_from (js "Daily")
      (js "<a href='{{UNSUBSCRIBE_URL}}'>x</a> or {{UNSUBSCRIBE_URL}}")
      {| email := js "a+b@example.com" |} (js "https://worker.example.com")
    = Some msg /\
    includes marker (msg_html msg) = false /\
    msg_html msg
    = js "<a href='" ++
      unsubscribe_url sample_hmac (js "secret") (js "https://worker.example.com")
        (js "a+b@example.com") encoded
      ++ js "'>x</a> or " ++
      unsubscribe_url sample_hmac (js "secret") (js "https://worker.example.com")
        (js "a+b@example.com") encoded.
Proof.
  destruct (payload_marker_replaced sample_hmac (js "secret") default_from (js "Daily")
              (js "<a href='{{UNSUBSCRIBE_URL}}'>x</a> or {{UNSUBSCRIBE_URL}}")
              {| email := js "a+b@example.com" |} (js "https://worker.example.com")
              sample_hmac_hex)
    as (encoded & msg & Henc & _ & Hbuild & _ & _ & Hfree & _ & Hpieces).
  - not_in_literal.
  - not_in_literal.
  - reflexivity.
  - exists encoded, msg. split; [exact Henc|].
    split; [vm_compute in Henc; injection Henc as <-; reflexivity|].
    split; [exact Hbuild|]. split; [exact Hfree|].
    rewrite (Hpieces [js "<a href='"; js "'>x</a> or "; []]).
    + cbn [join]. now rewrite app_nil_r.
    + discriminate.
    + repeat constructor.
    + reflexivity.
Defined.

(** C6 (as stated, refuted).  A base URL with [$&] puts the matched text,
    the marker itself, back into the HTML; and a base URL that begins with
    [}] completes a marker with the text before it. *)
Lemma marker_survives_counterexample :
  option_map (fun msg => includes marker (msg_html msg))
    (Part000.buildEmailPayload sample_hmac (js "secret") default_from (js "Daily")
       (js "<a href='{{UNSUBSCRIBE_URL}}'>unsubscribe</a>")
       {| email := js "alice@example.com" |} (js "https://worker.example.com/$&"))
  = Some true /\
  option_map (fun msg => includes marker (msg_html msg))
    (Part000.buildEmailPayload sample_hmac (js "secret") default_from (js "Daily")
       (js "{{UNSUBSCRIBE_URL}{{UNSUBSCRIBE_URL}}")
       {| email := js "alice@example.com" |} (js "}"))
  = Some true /\
  ~ marker_always_removed.
Proof.
  split; [vm_compute; reflexivity|]. split; [vm_compute; reflexivity|].
  intros H.
  destruct (Part000.buildEmailPayload sample_hmac (js "secret") default_from (js "Daily")
              (js "<a href='{{UNSUBSCRIBE_URL}}'>unsubscribe</a>")
              {| email := js "alice@example.com" |} (js "https://worker.example.com/$&"))
    as [msg|] eqn:Hbuild; [|vm_compute in Hbuild; discriminate Hbuild].
  pose proof (H _ _ _ _ _ _ _ _ sample_hmac_hex Hbuild) as Hfree.
  vm_compute in Hbuild. injection Hbuild as <-. vm_compute in Hfree. discriminate Hfree.
Qed.

(** * Further properties of the code *)

(** ** sendSingle and sendBatch: every way out of the retry loop *)

Lemma bind_fetch_error (B : Type) provider url method headers body
    (k : Response Json -> M B) n msg :
  provider n = NetError msg ->
  bind (fetchJson provider url method headers body) k n =
  (Throw (NetworkError msg), S n, [EvRequest url method headers (Some body)]).
Proof. intros H. unfold bind, fetchJson. rewrite H. reflexivity. Qed.

Lemma sleeps_of_app t1 t2 : sleeps_of (t1 ++ t2) = sleeps_of t1 ++ sleeps_of t2.
Proof. unfold sleeps_of. apply flat_map_app. Qed.

Lemma status_accepted (st : Z) :
  (200 <= st < 300)%Z -> ((200 <=? st)%Z && (st <? 300)%Z) = true.
Proof. intros H. apply andb_true_iff. split; [apply Z.leb_le|apply Z.ltb_lt]; lia. Qed.

Lemma status_not_accepted (st : Z) :
  ~ (200 <= st < 300)%Z -> ((200 <=? st)%Z && (st <? 300)%Z) = false.
Proof.
  intros H. apply andb_false_iff.
  destruct (Z.leb_spec 200 st); [right; apply Z.ltb_ge; lia|now left].
Qed.

Lemma flat_map_seq_shift (A : Type) (f : nat -> list A) a k :
  flat_map f (seq (S a) k) = flat_map (fun j => f (S j)) (seq a k).
Proof. revert a. induction k as [|k IH]; intros a; simpl; [reflexivity|now rewrite IH]. Qed.

(** [k] answers 429, then an answer 2xx: the exact events of sendSingle. *)
Lemma sendSingle_from_backoff provider key e m r :
  forall k a n,
    (a + Z.of_nat k <= m)%Z ->
    (forall j, (j < k)%nat ->
       exists d, provider (n + j)%nat = Reply {| status := 429; data := d |}) ->
    provider (n + k)%nat = Reply r ->
    (200 <= status r < 300)%Z ->
    Part000.sendSingle_from provider key e m a n
    = (Ok {| success := true; res_status := None; res_data := None |}, (n + k + 1)%nat,
       flat_map (fun j => [single_request key e; EvSleep ((a + Z.of_nat j) * 2000)])
         (seq 0 k) ++ [single_request key e]).
Proof.
  induction k as [|k IH]; intros a n Ham H429 Hok Hst.
  - rewrite sendSingle_from_unfold.
    replace (a <=? m)%Z with true by (symmetry; apply Z.leb_le; lia).
    rewrite Nat.add_0_r in Hok.
    rewrite (bind_fetch_reply _ _ _ _ _ _ _ _ _ Hok), (status_accepted _ Hst).
    unfold ret. replace (n + 0 + 1)%nat with (S n) by lia. reflexivity.
  - rewrite sendSingle_from_unfold.
    replace (a <=? m)%Z with true by (symmetry; apply Z.leb_le; lia).
    destruct (H429 0%nat ltac:(lia)) as [d Hd]. rewrite Nat.add_0_r in Hd.
    rewrite (bind_fetch_reply _ _ _ _ _ _ _ _ _ Hd). cbn [status data].
    change ((200 <=? 429)%Z && (429 <? 300)%Z) with false. cbv iota.
    change (429 =? 429)%Z with true.
    replace (a <? m)%Z with true by (symmetry; apply Z.ltb_lt; lia).
    cbn [andb]. unfold sleep. rewrite bind_emit.
    rewrite (IH (a + 1)%Z (S n)).
    + replace (S n + k + 1)%nat with (n + S k + 1)%nat by lia.
      cbn [seq flat_map app]. rewrite Z.add_0_r, flat_map_seq_shift.
      f_equal. f_equal. f_equal. f_equal.
      apply flat_map_ext. intros j.
      replace (a + 1 + Z.of_nat j)%Z with (a + Z.of_nat (S j))%Z by lia. reflexivity.
    + lia.
    + intros j Hj. replace (S n + j)%nat with (n + S j)%nat by lia. apply H429. lia.
    + replace (S n + k)%nat with (n + S k)%nat by lia. exact Hok.
    + exact Hst.
Qed.

(** X1.  sendSingle with [k] answers 429 followed by an answer 2xx and
    [maxRetries > k]: success after [k + 1] requests, each carrying the same
    message; the wait after attempt [j] is [j * 2000] ms, and nothing is
    written to the console. *)
Theorem sendSingle_retry_backoff :
  forall provider key e (maxRetries : Z) (k n : nat) r,
    (Z.of_nat k < maxRetries)%Z ->
    (forall j, (j < k)%nat ->
       exists d, provider (n + j)%nat = Reply {| status := 429; data := d |}) ->
    provider (n + k)%nat = Reply r ->
    (200 <= status r < 300)%Z ->
    Part000.sendSingle provider key e maxRetries n
    = (Ok {| success := true; res_status := None; res_data := None |}, (n + k + 1)%nat,
       retry_events (single_request key e) (fun j => (Z.of_nat j * 2000)%Z) k).
Proof.
  intros provider key e m k n r Hk H429 Hok Hst. unfold Part000.sendSingle.
  rewrite (sendSingle_from_backoff provider key e m r k 1%Z n) by (assumption || lia).
  unfold retry_events. f_equal. f_equal. rewrite flat_map_seq_shift.
  apply flat_map_ext. intros j.
  replace (1 + Z.of_nat j)%Z with (Z.of_nat (S j)) by lia. reflexivity.
Qed.

Lemma sendSingle_retry_backoff_witness :
  Part000.sendSingle (scripted [429; 429; 204]%Z JNull) (js "key")
    (hd {| msg_from := []; msg_to := []; msg_subject := []; msg_html := [] |}
        (sample_messages 1)) 3 0
  = (Ok {| success := true; res_status := None; res_data := None |}, 3%nat,
     retry_events
       (single_request (js "key")
          (hd {| msg_from := []; msg_to := []; msg_subject := []; msg_html := [] |}
              (sample_messages 1)))
       (fun j => (Z.of_nat j * 2000)%Z) 2).
Proof.
  apply (sendSingle_retry_backoff (scripted [429; 429; 204]%Z JNull) (js "key") _ 3%Z 2%nat 0%nat
           {| status := 204; data := JNull |}).
  - lia.
  - intros j Hj. exists JNull. destruct j as [|[|j]]; [reflexivity|reflexivity|lia].
  - reflexivity.
  - simpl. lia.
Defined.

(** X2.  An answer that is neither 2xx nor 429 ends sendBatch (of either
    script) and sendSingle at once, whatever [maxRetries >= 1]: one request,
    no wait, no console line, and a failure that carries the status of the
    answer (and its body, for a batch). *)
Theorem rejected_status_fails_at_once :
  forall provider key (maxRetries : Z) (n : nat) r,
    (1 <= maxRetries)%Z ->
    provider n = Reply r ->
    rejected_status (status r) ->
    (forall emails,
       Part000.sendBatch provider key emails maxRetries n
       = (Ok {| success := false; res_status := Some (status r);
                res_data := Some (data r) |}, S n, [batch_request key emails]) /\
       SendNewsletter.sendBatch provider key emails maxRetries n
       = Part000.sendBatch provider key emails maxRetries n) /\
    (forall e,
       Part000.sendSingle provider key e maxRetries n
       = (Ok {| success := false; res_status := Some (status r); res_data := None |},
          S n, [single_request key e])).
Proof.
  intros provider key m n r Hm Hr [Hno Hnot429].
  assert (H429 : (status r =? 429)%Z = false) by now apply Z.eqb_neq.
  split.
  - intros emails. split; [|apply sendBatch_same_run].
    unfold Part000.sendBatch. rewrite sendBatch_from_unfold.
    replace (1 <=? m)%Z with true by (symmetry; apply Z.leb_le; lia).
    rewrite (bind_fetch_reply _ _ _ _ _ _ _ _ _ Hr), (status_not_accepted _ Hno), H429.
    reflexivity.
  - intros e. unfold Part000.sendSingle. rewrite sendSingle_from_unfold.
    replace (1 <=? m)%Z with true by (symmetry; apply Z.leb_le; lia).
    rewrite (bind_fetch_reply _ _ _ _ _ _ _ _ _ Hr), (status_not_accepted _ Hno), H429.
    reflexivity.
Qed.

Lemma rejected_status_fails_at_once_witness :
  Part000.sendBatch (scripted [500]%Z rate_limit_body) (js "key") (sample_messages 2) 3 0
  = (Ok {| success := false; res_status := Some 500%Z; res_data := Some rate_limit_body |},
     1%nat, [batch_request (js "key") (sample_messages 2)]).
Proof.
  apply (rejected_status_fails_at_once (scripted [500]%Z rate_limit_body) (js "key") 3%Z 0%nat
           {| status := 500; data := rate_limit_body |}).
  - lia.
  - reflexivity.
  - split; simpl; lia.
Defined.

(** The requests and waits of sendBatch, whatever the provider does: some
    number [k] of retries, below the number of attempts that are left. *)
Lemma sendBatch_from_shape provider key emails m :
  forall fuel a n,
    Z.to_nat (m + 1 - a) = fuel -> (a <= m)%Z ->
    exists k,
      (a + Z.of_nat k <= m)%Z /\
      snd (fst (Part000.sendBatch_from provider key emails m a n)) = (n + k + 1)%nat /\
      sleeps_of (snd (Part000.sendBatch_from provider key emails m a n))
      = map (fun j => ((a + Z.of_nat j) * 3000)%Z) (seq 0 k) /\
      payloads_of batch_url (snd (Part000.sendBatch_from provider key emails m a n))
      = repeat (PBatch emails) (S k) /\
      payloads_of single_url (snd (Part000.sendBatch_from provider key emails m a n)) = [].
Proof.
  induction fuel as [|fuel IH]; intros a n Hfuel Ha; [lia|].
  rewrite sendBatch_from_unfold.
  replace (a <=? m)%Z with true by (symmetry; apply Z.leb_le; lia).
  destruct (provider n) as [msg|r] eqn:Hr.
  { rewrite (bind_fetch_error _ _ _ _ _ _ _ _ _ Hr). exists 0%nat. cbn.
    repeat split; lia. }
  rewrite (bind_fetch_reply _ _ _ _ _ _ _ _ _ Hr).
  destruct ((200 <=? status r)%Z && (status r <? 300)%Z).
  { exists 0%nat. cbn. repeat split; lia. }
  destruct (status r =? 429)%Z; cbn [andb];
    [|exists 0%nat; cbn; repeat split; lia].
  destruct (Z.ltb_spec a m) as [Hlt|Hge];
    [|exists 0%nat; cbn; repeat split; lia].
  unfold console_log, sleep. rewrite !bind_emit.
  destruct (IH (a + 1)%Z (S n) ltac:(lia) ltac:(lia)) as (k & Hk & Hn & Hsl & Hb & Hs).
  destruct (Part000.sendBatch_from provider key emails m (a + 1) (S n)) as [[res n'] t].
  cbn [fst snd] in *. exists (S k). split; [lia|]. split; [lia|]. split; [|split].
  - cbn [sleeps_of flat_map app]. fold (sleeps_of t). rewrite Hsl.
    cbn [seq map]. rewrite <- seq_shift, map_map. f_equal; [f_equal; lia|].
    apply map_ext. intros j. f_equal. lia.
  - fold (batch_request key emails). rewrite payloads_of_batch_request.
    cbn [payloads_of flat_map app]. fold (payloads_of batch_url t). rewrite Hb. reflexivity.
  - cbn [payloads_of flat_map app]. fold (payloads_of single_url t). exact Hs.
Qed.

Lemma sendSingle_from_shape provider key e m :
  forall fuel a n,
    Z.to_nat (m + 1 - a) = fuel -> (a <= m)%Z ->
    exists k,
      (a + Z.of_nat k <= m)%Z /\
      snd (fst (Part000.sendSingle_from provider key e m a n)) = (n + k + 1)%nat /\
      sleeps_of (snd (Part000.sendSingle_from provider key e m a n))
      = map (fun j => ((a + Z.of_nat j) * 2000)%Z) (seq 0 k) /\
      payloads_of single_url (snd (Part000.sendSingle_from provider key e m a n))
      = repeat (PSingle e) (S k) /\
      payloads_of batch_url (snd (Part000.sendSingle_from provider key e m a n)) = [].
Proof.
  induction fuel as [|fuel IH]; intros a n Hfuel Ha; [lia|].
  rewrite sendSingle_from_unfold.
  replace (a <=? m)%Z with true by (symmetry; apply Z.leb_le; lia).
  destruct (provider n) as [msg|r] eqn:Hr.
  { rewrite (bind_fetch_error _ _ _ _ _ _ _ _ _ Hr). exists 0%nat. cbn.
    repeat split; lia. }
  rewrite (bind_fetch_reply _ _ _ _ _ _ _ _ _ Hr).
  destruct ((200 <=? status r)%Z && (status r <? 300)%Z).
  { exists 0%nat. cbn. repeat split; lia. }
  destruct (status r =? 429)%Z; cbn [andb];
    [|exists 0%nat; cbn; repeat split; lia].
  destruct (Z.ltb_spec a m) as [Hlt|Hge];
    [|exists 0%nat; cbn; repeat split; lia].
  unfold sleep. rewrite !bind_emit.
  destruct (IH (a + 1)%Z (S n) ltac:(lia) ltac:(lia)) as (k & Hk & Hn & Hsl & Hs & Hb).
  destruct (Part000.sendSingle_from provider key e m (a + 1) (S n)) as [[res n'] t].
  cbn [fst snd] in *. exists (S k). split; [lia|]. split; [lia|]. split; [|split].
  - cbn [sleeps_of flat_map app]. fold (sleeps_of t). rewrite Hsl.
    cbn [seq map]. rewrite <- seq_shift, map_map. f_equal; [f_equal; lia|].
    apply map_ext. intros j. f_equal. lia.
  - change (payloads_of single_url
              (EvRequest single_url POST (api_headers key) (Some (PSingle e))
               :: EvSleep (a * 2000) :: t))
      with (PSingle e :: payloads_of single_url t).
    rewrite Hs. reflexivity.
  - change (payloads_of batch_url
              (EvRequest single_url POST (api_headers key) (Some (PSingle e))
               :: EvSleep (a * 2000) :: t))
      with (payloads_of batch_url t).
    exact Hb.
Qed.



(** ** The run before the delivery phase *)

Lemma bind_directory_error (B : Type) directory url method headers
    (k : Response (list Subscriber) -> M B) n msg :
  directory = NetError msg ->
  bind (fetchJson_directory directory url method headers) k n =
  (Throw (NetworkError msg), n, [EvRequest url method headers None]).
Proof. intros ->. reflexivity. Qed.

Lemma main_directory_rejected directory provider hmac key url secret from subject template r :
  directory = Reply r -> status r <> 200%Z ->
  Part000.main directory provider hmac key url secret from subject template 0
  = (Exit 1%Z, 0%nat,
     [fetching_line;
      EvRequest (strip_trailing_slash url ++ js "/subscribers") GET
        [(js "X-API-Secret", secret)] None;
      EvError [LStr (js "Failed to fetch subscribers:"); LNum (status r)]]).
Proof.
  intros Hdir Hst. unfold Part000.main. cbv zeta.
  unfold console_log at 1. rewrite bind_emit_prefix.
  rewrite (bind_directory_reply _ _ _ _ _ _ _ _ Hdir).
  replace (negb (status r =? 200)%Z) with true
    by (symmetry; apply negb_true_iff; now apply Z.eqb_neq).
  reflexivity.
Qed.

Lemma main_directory_rejected_sn directory provider hmac key url secret from subject
    template r :
  directory = Reply r -> status r <> 200%Z ->
  SendNewsletter.main directory provider hmac key url secret from subject template 0
  = (Exit 1%Z, 0%nat,
     [fetching_line;
      EvRequest (strip_trailing_slash url ++ js "/subscribers") GET
        [(js "X-API-Secret", secret)] None;
      EvError [LStr (js "Failed to fetch subscribers:"); LNum (status r)]]).
Proof.
  intros Hdir Hst. unfold SendNewsletter.main. cbv zeta.
  unfold console_log at 1. rewrite bind_emit_prefix.
  rewrite (bind_directory_reply _ _ _ _ _ _ _ _ Hdir).
  replace (negb (status r =? 200)%Z) with true
    by (symmetry; apply negb_true_iff; now apply Z.eqb_neq).
  reflexivity.
Qed.

Lemma main_directory_error directory provider hmac key url secret from subject template msg :
  directory = NetError msg ->
  Part000.main directory provider hmac key url secret from subject template 0
  = (Throw (NetworkError msg), 0%nat,
     [fetching_line;
      EvRequest (strip_trailing_slash url ++ js "/subscribers") GET
        [(js "X-API-Secret", secret)] None]).
Proof.
  intros Hdir. unfold Part000.main. cbv zeta.
  unfold console_log at 1. rewrite bind_emit_prefix.
  rewrite (bind_directory_error _ _ _ _ _ _ _ _ Hdir). reflexivity.
Qed.

Lemma main_directory_error_sn directory provider hmac key url secret from subject
    template msg :
  directory = NetError msg ->
  SendNewsletter.main directory provider hmac key url secret from subject template 0
  = (Throw (NetworkError msg), 0%nat,
     [fetching_line;
      EvRequest (strip_trailing_slash url ++ js "/subscribers") GET
        [(js "X-API-Secret", secret)] None]).
Proof.
  intros Hdir. unfold SendNewsletter.main. cbv zeta.
  unfold console_log at 1. rewrite bind_emit_prefix.
  rewrite (bind_directory_error _ _ _ _ _ _ _ _ Hdir). reflexivity.
Qed.



(** ** Validation and masking together *)

Lemma plain_not_at c : plain c -> c <> ch_at.
Proof.
  unfold plain, Part000.not_space_or_at. intros H ->.
  rewrite N.eqb_refl, orb_true_r in H. discriminate.
Qed.

Lemma plain_all_not_at s : Forall plain s -> ~ In ch_at s.
Proof.
  intros H Hin. rewrite Forall_forall in H. now apply (plain_not_at ch_at (H _ Hin)).
Qed.

Lemma str_index_last (loc : jsstring) :
  loc <> [] -> str_index loc (length loc - 1) = skipn (length loc - 1) loc.
Proof.
  intros Hne. destruct (exists_last Hne) as (l & x & ->).
  rewrite length_app. cbn [length]. replace (length l + 1 - 1)%nat with (length l) by lia.
  unfold str_index. rewrite nth_error_app2, Nat.sub_diag by lia. cbn [nth_error].
  rewrite skipn_app, Nat.sub_diag, skipn_all. reflexivity.
Qed.

Lemma masked_local_length loc : length (masked_local loc) = length loc.
Proof.
  unfold masked_local, stars. destruct (Nat.leb_spec (length loc) 2) as [Hle|Hgt].
  - apply repeat_length.
  - rewrite !length_app, repeat_length, length_firstn, length_skipn. lia.
Qed.

Lemma maskEmail_one_at loc dom :
  ~ In ch_at loc -> ~ In ch_at dom -> dom <> [] ->
  maskEmail (loc ++ ch_at :: dom) = masked_local loc ++ ch_at :: dom.
Proof.
  intros Hl Hd Hne.
  pose proof (maskEmail_pieces loc dom [] Hl Hd (or_introl eq_refl)) as H.
  rewrite app_nil_r in H. rewrite H.
  destruct dom as [|d0 dom']; [congruence|]. cbn [falsy].
  unfold masked_local. destruct (Nat.leb_spec (length loc) 2) as [Hle|Hgt]; [reflexivity|].
  rewrite str_index_last by (destruct loc; [cbn in Hgt; lia|discriminate]).
  destruct loc as [|c loc']; [cbn in Hgt; lia|].
  cbn [str_index nth_error firstn]. rewrite <- !app_assoc. reflexivity.
Qed.

(** X5.  An address that passes the validation of part_000 has exactly one
    [@]; its masked form is never the sentinel ["***"]: it is the masked
    local part, the [@] and the whole domain, and it is as long as the
    address.  So every recipient line of that script's log shows the full
    domain of the recipient. *)
Theorem valid_address_masked (s : jsstring) :
  Part000.isValidEmail s = true ->
  exists loc dom,
    s = loc ++ ch_at :: dom /\ ~ In ch_at loc /\ ~ In ch_at dom /\
    maskEmail s = masked_local loc ++ ch_at :: dom /\
    maskEmail s <> js "***" /\
    length (maskEmail s) = length s.
Proof.
  intros Hv. unfold Part000.isValidEmail in Hv.
  apply regex_test_spec, email_regex_lang in Hv.
  destruct Hv as (loc & a & b & -> & Hl & Ha & Hb & Fl & Fa & Fb).
  assert (Hloc : ~ In ch_at loc) by now apply plain_all_not_at.
  assert (Hdom : ~ In ch_at (a ++ ch_dot :: b)).
  { intros Hin. apply in_app_or in Hin. destruct Hin as [Hin|[Hin|Hin]].
    - now apply (plain_all_not_at a).
    - discriminate Hin.
    - now apply (plain_all_not_at b). }
  assert (Hne : a ++ ch_dot :: b <> []) by (destruct a; discriminate).
  exists loc, (a ++ ch_dot :: b).
  rewrite (maskEmail_one_at loc (a ++ ch_dot :: b) Hloc Hdom Hne).
  split; [reflexivity|]. split; [exact Hloc|]. split; [exact Hdom|].
  split; [reflexivity|]. split.
  - intros Heq. assert (Hin : In ch_at (js "***")).
    { rewrite <- Heq. apply in_or_app. right. now left. }
    cbn in Hin. unfold ch_at in Hin. intuition discriminate.
  - rewrite !length_app. cbn [length]. rewrite masked_local_length. reflexivity.
Qed.

Lemma valid_address_masked_witness :
  exists loc dom,
    js "alice@example.com" = loc ++ ch_at :: dom /\
    maskEmail (js "alice@example.com") = masked_local loc ++ ch_at :: dom.
Proof.
  destruct (valid_address_masked (js "alice@example.com") eq_refl)
    as (loc & dom & Hs & _ & _ & Hm & _).
  exists loc, dom. split; [exact Hs|exact Hm].
Defined.

(** ** The base URL *)

Lemma strip_app_slash u : strip_trailing_slash (u ++ [ch_slash]) = u.
Proof.
  induction u as [|c u IH]; [reflexivity|].
  cbn [app]. destruct u as [|c' u']; [reflexivity|].
  cbn [app strip_trailing_slash] in *. rewrite IH. reflexivity.
Qed.

Lemma strip_no_slash u : no_trailing_slash u -> strip_trailing_slash u = u.
Proof.
  unfold no_trailing_slash. induction u as [|c u IH]; intros H; [reflexivity|].
  destruct u as [|c' u'].
  - cbn. destruct (N.eqb_spec c ch_slash) as [->|_]; [|reflexivity].
    exfalso. now apply (H []).
  - cbn [strip_trailing_slash] in *. rewrite IH; [reflexivity|].
    intros v Hv. apply (H (c :: v)). cbn [app]. now rewrite Hv.
Qed.

(** X6.  A run does not depend on whether [WORKER_URL] is written with a
    trailing slash: for a non-empty base URL [u] without one, both scripts
    behave on [u/] exactly as on [u].  Only one slash is removed. *)
Theorem trailing_slash_is_irrelevant env fs directory provider hmac (u : jsstring) :
  u <> [] -> no_trailing_slash u ->
  Part000.script (with_worker_url env (u ++ [ch_slash])) fs directory provider hmac
  = Part000.script (with_worker_url env u) fs directory provider hmac /\
  SendNewsletter.script (with_worker_url env (u ++ [ch_slash])) fs directory provider hmac
  = SendNewsletter.script (with_worker_url env u) fs directory provider hmac /\
  strip_trailing_slash (u ++ [ch_slash; ch_slash]) = u ++ [ch_slash].
Proof.
  intros Hne Hns.
  assert (Hf : falsy (@Some jsstring (u ++ [ch_slash])) = falsy (@Some jsstring u)).
  { destruct u; [congruence|reflexivity]. }
  split; [|split].
  - unfold Part000.script, with_worker_url.
    cbn [env_RESEND_API_KEY env_WORKER_URL env_WORKER_SECRET env_RESEND_FROM
         env_EPISODE_DATE env_string].
    rewrite Hf. unfold Part000.main. rewrite strip_app_slash, (strip_no_slash u Hns).
    reflexivity.
  - unfold SendNewsletter.script, with_worker_url.
    cbn [env_RESEND_API_KEY env_WORKER_URL env_WORKER_SECRET env_RESEND_FROM
         env_EPISODE_DATE env_string].
    rewrite Hf. unfold SendNewsletter.main. rewrite strip_app_slash, (strip_no_slash u Hns).
    reflexivity.
  - change (u ++ [ch_slash; ch_slash]) with (u ++ [ch_slash] ++ [ch_slash]).
    rewrite app_assoc. apply strip_app_slash.
Qed.

Lemma trailing_slash_is_irrelevant_witness :
  Part000.script (with_worker_url sample_env (js "https://worker.example.com/"))
    sample_fs sample_directory unreachable_provider sample_hmac
  = Part000.script (with_worker_url sample_env (js "https://worker.example.com"))
      sample_fs sample_directory unreachable_provider sample_hmac.
Proof.
  assert (Hne : js "https://worker.example.com" <> []) by discriminate.
  assert (Hns : no_trailing_slash (js "https://worker.example.com")).
  { intros v Hv. apply (f_equal (@rev N)) in Hv. rewrite rev_app_distr in Hv.
    cbn in Hv. discriminate Hv. }
  exact (proj1 (trailing_slash_is_irrelevant sample_env sample_fs sample_directory
                  unreachable_provider sample_hmac (js "https://worker.example.com")
                  Hne Hns)).
Defined.

(** ** The payload builders *)

Lemma encodeURIComponent_well_formed :
  forall k s out, (length s <= k)%nat ->
    encodeURIComponent s = Some out -> well_formed_utf16 s = true.
Proof.
  induction k as [|k IH]; intros s out Hk He.
  - destruct s; [reflexivity|cbn in Hk; lia].
  - destruct s as [|c rest]; [reflexivity|].
    cbn [encodeURIComponent well_formed_utf16] in *. cbn [length] in Hk.
    destruct (uri_unescaped c) eqn:Hu.
    + assert (Hl : is_low_surrogate c = false).
      { unfold uri_unescaped, is_low_surrogate in *.
        destruct (N.leb_spec 56320 c); [|reflexivity].
        exfalso. revert Hu.
        repeat match goal with
               | |- context [(?a <=? ?b)%N] => destruct (N.leb_spec a b); try lia
               | |- context [(?a =? ?b)%N] => destruct (N.eqb_spec a b); try lia
               end; cbn; discriminate. }
      assert (Hh : is_high_surrogate c = false).
      { unfold uri_unescaped, is_high_surrogate in *.
        destruct (N.leb_spec 55296 c); [|reflexivity].
        exfalso. revert Hu.
        repeat match goal with
               | |- context [(?a <=? ?b)%N] => destruct (N.leb_spec a b); try lia
               | |- context [(?a =? ?b)%N] => destruct (N.eqb_spec a b); try lia
               end; cbn; discriminate. }
      rewrite Hl, Hh.
      destruct (encodeURIComponent rest) as [o|] eqn:Hr; [|discriminate].
      apply (IH rest o); [lia|exact Hr].
    + destruct (is_low_surrogate c); [discriminate|].
      destruct (is_high_surrogate c).
      * destruct rest as [|d rest']; [discriminate|].
        destruct (is_low_surrogate d); [|discriminate]. cbn [andb length] in *.
        destruct (encodeURIComponent rest') as [o|] eqn:Hr; [|discriminate].
        apply (IH rest' o); [lia|exact Hr].
      * destruct (encodeURIComponent rest) as [o|] eqn:Hr; [|discriminate].
        apply (IH rest o); [lia|exact Hr].
Qed.

Lemma encodeURIComponent_fails_iff s :
  encodeURIComponent s = None <-> well_formed_utf16 s = false.
Proof.
  split; intros H.
  - destruct (well_formed_utf16 s) eqn:Hw; [|reflexivity].
    destruct (encodeURIComponent_total (length s) s (le_n _) Hw) as (out & Ho). congruence.
  - destruct (encodeURIComponent s) as [out|] eqn:He; [|reflexivity].
    rewrite (encodeURIComponent_well_formed (length s) s out (le_n _) He) in H. discriminate.
Qed.

Lemma marker_not_empty : marker <> [].
Proof. discriminate. Qed.

(** X7.  A template that does not contain the marker is sent as it is to
    every recipient whose address can be encoded, whatever the base URL
    (also one with [$] or braces in it); the two scripts build the same
    message. *)
Theorem template_without_marker_unchanged
    hmac secret from subject template (sub : Subscriber) workerUrl :
  includes marker template = false ->
  well_formed_utf16 (email sub) = true ->
  Part000.buildEmailPayload hmac secret from subject template sub workerUrl
  = Some {| msg_from := from; msg_to := email sub; msg_subject := subject;
            msg_html := template |} /\
  SendNewsletter.build_email hmac secret from subject template workerUrl sub
  = Some {| msg_from := from; msg_to := email sub; msg_subject := subject;
            msg_html := template |}.
Proof.
  intros Hm Hw.
  destruct (encodeURIComponent_total (length (email sub)) (email sub) (le_n _) Hw)
    as (enc & He).
  unfold Part000.buildEmailPayload, SendNewsletter.build_email. rewrite He. cbv zeta.
  unfold replace_global.
  split; rewrite (replace_marker_free marker _ template [] marker_not_empty Hm);
    reflexivity.
Qed.

Lemma template_without_marker_unchanged_witness :
  Part000.buildEmailPayload sample_hmac (js "secret") default_from (js "News")
    (js "<p>No link today</p>") {| email := js "alice@example.com" |} (js "https://w.test/$&")
  = Some {| msg_from := default_from; msg_to := js "alice@example.com";
            msg_subject := js "News"; msg_html := js "<p>No link today</p>" |}.
Proof.
  exact (proj1 (template_without_marker_unchanged sample_hmac (js "secret") default_from
                  (js "News") (js "<p>No link today</p>")
                  {| email := js "alice@example.com" |} (js "https://w.test/$&")
                  eq_refl eq_refl)).
Defined.

(** X8.  Building the message of a subscriber fails (with the URIError of
    encodeURIComponent) exactly when the address holds an unpaired
    surrogate; the inline builder of send-newsletter.js and
    buildEmailPayload of part_000 give the same result; and a message that
    is built is addressed to the subscriber's address as it is, with the
    configured sender and subject. *)
Theorem payload_built_iff_well_formed :
  forall hmac secret from subject template (sub : Subscriber) workerUrl,
    (Part000.buildEmailPayload hmac secret from subject template sub workerUrl = None
     <-> well_formed_utf16 (email sub) = false) /\
    SendNewsletter.build_email hmac secret from subject template workerUrl sub
    = Part000.buildEmailPayload hmac secret from subject template sub workerUrl /\
    (forall msg,
       Part000.buildEmailPayload hmac secret from subject template sub workerUrl = Some msg ->
       msg_to msg = email sub /\ msg_from msg = from /\ msg_subject msg = subject).
Proof.
  intros hmac secret from subject template sub workerUrl.
  split; [|split].
  - rewrite <- encodeURIComponent_fails_iff. unfold Part000.buildEmailPayload.
    destruct (encodeURIComponent (email sub)); split; intros H;
      first [reflexivity|discriminate].
  - reflexivity.
  - unfold Part000.buildEmailPayload. intros msg H.
    destruct (encodeURIComponent (email sub)); [|discriminate].
    injection H as <-. repeat split.
Qed.

(** ** The whole run, from the result of the delivery loop *)

Lemma main_run directory provider hmac key url secret from subject template subs :
  directory = Reply {| status := 200; data := subs |} ->
  valid_subscribers subs <> [] ->
  Part000.main directory provider hmac key url secret from subject template 0
  = with_prefix
      ([fetching_line;
        EvRequest (strip_trailing_slash url ++ js "/subscribers") GET
          [(js "X-API-Secret", secret)] None;
        found_line subs] ++ skipping_line subs)
      match map_opt (fun sub => Part000.buildEmailPayload hmac secret from subject template
                                  sub (strip_trailing_slash url))
                    (valid_subscribers subs) with
      | None => (Throw URIError, 0%nat, [])
      | Some allEmails =>
          match Part000.deliver_from provider key allEmails 0 0 0 0 with
          | (Ok (sent, failed), n, t) =>
              (if (0 <? failed)%nat then Exit 1%Z else Ok tt, n,
               t ++ [done_line sent failed (length (valid_subscribers subs))])
          | (Throw e, n, t) => (Throw e, n, t)
          | (Exit c, n, t) => (Exit c, n, t)
          end
      end.
Proof.
  intros Hdir Hvalid. unfold Part000.main. cbv zeta.
  unfold console_log at 1. rewrite bind_emit_prefix.
  rewrite (bind_directory_reply _ _ _ _ _ _ _ _ Hdir). cbn [status data].
  change (negb (200 =? 200)%Z) with false. cbv iota.
  unfold console_log at 1. rewrite bind_emit_prefix.
  fold (valid_subscribers subs).
  rewrite (bind_ok_prefix _ _ _ _ _ _ _ _ (optional_line_run _ _ 0)).
  rewrite !with_prefix_twice. f_equal.
  destruct (Nat.eqb_spec (length (valid_subscribers subs)) 0) as [Hz|_].
  { destruct (valid_subscribers subs); [congruence|discriminate]. }
  destruct (map_opt _ (valid_subscribers subs)) as [allEmails|]; [|reflexivity].
  unfold lift_uri. rewrite bind_ret, bind_run.
  destruct (Part000.deliver_from provider key allEmails 0 0 0 0) as [[[[s f]|e|c] n] t];
    try reflexivity.
  unfold console_log. rewrite bind_emit. cbn [fst snd].
  destruct (0 <? f)%nat; reflexivity.
Qed.

Lemma catch_prefixed (m : M unit) n pre r n1 t :
  m n = with_prefix pre (r, n1, t) ->
  catch m (fun err => console_error [LErr err] ;; process_exit 1) n
  = match r with
    | Throw e => (Exit 1%Z, n1, pre ++ t ++ [caught_line e])
    | other => (other, n1, pre ++ t)
    end.
Proof.
  unfold catch, with_prefix. intros ->.
  destruct r as [a|e|c]; try reflexivity.
  cbn. rewrite <- ?app_assoc. reflexivity.
Qed.

Lemma script_run env fs directory provider hmac template subs :
  config_present env ->
  fs (email_path (env_string (env_EPISODE_DATE env))) = Some template ->
  directory = Reply {| status := 200; data := subs |} ->
  valid_subscribers subs <> [] ->
  Part000.script env fs directory provider hmac 0
  = match built_payloads env hmac template subs with
    | None => (Exit 1%Z, 0%nat, preamble env subs ++ [caught_line URIError])
    | Some allEmails =>
        match Part000.deliver_from provider (env_string (env_RESEND_API_KEY env))
                allEmails 0 0 0 0 with
        | (Ok (sent, failed), n, t) =>
            (if (0 <? failed)%nat then Exit 1%Z else Ok tt, n,
             preamble env subs
             ++ t ++ [done_line sent failed (length (valid_subscribers subs))])
        | (Throw e, n, t) => (Exit 1%Z, n, preamble env subs ++ t ++ [caught_line e])
        | (Exit c, n, t) => (Exit c, n, preamble env subs ++ t)
        end
    end.
Proof.
  intros Hcfg Hfs Hdir Hvalid.
  unfold Part000.script. unfold config_present in Hcfg. rewrite Hcfg. cbv zeta.
  rewrite Hfs.
  pose proof (main_run directory provider hmac (env_string (env_RESEND_API_KEY env))
                (env_string (env_WORKER_URL env)) (env_string (env_WORKER_SECRET env))
                (or_default (env_RESEND_FROM env) default_from)
                (subject_prefix ++ env_string (env_EPISODE_DATE env))
                template subs Hdir Hvalid) as Hmain.
  unfold built_payloads, preamble, directory_request.
  destruct (map_opt _ (valid_subscribers subs)) as [allEmails|];
    [|exact (catch_prefixed _ _ _ _ _ _ Hmain)].
  destruct (Part000.deliver_from provider (env_string (env_RESEND_API_KEY env))
              allEmails 0 0 0 0) as [[[[s f]|e|c] n] t];
    rewrite (catch_prefixed _ _ _ _ _ _ Hmain); try reflexivity.
  destruct (0 <? f)%nat; reflexivity.
Qed.

Lemma main_run_sn directory provider hmac key url secret from subject template subs :
  directory = Reply {| status := 200; data := subs |} ->
  subs <> [] ->
  SendNewsletter.main directory provider hmac key url secret from subject template 0
  = with_prefix
      [fetching_line;
       EvRequest (strip_trailing_slash url ++ js "/subscribers") GET
         [(js "X-API-Secret", secret)] None;
       found_line subs]
      match map_opt (SendNewsletter.build_email hmac secret from subject template
                       (strip_trailing_slash url)) subs with
      | None => (Throw URIError, 0%nat, [])
      | Some allEmails =>
          match SendNewsletter.deliver_from provider key allEmails 0 0 0 0 with
          | (Ok (sent, failed), n, t) =>
              (if (0 <? failed)%nat then Exit 1%Z else Ok tt, n,
               t ++ [done_line sent failed (length subs)])
          | (Throw e, n, t) => (Throw e, n, t)
          | (Exit c, n, t) => (Exit c, n, t)
          end
      end.
Proof.
  intros Hdir Hne. unfold SendNewsletter.main. cbv zeta.
  unfold console_log at 1. rewrite bind_emit_prefix.
  rewrite (bind_directory_reply _ _ _ _ _ _ _ _ Hdir). cbn [status data].
  change (negb (200 =? 200)%Z) with false. cbv iota.
  unfold console_log at 1. rewrite bind_emit_prefix.
  rewrite !with_prefix_twice. f_equal.
  destruct (Nat.eqb_spec (length subs) 0) as [Hz|_].
  { destruct subs; [congruence|discriminate]. }
  destruct (map_opt _ subs) as [allEmails|]; [|reflexivity].
  unfold lift_uri. rewrite bind_ret, bind_run.
  destruct (SendNewsletter.deliver_from provider key allEmails 0 0 0 0)
    as [[[[s f]|e|c] n] t]; try reflexivity.
  unfold console_log. rewrite bind_emit. cbn [fst snd].
  destruct (0 <? f)%nat; reflexivity.
Qed.

Lemma script_run_sn env fs directory provider hmac template subs :
  config_present env ->
  fs (email_path (env_string (env_EPISODE_DATE env))) = Some template ->
  directory = Reply {| status := 200; data := subs |} ->
  subs <> [] ->
  SendNewsletter.script env fs directory provider hmac 0
  = match built_payloads_sn env hmac template subs with
    | None => (Exit 1%Z, 0%nat, preamble_sn env subs ++ [caught_line URIError])
    | Some allEmails =>
        match SendNewsletter.deliver_from provider (env_string (env_RESEND_API_KEY env))
                allEmails 0 0 0 0 with
        | (Ok (sent, failed), n, t) =>
            (if (0 <? failed)%nat then Exit 1%Z else Ok tt, n,
             preamble_sn env subs ++ t ++ [done_line sent failed (length subs)])
        | (Throw e, n, t) => (Exit 1%Z, n, preamble_sn env subs ++ t ++ [caught_line e])
        | (Exit c, n, t) => (Exit c, n, preamble_sn env subs ++ t)
        end
    end.
Proof.
  intros Hcfg Hfs Hdir Hne.
  unfold SendNewsletter.script. unfold config_present in Hcfg. rewrite Hcfg. cbv zeta.
  rewrite Hfs.
  pose proof (main_run_sn directory provider hmac (env_string (env_RESEND_API_KEY env))
                (env_string (env_WORKER_URL env)) (env_string (env_WORKER_SECRET env))
                (or_default (env_RESEND_FROM env) default_from)
                (subject_prefix ++ env_string (env_EPISODE_DATE env))
                template subs Hdir Hne) as Hmain.
  unfold built_payloads_sn, preamble_sn, directory_request.
  destruct (map_opt _ subs) as [allEmails|];
    [|exact (catch_prefixed _ _ _ _ _ _ Hmain)].
  destruct (SendNewsletter.deliver_from provider (env_string (env_RESEND_API_KEY env))
              allEmails 0 0 0 0) as [[[[s f]|e|c] n] t];
    rewrite (catch_prefixed _ _ _ _ _ _ Hmain); try reflexivity.
  destruct (0 <? f)%nat; reflexivity.
Qed.

Lemma map_opt_None (A B : Type) (f : A -> option B) (l : list A) (x : A) :
  In x l -> f x = None -> map_opt f l = None.
Proof.
  intros Hin Hx. induction l as [|a l IH]; [contradiction|].
  cbn [map_opt]. destruct Hin as [->|Hin].
  - now rewrite Hx.
  - destruct (f a); [|reflexivity]. now rewrite (IH Hin).
Qed.

Lemma map_opt_Some (A B : Type) (f : A -> option B) :
  forall (l : list A) (l' : list B),
    map_opt f l = Some l' -> Forall2 (fun a b => f a = Some b) l l'.
Proof.
  induction l as [|a l IH]; cbn [map_opt]; intros l' H.
  - injection H as <-. constructor.
  - destruct (f a) as [b|] eqn:Hb; [|discriminate].
    destruct (map_opt f l) as [bs|]; [|discriminate].
    injection H as <-. constructor; [exact Hb|now apply IH].
Qed.

(** ** An address that cannot be encoded *)

(** X9.  One subscriber address with an unpaired surrogate stops the run
    for everyone: the URIError of encodeURIComponent leaves the building of
    the payloads, main().catch prints it and the process exits with status
    1 before any request to the provider.  In part_000 the address must
    pass the validation to have this effect; send-newsletter.js has no
    validation. *)
Theorem unpaired_surrogate_stops_the_run
    env fs directory provider hmac template subs (sub : Subscriber) :
  config_present env ->
  fs (email_path (env_string (env_EPISODE_DATE env))) = Some template ->
  directory = Reply {| status := 200; data := subs |} ->
  In sub subs ->
  well_formed_utf16 (email sub) = false ->
  (Part000.isValidEmail (email sub) = true ->
   Part000.script env fs directory provider hmac 0
   = (Exit 1%Z, 0%nat, preamble env subs ++ [caught_line URIError])) /\
  SendNewsletter.script env fs directory provider hmac 0
  = (Exit 1%Z, 0%nat, preamble_sn env subs ++ [caught_line URIError]).
Proof.
  intros Hcfg Hfs Hdir Hin Hw. apply encodeURIComponent_fails_iff in Hw. split.
  - intros Hv.
    assert (Hin' : In sub (valid_subscribers subs)).
    { unfold valid_subscribers. apply filter_In. now split. }
    rewrite (script_run env fs directory provider hmac template subs Hcfg Hfs Hdir)
      by (intros He; rewrite He in Hin'; contradiction).
    unfold built_payloads. rewrite (map_opt_None _ _ _ _ sub Hin'); [reflexivity|].
    unfold Part000.buildEmailPayload. now rewrite Hw.
  - rewrite (script_run_sn env fs directory provider hmac template subs Hcfg Hfs Hdir)
      by (intros He; rewrite He in Hin; contradiction).
    unfold built_payloads_sn. rewrite (map_opt_None _ _ _ _ sub Hin); [reflexivity|].
    unfold SendNewsletter.build_email. now rewrite Hw.
Qed.

Lemma unpaired_surrogate_stops_the_run_witness :
  Part000.isValidEmail broken_address = true /\
  Part000.script sample_env sample_fs
    (Reply {| status := 200;
              data := [ {| email := js "alice@example.com" |};
                        {| email := broken_address |} ] |})
    (scripted [] JNull) sample_hmac 0
  = (Exit 1%Z, 0%nat,
     preamble sample_env [ {| email := js "alice@example.com" |};
                           {| email := broken_address |} ]
     ++ [caught_line URIError]).
Proof.
  split; [reflexivity|].
  apply (proj1 (unpaired_surrogate_stops_the_run sample_env sample_fs
                  (Reply {| status := 200;
                            data := [ {| email := js "alice@example.com" |};
                                      {| email := broken_address |} ] |})
                  (scripted [] JNull) sample_hmac sample_template
                  [ {| email := js "alice@example.com" |}; {| email := broken_address |} ]
                  {| email := broken_address |}
                  eq_refl eq_refl eq_refl (or_intror (or_introl eq_refl)) eq_refl)).
  reflexivity.
Defined.

(** ** A run in which the provider accepts every batch *)

Lemma deliver_accepted provider key allEmails n :
  always_accepts provider ->
  exists t,
    Part000.deliver_from provider key allEmails 0 0 0 n
    = (Ok (length allEmails, 0%nat), (n + length (batches allEmails))%nat, t) /\
    SendNewsletter.deliver_from provider key allEmails 0 0 0 n
    = Part000.deliver_from provider key allEmails 0 0 0 n /\
    payloads_of batch_url t = map PBatch (batches allEmails) /\
    payloads_of single_url t = [].
Proof.
  intros Hacc.
  destruct (run_at_accepted provider key allEmails Hacc
              (loop_indices (length allEmails) 0) 0 0 n) as (t & Hrun & Hsn & Hb & Hs).
  exists t.
  rewrite (deliver_from_run_at provider key allEmails _ 0 0 0 n eq_refl).
  rewrite (deliver_from_run_at_sn provider key allEmails _ 0 0 0 n eq_refl).
  split; [|split; [exact Hsn|split; [|exact Hs]]].
  - rewrite Hrun, batch_sizes_sum. unfold batches. rewrite length_map. reflexivity.
  - rewrite Hb. unfold batches. now rewrite map_map.
Qed.

Lemma concat_batches (allEmails : list EmailMessage) : concat (batches allEmails) = allEmails.
Proof.
  destruct (loop_indices_facts allEmails (length allEmails - 0) 0 eq_refl) as [_ Hcat].
  exact Hcat.
Qed.

Lemma built_recipients (f : Subscriber -> option EmailMessage) :
  (forall sub msg, f sub = Some msg -> msg_to msg = email sub) ->
  forall subs allEmails,
    map_opt f subs = Some allEmails -> map msg_to allEmails = map email subs.
Proof.
  intros Hf subs allEmails H. apply map_opt_Some in H.
  induction H as [|sub msg subs' msgs Hb _ IH]; [reflexivity|].
  cbn [map]. now rewrite (Hf _ _ Hb), IH.
Qed.

Lemma buildEmailPayload_to hmac secret from subject template workerUrl sub msg :
  Part000.buildEmailPayload hmac secret from subject template sub workerUrl = Some msg ->
  msg_to msg = email sub.
Proof.
  unfold Part000.buildEmailPayload.
  destruct (encodeURIComponent (email sub)); [|discriminate].
  intros H. injection H as <-. reflexivity.
Qed.

Lemma payloads_of_preamble url env subs : payloads_of url (preamble env subs) = [].
Proof.
  unfold preamble, skipping_line.
  destruct (0 <? length (invalid_subscribers subs))%nat; reflexivity.
Qed.

Lemma payloads_of_preamble_sn url env subs : payloads_of url (preamble_sn env subs) = [].
Proof. reflexivity. Qed.

(** X10.  When the directory answers and the provider accepts every batch,
    the run ends normally (status 0) after one request for each batch and no
    request for a single message; the messages sent are addressed, in the
    order of the directory, to the subscribers with a valid address in
    part_000 and to every subscriber in send-newsletter.js, each of them
    once; and the last line reports them all as sent and none as failed. *)
Theorem accepted_run_reaches_every_subscriber
    env fs directory provider hmac template subs :
  config_present env ->
  fs (email_path (env_string (env_EPISODE_DATE env))) = Some template ->
  directory = Reply {| status := 200; data := subs |} ->
  always_accepts provider ->
  (forall allEmails,
     valid_subscribers subs <> [] ->
     built_payloads env hmac template subs = Some allEmails ->
     exists t,
       Part000.script env fs directory provider hmac 0
       = (Ok tt, length (batches allEmails), t) /\
       payloads_of batch_url t = map PBatch (batches allEmails) /\
       payloads_of single_url t = [] /\
       map msg_to (concat (batches allEmails)) = map email (valid_subscribers subs) /\
       last t fetching_line
       = done_line (length (valid_subscribers subs)) 0 (length (valid_subscribers subs))) /\
  (forall allEmails,
     subs <> [] ->
     built_payloads_sn env hmac template subs = Some allEmails ->
     exists t,
       SendNewsletter.script env fs directory provider hmac 0
       = (Ok tt, length (batches allEmails), t) /\
       payloads_of batch_url t = map PBatch (batches allEmails) /\
       payloads_of single_url t = [] /\
       map msg_to (concat (batches allEmails)) = map email subs /\
       last t fetching_line = done_line (length subs) 0 (length subs)).
Proof.
  intros Hcfg Hfs Hdir Hacc. split.
  - intros allEmails Hvalid Hbuild.
    rewrite (script_run env fs directory provider hmac template subs Hcfg Hfs Hdir Hvalid).
    rewrite Hbuild.
    destruct (deliver_accepted provider (env_string (env_RESEND_API_KEY env)) allEmails 0 Hacc)
      as (t & Hrun & _ & Hb & Hs).
    rewrite Hrun. cbn [Nat.ltb Nat.leb Nat.add].
    assert (Hto : map msg_to allEmails = map email (valid_subscribers subs)).
    { unfold built_payloads in Hbuild. revert Hbuild. apply built_recipients.
      intros sub msg. apply buildEmailPayload_to. }
    assert (Hlen : length allEmails = length (valid_subscribers subs)).
    { rewrite <- (length_map msg_to), Hto. apply length_map. }
    eexists. split; [reflexivity|].
    rewrite !payloads_of_app, !payloads_of_preamble, Hb, Hs, concat_batches, Hto.
    cbn [app payloads_of flat_map]. rewrite app_nil_r.
    repeat split. rewrite app_assoc, last_last, Hlen. reflexivity.
  - intros allEmails Hne Hbuild.
    rewrite (script_run_sn env fs directory provider hmac template subs Hcfg Hfs Hdir Hne).
    rewrite Hbuild.
    destruct (deliver_accepted provider (env_string (env_RESEND_API_KEY env)) allEmails 0 Hacc)
      as (t & Hrun & Hsn & Hb & Hs).
    rewrite Hsn, Hrun. cbn [Nat.ltb Nat.leb Nat.add].
    assert (Hto : map msg_to allEmails = map email subs).
    { unfold built_payloads_sn in Hbuild. revert Hbuild. apply built_recipients.
      intros sub msg. unfold SendNewsletter.build_email.
      destruct (encodeURIComponent (email sub)); [|discriminate].
      intros H. injection H as <-. reflexivity. }
    assert (Hlen : length allEmails = length subs).
    { rewrite <- (length_map msg_to), Hto. apply length_map. }
    eexists. split; [reflexivity|].
    rewrite !payloads_of_app, !payloads_of_preamble_sn, Hb, Hs, concat_batches, Hto.
    cbn [app payloads_of flat_map]. rewrite app_nil_r.
    repeat split. rewrite app_assoc, last_last, Hlen. reflexivity.
Qed.

Lemma accepted_run_reaches_every_subscriber_witness :
  exists t,
    Part000.script sample_env sample_fs sample_directory (scripted [] JNull) sample_hmac 0
    = (Ok tt, 1%nat, t) /\
    payloads_of batch_url t = [PBatch sample_payloads] /\
    map msg_to sample_payloads = [js "alice@example.com"; js "bob@example.org"].
Proof.
  destruct (accepted_run_reaches_every_subscriber sample_env sample_fs sample_directory
              (scripted [] JNull) sample_hmac sample_template
              [ {| email := js "alice@example.com" |};
                {| email := js "not-an-address" |};
                {| email := js "bob@example.org" |} ]
              eq_refl eq_refl eq_refl (scripted_accepts JNull)) as [H _].
  destruct (H sample_payloads) as (t & Hrun & Hb & _ & Hto & _).
  - vm_compute. discriminate.
  - vm_compute. reflexivity.
  - exists t. split; [exact Hrun|]. split.
    + rewrite Hb. vm_compute. reflexivity.
    + vm_compute. reflexivity.
Defined.

(** ** The number of requests of the delivery loop *)

Lemma bind_within (A B : Type) (m : M A) (k : A -> M B) n nb1 ns1 nb2 ns2 nb ns :
  within_budget nb1 ns1 n (m n) ->
  (forall a n1, within_budget nb2 ns2 n1 (k a n1)) ->
  (nb1 + nb2 <= nb)%nat -> (ns1 + ns2 <= ns)%nat ->
  within_budget nb ns n (bind m k n).
Proof.
  unfold within_budget, bind. intros (Hb & Hs & Hn) Hk Hnb Hns.
  destruct (m n) as [[[a|e|c] n1] t1]; cbn [fst snd] in *; try lia.
  specialize (Hk a n1). destruct (k a n1) as [[r n2] t2]. cbn [fst snd] in *.
  rewrite !payloads_of_app, !length_app. lia.
Qed.

Lemma within_mono (A : Type) (x : Res A * nat * list Event) n nb ns nb' ns' :
  within_budget nb ns n x -> (nb <= nb')%nat -> (ns <= ns')%nat ->
  within_budget nb' ns' n x.
Proof. unfold within_budget. intros (Hb & Hs & Hn) Hnb Hns. lia. Qed.

Lemma silent_within (A : Type) (a : A) n t :
  payloads_of batch_url t = [] -> payloads_of single_url t = [] ->
  within_budget 0 0 n (Ok a, n, t).
Proof. unfold within_budget. cbn [fst snd]. intros -> ->. cbn. lia. Qed.

Lemma emit_within ev n :
  is_console ev \/ (exists ms, ev = EvSleep ms) -> within_budget 0 0 n (emit ev n).
Proof.
  intros H. unfold emit. apply silent_within.
  - destruct H as [H|[ms ->]]; [|reflexivity]. destruct ev; try contradiction; reflexivity.
  - destruct H as [H|[ms ->]]; [|reflexivity]. destruct ev; try contradiction; reflexivity.
Qed.

Lemma console_log_within args n : within_budget 0 0 n (console_log args n).
Proof. apply emit_within. left. exact I. Qed.

Lemma console_error_within args n : within_budget 0 0 n (console_error args n).
Proof. apply emit_within. left. exact I. Qed.

Lemma sleep_within ms n : within_budget 0 0 n (sleep ms n).
Proof. apply emit_within. right. now exists ms. Qed.

Lemma sendBatch_within provider key emails n :
  within_budget 3 0 n (Part000.sendBatch provider key emails 3 n).
Proof.
  unfold Part000.sendBatch.
  destruct (sendBatch_from_shape provider key emails 3 _ 1%Z n eq_refl ltac:(lia))
    as (k & Hk & Hn & _ & Hb & Hs).
  unfold within_budget. rewrite Hn, Hb, Hs, repeat_length. simpl. lia.
Qed.

Lemma sendSingle_within provider key e n :
  within_budget 0 3 n (Part000.sendSingle provider key e 3 n).
Proof.
  unfold Part000.sendSingle.
  destruct (sendSingle_from_shape provider key e 3 _ 1%Z n eq_refl ltac:(lia))
    as (k & Hk & Hn & _ & Hs & Hb).
  unfold within_budget. rewrite Hn, Hb, Hs, repeat_length. simpl. lia.
Qed.

Lemma fallback_within provider key batch :
  forall sent failed n,
    within_budget 0 (3 * length batch) n (Part000.fallback provider key batch sent failed n).
Proof.
  induction batch as [|e batch IH]; intros sent failed n.
  - now apply silent_within.
  - cbn [Part000.fallback].
    apply bind_within with (nb1 := 0%nat) (ns1 := 3%nat) (nb2 := 0%nat)
                           (ns2 := (3 * length batch)%nat);
      [apply sendSingle_within| |lia|simpl; lia].
    intros r n1.
    apply bind_within with (nb1 := 0%nat) (ns1 := 0%nat) (nb2 := 0%nat)
                           (ns2 := (3 * length batch)%nat); [| |lia|lia].
    { destruct (success r).
      - apply bind_within with (nb1 := 0%nat) (ns1 := 0%nat) (nb2 := 0%nat) (ns2 := 0%nat);
          [apply console_log_within| |lia|lia].
        intros. now apply silent_within.
      - apply bind_within with (nb1 := 0%nat) (ns1 := 0%nat) (nb2 := 0%nat) (ns2 := 0%nat);
          [apply console_error_within| |lia|lia].
        intros. now apply silent_within. }
    intros counts n2.
    apply bind_within with (nb1 := 0%nat) (ns1 := 0%nat) (nb2 := 0%nat)
                           (ns2 := (3 * length batch)%nat);
      [apply sleep_within| |lia|lia].
    intros _ n3. apply IH.
Qed.

Lemma pause_within (allEmails : list EmailMessage) i n :
  within_budget 0 0 n
    ((if (i + BATCH_SIZE <? length allEmails)%nat then sleep 1000 else ret tt) n).
Proof.
  destruct (i + BATCH_SIZE <? length allEmails)%nat;
    [apply sleep_within|now apply silent_within].
Qed.

Lemma loop_body_within provider key allEmails i sent failed n :
  within_budget 3 (3 * length (slice i (i + BATCH_SIZE) allEmails)) n
    (Part000.loop_body provider key allEmails i sent failed n).
Proof.
  unfold Part000.loop_body. cbv zeta.
  set (batch := slice i (i + BATCH_SIZE) allEmails).
  apply bind_within with (nb1 := 0%nat) (ns1 := 0%nat) (nb2 := 3%nat)
                         (ns2 := (3 * length batch)%nat);
    [apply console_log_within| |lia|lia].
  intros _ n0.
  apply bind_within with (nb1 := 3%nat) (ns1 := 0%nat) (nb2 := 0%nat)
                         (ns2 := (3 * length batch)%nat);
    [apply sendBatch_within| |lia|lia].
  intros r n1.
  apply bind_within with (nb1 := 0%nat) (ns1 := (3 * length batch)%nat) (nb2 := 0%nat)
                         (ns2 := 0%nat); [| |lia|lia].
  { destruct (success r).
    - apply bind_within with (nb1 := 0%nat) (ns1 := 0%nat) (nb2 := 0%nat) (ns2 := 0%nat);
        [| |lia|lia].
      + rewrite log_sent_trace. apply silent_within; apply payloads_of_sent_lines.
      + intros. now apply silent_within.
    - apply bind_within with (nb1 := 0%nat) (ns1 := 0%nat) (nb2 := 0%nat)
                             (ns2 := (3 * length batch)%nat);
        [apply console_log_within| |lia|lia].
      intros. apply fallback_within. }
  intros counts n2.
  apply bind_within with (nb1 := 0%nat) (ns1 := 0%nat) (nb2 := 0%nat) (ns2 := 0%nat);
    [apply pause_within| |lia|lia].
  intros. now apply silent_within.
Qed.

Lemma payloads_of_failed_lines url batch : payloads_of url (map failed_for_line batch) = [].
Proof. induction batch as [|e batch IH]; [reflexivity|exact IH]. Qed.

Lemma loop_body_within_sn provider key allEmails i sent failed n :
  within_budget 3 0 n (SendNewsletter.loop_body provider key allEmails i sent failed n).
Proof.
  unfold SendNewsletter.loop_body. cbv zeta.
  apply bind_within with (nb1 := 0%nat) (ns1 := 0%nat) (nb2 := 3%nat) (ns2 := 0%nat);
    [apply console_log_within| |lia|lia].
  intros _ n0.
  apply bind_within with (nb1 := 3%nat) (ns1 := 0%nat) (nb2 := 0%nat) (ns2 := 0%nat);
    [rewrite sendBatch_same_run; apply sendBatch_within| |lia|lia].
  intros r n1.
  apply bind_within with (nb1 := 0%nat) (ns1 := 0%nat) (nb2 := 0%nat) (ns2 := 0%nat);
    [| |lia|lia].
  { destruct (success r).
    - apply bind_within with (nb1 := 0%nat) (ns1 := 0%nat) (nb2 := 0%nat) (ns2 := 0%nat);
        [| |lia|lia].
      + rewrite log_sent_trace_sn. apply silent_within; apply payloads_of_sent_lines.
      + intros. now apply silent_within.
    - apply bind_within with (nb1 := 0%nat) (ns1 := 0%nat) (nb2 := 0%nat) (ns2 := 0%nat);
        [apply console_error_within| |lia|lia].
      intros _ n2.
      apply bind_within with (nb1 := 0%nat) (ns1 := 0%nat) (nb2 := 0%nat) (ns2 := 0%nat);
        [| |lia|lia].
      + rewrite log_failed_trace. apply silent_within; apply payloads_of_failed_lines.
      + intros. now apply silent_within. }
  intros counts n2.
  apply bind_within with (nb1 := 0%nat) (ns1 := 0%nat) (nb2 := 0%nat) (ns2 := 0%nat);
    [apply pause_within| |lia|lia].
  intros. now apply silent_within.
Qed.

Lemma run_at_within (body : nat -> nat -> nat -> M (nat * nat)) (size : nat -> nat) :
  (forall i s f n, within_budget 3 (3 * size i) n (body i s f n)) ->
  forall indices sent failed n,
    within_budget (3 * length indices) (3 * list_sum (map size indices)) n
      (run_at body indices sent failed n).
Proof.
  intros Hbody. induction indices as [|i indices IH]; intros sent failed n.
  - now apply silent_within.
  - cbn [run_at].
    apply bind_within with (nb1 := 3%nat) (ns1 := (3 * size i)%nat)
                           (nb2 := (3 * length indices)%nat)
                           (ns2 := (3 * list_sum (map size indices))%nat);
      [apply Hbody| |simpl; lia|].
    + intros counts n1. apply IH.
    + unfold list_sum. cbn [map fold_right]. lia.
Qed.

(** X11.  Whatever the provider does, the delivery loop of part_000 makes
    at most three requests to the batch endpoint for each batch and at most
    three requests to the endpoint for single messages for each message,
    and no other request to the provider; the loop of send-newsletter.js
    makes at most three requests for each batch and none for a single
    message. *)
Theorem delivery_request_budget :
  forall provider key (allEmails : list EmailMessage) (n : nat),
    within_budget (3 * length (batches allEmails)) (3 * length allEmails) n
      (Part000.deliver_from provider key allEmails 0 0 0 n) /\
    within_budget (3 * length (batches allEmails)) 0 n
      (SendNewsletter.deliver_from provider key allEmails 0 0 0 n).
Proof.
  intros provider key allEmails n. split.
  - rewrite (deliver_from_run_at provider key allEmails _ 0 0 0 n eq_refl).
    unfold batches. rewrite length_map.
    rewrite <- (batch_sizes_sum allEmails) at 2.
    apply run_at_within. intros. apply loop_body_within.
  - rewrite (deliver_from_run_at_sn provider key allEmails _ 0 0 0 n eq_refl).
    unfold batches. rewrite length_map.
    apply within_mono
      with (nb := (3 * length (loop_indices (length allEmails) 0))%nat)
           (ns := (3 * list_sum (map (fun _ => 0%nat)
                                   (loop_indices (length allEmails) 0)))%nat);
      [|lia|].
    + apply run_at_within. intros. apply loop_body_within_sn.
    + generalize (loop_indices (length allEmails) 0). intros l.
      induction l as [|i l IH]; [cbn; lia|].
      unfold list_sum in *. cbn [map fold_right] in *. lia.
Qed.

(** ** What the delivery loop sends, waits for and prints *)

Lemma bind_events (P : Event -> Prop) (A B : Type) (m : M A) (k : A -> M B) n :
  Forall P (snd (m n)) -> (forall a n1, Forall P (snd (k a n1))) ->
  Forall P (snd (bind m k n)).
Proof.
  unfold bind. intros Hm Hk.
  destruct (m n) as [[[a|e|c] n1] t1]; cbn [snd] in *; try assumption.
  specialize (Hk a n1). destruct (k a n1) as [[r n2] t2]. cbn [snd] in *.
  apply Forall_app. now split.
Qed.

Lemma emit_events (P : Event -> Prop) ev n : P ev -> Forall P (snd (emit ev n)).
Proof. intros H. cbn. now constructor. Qed.

Lemma fetch_events (P : Event -> Prop) provider url method headers body n :
  P (EvRequest url method headers (Some body)) ->
  Forall P (snd (fetchJson provider url method headers body n)).
Proof. intros H. unfold fetchJson. destruct (provider n); cbn; now constructor. Qed.

Lemma in_slice (A : Type) (x : A) i j (l : list A) : In x (slice i j l) -> In x l.
Proof.
  unfold slice. intros H.
  rewrite <- (firstn_skipn i l). apply in_or_app. right.
  rewrite <- (firstn_skipn (j - i) (skipn i l)). apply in_or_app. now left.
Qed.

Lemma item_texts_status st : item_texts (log_status st) = [].
Proof. destruct st; reflexivity. Qed.

Lemma shows_data_status st : shows_data (log_status st) = false.
Proof. destruct st; reflexivity. Qed.

Lemma item_texts_data d : item_texts (log_data d) = [].
Proof. destruct d; reflexivity. Qed.

Section DeliveryEvents.
Variable provider : nat -> Outcome Json.
Variable key : jsstring.
Variable allEmails : list EmailMessage.

Lemma literal_allowed s :
  existsb (jsstring_eqb s) delivery_literals = true -> log_text_allowed allEmails s.
Proof.
  intros H. left. apply existsb_exists in H. destruct H as (x & Hin & Heq).
  unfold jsstring_eqb in Heq. destruct (list_eq_dec N.eq_dec s x); [now subst|discriminate].
Qed.

Lemma mask_allowed e : In e allEmails -> log_text_allowed allEmails (maskEmail (msg_to e)).
Proof. intros H. right. now exists e. Qed.

Lemma batch_request_event fb emails :
  In emails (batches allEmails) ->
  delivery_event fb key allEmails
    (EvRequest batch_url POST (api_headers key) (Some (PBatch emails))).
Proof. intros H. split; [reflexivity|]. split; [reflexivity|]. left. eauto. Qed.

Lemma single_request_event e :
  In e allEmails ->
  delivery_event true key allEmails
    (EvRequest single_url POST (api_headers key) (Some (PSingle e))).
Proof. intros H. split; [reflexivity|]. split; [reflexivity|]. right. eauto. Qed.

Lemma sent_line_event fb e :
  In e allEmails ->
  delivery_event fb key allEmails (EvLog [LStr (js "  Sent to"); LStr (maskEmail (msg_to e))]).
Proof.
  intros H. split; [|reflexivity]. cbn [flat_map item_texts app].
  apply Forall_cons; [apply literal_allowed; vm_compute; reflexivity|].
  apply Forall_cons; [now apply mask_allowed|]. apply Forall_nil.
Qed.

Lemma sending_line_event fb i : delivery_event fb key allEmails (sending_line allEmails i).
Proof.
  split; [|reflexivity]. cbn [flat_map item_texts app lnat].
  repeat (apply Forall_cons; [apply literal_allowed; vm_compute; reflexivity|]).
  apply Forall_nil.
Qed.

Lemma sendBatch_from_events fb emails :
  In emails (batches allEmails) ->
  forall fuel a n, Z.to_nat (3 + 1 - a) = fuel -> (1 <= a)%Z ->
    Forall (delivery_event fb key allEmails)
      (snd (Part000.sendBatch_from provider key emails 3 a n)).
Proof.
  intros Hin. induction fuel as [|fuel IH]; intros a n Hf Ha; rewrite sendBatch_from_unfold;
    destruct (Z.leb_spec a 3) as [Hle|Hgt]; try exact (Forall_nil _); [lia|].
  apply bind_events; [apply fetch_events; now apply batch_request_event|].
  intros resp n1.
  destruct ((200 <=? status resp)%Z && (status resp <? 300)%Z); [exact (Forall_nil _)|].
  destruct ((status resp =? 429)%Z && (a <? 3)%Z) eqn:Hc; [|exact (Forall_nil _)].
  apply andb_true_iff in Hc. destruct Hc as [_ Hlt]. apply Z.ltb_lt in Hlt.
  assert (Ha' : a = 1%Z \/ a = 2%Z) by lia.
  cbv zeta. apply bind_events.
  { apply emit_events. split; [|reflexivity]. cbn [flat_map item_texts app].
    repeat (apply Forall_cons; [apply literal_allowed; vm_compute; reflexivity|]).
    apply Forall_nil. }
  intros _ n2. apply bind_events.
  { apply emit_events. cbn [delivery_event].
    destruct Ha' as [-> | ->]; destruct fb; cbn; auto 10. }
  intros _ n3. apply IH; lia.
Qed.

Lemma sendSingle_from_events e :
  In e allEmails ->
  forall fuel a n, Z.to_nat (3 + 1 - a) = fuel -> (1 <= a)%Z ->
    Forall (delivery_event true key allEmails)
      (snd (Part000.sendSingle_from provider key e 3 a n)).
Proof.
  intros Hin. induction fuel as [|fuel IH]; intros a n Hf Ha; rewrite sendSingle_from_unfold;
    destruct (Z.leb_spec a 3) as [Hle|Hgt]; try exact (Forall_nil _); [lia|].
  apply bind_events; [apply fetch_events; now apply single_request_event|].
  intros resp n1.
  destruct ((200 <=? status resp)%Z && (status resp <? 300)%Z); [exact (Forall_nil _)|].
  destruct ((status resp =? 429)%Z && (a <? 3)%Z) eqn:Hc; [|exact (Forall_nil _)].
  apply andb_true_iff in Hc. destruct Hc as [_ Hlt]. apply Z.ltb_lt in Hlt.
  assert (Ha' : a = 1%Z \/ a = 2%Z) by lia.
  cbv zeta. apply bind_events.
  { apply emit_events. cbn [delivery_event].
    destruct Ha' as [-> | ->]; cbn; auto 10. }
  intros _ n3. apply IH; lia.
Qed.

Lemma log_sent_events fb batch n :
  incl batch allEmails ->
  Forall (delivery_event fb key allEmails) (snd (Part000.log_sent batch n)).
Proof.
  intros Hincl. rewrite log_sent_trace. cbn [snd].
  apply Forall_forall. intros ev Hev. apply in_map_iff in Hev.
  destruct Hev as (e & <- & He). apply sent_line_event. now apply Hincl.
Qed.

Lemma fallback_events batch :
  incl batch allEmails ->
  forall sent failed n,
    Forall (delivery_event true key allEmails)
      (snd (Part000.fallback provider key batch sent failed n)).
Proof.
  induction batch as [|e batch IH]; intros Hincl sent failed n; [exact (Forall_nil _)|].
  assert (He : In e allEmails) by (apply Hincl; now left).
  cbn [Part000.fallback]. apply bind_events.
  { unfold Part000.sendSingle. now apply sendSingle_from_events with (fuel := 3%nat). }
  intros r n1. apply bind_events.
  { destruct (success r).
    - apply bind_events; [|intros; exact (Forall_nil _)].
      apply emit_events. now apply sent_line_event.
    - apply bind_events; [|intros; exact (Forall_nil _)].
      apply emit_events. split.
      + cbn [flat_map item_texts app]. rewrite item_texts_status.
        apply Forall_cons; [apply literal_allowed; vm_compute; reflexivity|].
        apply Forall_cons; [now apply mask_allowed|].
        apply Forall_cons; [apply literal_allowed; vm_compute; reflexivity|].
        apply Forall_nil.
      + intros _. cbn [existsb shows_data]. now rewrite shows_data_status. }
  intros counts n2. apply bind_events.
  { apply emit_events. cbn. auto 10. }
  intros _ n3. apply IH. intros x Hx. apply Hincl. now right.
Qed.

Lemma pause_events fb i n :
  Forall (delivery_event fb key allEmails)
    (snd ((if (i + BATCH_SIZE <? length allEmails)%nat then sleep 1000 else ret tt) n)).
Proof.
  destruct (i + BATCH_SIZE <? length allEmails)%nat; [|exact (Forall_nil _)].
  apply emit_events. destruct fb; cbn; auto.
Qed.

Lemma loop_body_events i sent failed n :
  In i (loop_indices (length allEmails) 0) ->
  Forall (delivery_event true key allEmails)
    (snd (Part000.loop_body provider key allEmails i sent failed n)).
Proof.
  intros Hi. unfold Part000.loop_body. cbv zeta.
  assert (Hb : In (slice i (i + BATCH_SIZE) allEmails) (batches allEmails)).
  { unfold batches. apply in_map_iff. now exists i. }
  assert (Hincl : incl (slice i (i + BATCH_SIZE) allEmails) allEmails).
  { intros x Hx. now apply in_slice in Hx. }
  apply bind_events; [apply emit_events; apply sending_line_event|].
  intros _ n0. apply bind_events.
  { unfold Part000.sendBatch. now apply sendBatch_from_events with (fuel := 3%nat). }
  intros r n1. apply bind_events.
  { destruct (success r).
    - apply bind_events; [now apply log_sent_events|intros; exact (Forall_nil _)].
    - apply bind_events; [|intros; now apply fallback_events].
      apply emit_events. split.
      + cbn [flat_map item_texts app]. rewrite item_texts_status.
        repeat (apply Forall_cons; [apply literal_allowed; vm_compute; reflexivity|]).
        apply Forall_nil.
      + intros _. cbn [existsb shows_data]. now rewrite shows_data_status. }
  intros counts n2. apply bind_events; [apply pause_events|intros; exact (Forall_nil _)].
Qed.

Lemma loop_body_events_sn i sent failed n :
  In i (loop_indices (length allEmails) 0) ->
  Forall (delivery_event false key allEmails)
    (snd (SendNewsletter.loop_body provider key allEmails i sent failed n)).
Proof.
  intros Hi. unfold SendNewsletter.loop_body. cbv zeta.
  assert (Hb : In (slice i (i + BATCH_SIZE) allEmails) (batches allEmails)).
  { unfold batches. apply in_map_iff. now exists i. }
  assert (Hincl : incl (slice i (i + BATCH_SIZE) allEmails) allEmails).
  { intros x Hx. now apply in_slice in Hx. }
  apply bind_events; [apply emit_events; apply sending_line_event|].
  intros _ n0. apply bind_events.
  { rewrite sendBatch_same_run. unfold Part000.sendBatch.
    now apply sendBatch_from_events with (fuel := 3%nat). }
  intros r n1. apply bind_events.
  { destruct (success r).
    - apply bind_events; [|intros; exact (Forall_nil _)].
      rewrite log_sent_trace_sn, <- (log_sent_trace _ n1). now apply log_sent_events.
    - apply bind_events.
      + apply emit_events. split; [|discriminate].
        cbn [flat_map item_texts app]. rewrite item_texts_status, item_texts_data.
        apply Forall_cons; [apply literal_allowed; vm_compute; reflexivity|].
        apply Forall_nil.
      + intros _ n2. apply bind_events; [|intros; exact (Forall_nil _)].
        rewrite log_failed_trace. cbn [snd].
        apply Forall_forall. intros ev Hev. apply in_map_iff in Hev.
        destruct Hev as (e & <- & He). split; [|discriminate].
        cbn [flat_map item_texts app].
        apply Forall_cons; [apply literal_allowed; vm_compute; reflexivity|].
        apply Forall_cons; [apply mask_allowed; now apply Hincl|]. apply Forall_nil. }
  intros counts n2. apply bind_events; [apply pause_events|intros; exact (Forall_nil _)].
Qed.

Lemma run_at_events (P : Event -> Prop) (body : nat -> nat -> nat -> M (nat * nat)) :
  forall indices,
    (forall i s f n, In i indices -> Forall P (snd (body i s f n))) ->
    forall sent failed n, Forall P (snd (run_at body indices sent failed n)).
Proof.
  induction indices as [|i indices IH]; intros Hbody sent failed n; [exact (Forall_nil _)|].
  cbn [run_at]. apply bind_events; [apply Hbody; now left|].
  intros counts n1. apply IH. intros j s f m Hj. apply Hbody. now right.
Qed.
End DeliveryEvents.

Lemma deliver_from_events provider key (allEmails : list EmailMessage) sent failed n :
  Forall (delivery_event true key allEmails)
    (snd (Part000.deliver_from provider key allEmails 0 sent failed n)).
Proof.
  rewrite (deliver_from_run_at provider key allEmails _ 0 sent failed n eq_refl).
  apply run_at_events. intros i s f m Hi. now apply loop_body_events.
Qed.

Lemma deliver_from_events_sn provider key (allEmails : list EmailMessage) sent failed n :
  Forall (delivery_event false key allEmails)
    (snd (SendNewsletter.deliver_from provider key allEmails 0 sent failed n)).
Proof.
  rewrite (deliver_from_run_at_sn provider key allEmails _ 0 sent failed n eq_refl).
  apply run_at_events. intros i s f m Hi. now apply loop_body_events_sn.
Qed.


(** ** The exit status of send-newsletter.js *)

Lemma loop_body_returns_or_throws_sn provider key allEmails i sent failed n :
  returns_or_throws (SendNewsletter.loop_body provider key allEmails i sent failed n).
Proof.
  unfold SendNewsletter.loop_body.
  apply bind_returns_or_throws; [exact I|]. intros _ n0.
  apply bind_returns_or_throws.
  { rewrite sendBatch_same_run.
    now apply sendBatch_from_returns_or_throws with (k := Z.to_nat (3 + 1 - 1)). }
  intros r n1. apply bind_returns_or_throws.
  { destruct (success r).
    - apply bind_returns_or_throws; [|intros; exact I].
      unfold returns_or_throws. rewrite log_sent_trace_sn. exact I.
    - apply bind_returns_or_throws; [exact I|]. intros _ n2.
      apply bind_returns_or_throws; [|intros; exact I].
      unfold returns_or_throws. rewrite log_failed_trace. exact I. }
  intros counts n2. apply bind_returns_or_throws; [|intros; exact I].
  destruct (i + BATCH_SIZE <? length allEmails)%nat; exact I.
Qed.

Lemma deliver_from_returns_or_throws_sn provider key allEmails sent failed n :
  returns_or_throws (SendNewsletter.deliver_from provider key allEmails 0 sent failed n).
Proof.
  rewrite (deliver_from_run_at_sn provider key allEmails _ 0 sent failed n eq_refl).
  generalize (loop_indices (length allEmails) 0). intros indices.
  revert sent failed n. induction indices as [|i indices IH]; intros sent failed n;
    [exact I|].
  cbn [run_at]. apply bind_returns_or_throws; [apply loop_body_returns_or_throws_sn|].
  intros counts n1. apply IH.
Qed.

(** X13.  send-newsletter.js, once the directory has answered 200: with
    no subscriber the run prints a line and ends normally without any
    request to the provider; otherwise it ends with status 1 when the
    delivery loop ends with [failed > 0] and with status 0 when it ends
    with [failed = 0]; the loop never exits by itself and it ends whenever
    the provider answers every request; when a request of the loop fails
    with a network error, the run ends with status 1 whatever was
    counted. *)
Theorem exit_status_rule_sn env fs directory provider hmac template subs :
  config_present env ->
  fs (email_path (env_string (env_EPISODE_DATE env))) = Some template ->
  directory = Reply {| status := 200; data := subs |} ->
  (subs = [] ->
   SendNewsletter.script env fs directory provider hmac 0
   = (Ok tt, 0%nat, preamble_sn env subs ++ [EvLog [LStr (js "No subscribers, done")]])) /\
  (forall allEmails,
     subs <> [] ->
     built_payloads_sn env hmac template subs = Some allEmails ->
     let code :=
       exit_status (fst (fst (SendNewsletter.script env fs directory provider hmac 0))) in
     let loop := SendNewsletter.deliver_from provider (env_string (env_RESEND_API_KEY env))
                   allEmails 0 0 0 0 in
     (forall sent failed n t,
        loop = (Ok (sent, failed), n, t) ->
        code = (if (0 <? failed)%nat then 1 else 0)%Z /\
        (code <> 0%Z <-> (0 < failed)%nat)) /\
     (forall e n t, loop = (Throw e, n, t) -> code = 1%Z) /\
     ((exists sent failed n t, loop = (Ok (sent, failed), n, t)) \/
      (exists e n t, loop = (Throw e, n, t))) /\
     (reliable provider -> exists sent failed n t, loop = (Ok (sent, failed), n, t))).
Proof.
  intros Hcfg Hfs Hdir. split.
  - intros ->. unfold SendNewsletter.script. unfold config_present in Hcfg.
    rewrite Hcfg. cbv zeta. rewrite Hfs. rewrite Hdir. reflexivity.
  - intros allEmails Hne Hbuild. cbv zeta.
    rewrite (script_run_sn env fs directory provider hmac template subs Hcfg Hfs Hdir Hne).
    rewrite Hbuild. split; [|split; [|split]].
    + intros sent failed n t ->. cbn [fst].
      destruct (Nat.ltb_spec 0 failed) as [Hpos|Hzero]; cbn [exit_status].
      * split; [reflexivity|]. split; [intros _; exact Hpos|discriminate].
      * split; [reflexivity|]. split; [congruence|lia].
    + intros e n t ->. reflexivity.
    + pose proof (deliver_from_returns_or_throws_sn provider
                    (env_string (env_RESEND_API_KEY env)) allEmails 0 0 0) as Hrt.
      unfold returns_or_throws in Hrt.
      destruct (SendNewsletter.deliver_from provider (env_string (env_RESEND_API_KEY env))
                  allEmails 0 0 0 0) as [[[[s f]|e|c] n] t]; cbn [fst] in Hrt.
      * left. exists s, f, n, t. reflexivity.
      * right. exists e, n, t. reflexivity.
      * contradiction.
    + intros Hrel.
      destruct (run_at_total
                  (SendNewsletter.loop_body provider (env_string (env_RESEND_API_KEY env))
                     allEmails)
                  (fun i s f m => loop_body_total_sn provider _ allEmails i s f m Hrel)
                  (loop_indices (length allEmails) 0) 0 0 0) as (s & f & n' & t & Hrun).
      rewrite <- (deliver_from_run_at_sn provider _ allEmails _ 0 0 0 0 eq_refl) in Hrun.
      exists s, f, n', t. exact Hrun.
Qed.

(** Three subscribers in one batch; the batch is answered 500: all three
    are counted as failed and the status is 1.  With 200: status 0. *)
Lemma exit_status_rule_sn_witness :
  exit_status (fst (fst (SendNewsletter.script sample_env sample_fs sample_directory
                           (scripted [500]%Z JNull) sample_hmac 0))) = 1%Z /\
  exit_status (fst (fst (SendNewsletter.script sample_env sample_fs sample_directory
                           (scripted [200]%Z JNull) sample_hmac 0))) = 0%Z.
Proof.
  assert (Hne : sample_subscribers <> []) by discriminate.
  assert (Hbuild : built_payloads_sn sample_env sample_hmac sample_template sample_subscribers
                   = Some sample_payloads_sn) by (vm_compute; reflexivity).
  split.
  - destruct (exit_status_rule_sn sample_env sample_fs sample_directory
                (scripted [500]%Z JNull) sample_hmac sample_template sample_subscribers
                eq_refl eq_refl eq_refl) as [_ Hrule].
    destruct (Hrule sample_payloads_sn Hne Hbuild) as (Hok & _).
    destruct (SendNewsletter.deliver_from (scripted [500]%Z JNull)
                (env_string (env_RESEND_API_KEY sample_env)) sample_payloads_sn 0 0 0 0)
      as [[res n] t] eqn:Hloop.
    assert (Hres : res = Ok (0%nat, 3%nat)).
    { change res with (fst (fst (res, n, t))). rewrite <- Hloop. vm_compute. reflexivity. }
    subst res. destruct (Hok 0%nat 3%nat n t eq_refl) as [Hcode _]. exact Hcode.
  - destruct (exit_status_rule_sn sample_env sample_fs sample_directory
                (scripted [200]%Z JNull) sample_hmac sample_template sample_subscribers
                eq_refl eq_refl eq_refl) as [_ Hrule].
    destruct (Hrule sample_payloads_sn Hne Hbuild) as (Hok & _).
    destruct (SendNewsletter.deliver_from (scripted [200]%Z JNull)
                (env_string (env_RESEND_API_KEY sample_env)) sample_payloads_sn 0 0 0 0)
      as [[res n] t] eqn:Hloop.
    assert (Hres : res = Ok (3%nat, 0%nat)).
    { change res with (fst (fst (res, n, t))). rewrite <- Hloop. vm_compute. reflexivity. }
    subst res. destruct (Hok 3%nat 0%nat n t eq_refl) as [Hcode _]. exact Hcode.
Defined.

(** ** Who gets a message *)

Lemma messages_sent_app t1 t2 : messages_sent (t1 ++ t2) = messages_sent t1 ++ messages_sent t2.
Proof. unfold messages_sent. apply flat_map_app. Qed.

Lemma messages_sent_preamble env subs : messages_sent (preamble env subs) = [].
Proof.
  unfold preamble, skipping_line.
  destruct (0 <? length (invalid_subscribers subs))%nat; reflexivity.
Qed.

Lemma messages_sent_preamble_sn env subs : messages_sent (preamble_sn env subs) = [].
Proof. reflexivity. Qed.

Lemma in_batches (allEmails : list EmailMessage) b msg :
  In b (batches allEmails) -> In msg b -> In msg allEmails.
Proof.
  unfold batches. intros Hb Hm. apply in_map_iff in Hb. destruct Hb as (i & <- & _).
  now apply in_slice in Hm.
Qed.

Lemma messages_of_delivery fb key (allEmails : list EmailMessage) t msg :
  Forall (delivery_event fb key allEmails) t ->
  In msg (messages_sent t) -> In msg allEmails.
Proof.
  intros Hall Hin. unfold messages_sent in Hin. apply in_flat_map in Hin.
  destruct Hin as (ev & Hev & Hmsg). rewrite Forall_forall in Hall.
  specialize (Hall ev Hev). destruct ev as [url method headers [p|]| | |]; try contradiction.
  destruct Hall as (_ & _ & [(_ & b & Hb & Hp)|(_ & _ & e & He & Hp)]);
    injection Hp as ->; cbn [payload_messages] in Hmsg.
  - now apply (in_batches allEmails b).
  - destruct Hmsg as [<-|[]]. exact He.
Qed.

Lemma map_opt_In (A B : Type) (f : A -> option B) :
  forall (l : list A) (l' : list B) (b : B),
    map_opt f l = Some l' -> In b l' -> exists a, In a l /\ f a = Some b.
Proof.
  intros l l' b H. apply map_opt_Some in H.
  induction H as [|a0 b0 l0 l0' Hab _ IH]; intros Hin; [contradiction|].
  destruct Hin as [<-|Hin].
  - exists a0. split; [now left|exact Hab].
  - destruct (IH Hin) as (a & Ha & Hf). exists a. split; [now right|exact Hf].
Qed.

Lemma script_no_valid env fs directory provider hmac template subs :
  config_present env ->
  fs (email_path (env_string (env_EPISODE_DATE env))) = Some template ->
  directory = Reply {| status := 200; data := subs |} ->
  valid_subscribers subs = [] ->
  Part000.script env fs directory provider hmac 0
  = (Ok tt, 0%nat, preamble env subs ++ [EvLog [LStr (js "No valid subscribers, done")]]).
Proof.
  intros Hcfg Hfs Hdir Hvalid.
  unfold Part000.script. unfold config_present in Hcfg. rewrite Hcfg. cbv zeta.
  rewrite Hfs. unfold catch, Part000.main. cbv zeta.
  unfold console_log at 1. rewrite bind_emit_prefix.
  rewrite (bind_directory_reply _ _ _ _ _ _ _ _ Hdir). cbn [status data].
  change (negb (200 =? 200)%Z) with false. cbv iota.
  unfold console_log at 1. rewrite bind_emit_prefix.
  fold (valid_subscribers subs).
  rewrite (bind_ok_prefix _ _ _ _ _ _ _ _ (optional_line_run _ _ 0)).
  rewrite Hvalid. cbn [length Nat.eqb]. unfold console_log, emit, with_prefix.
  unfold preamble, skipping_line, invalid_subscribers, directory_request.
  destruct (0 <? length (filter (fun s => negb (Part000.isValidEmail (email s))) subs))%nat;
    reflexivity.
Qed.

Lemma script_directory_rejected env fs directory provider hmac template r :
  config_present env ->
  fs (email_path (env_string (env_EPISODE_DATE env))) = Some template ->
  directory = Reply r -> status r <> 200%Z ->
  Part000.script env fs directory provider hmac 0
  = (Exit 1%Z, 0%nat,
     [fetching_line; directory_request env;
      EvError [LStr (js "Failed to fetch subscribers:"); LNum (status r)]]) /\
  SendNewsletter.script env fs directory provider hmac 0
  = Part000.script env fs directory provider hmac 0.
Proof.
  intros Hcfg Hfs Hdir Hst. unfold Part000.script, SendNewsletter.script.
  unfold config_present in Hcfg. rewrite Hcfg. cbv zeta. rewrite Hfs. unfold catch.
  rewrite (main_directory_rejected directory provider hmac _ _ _ _ _ _ r Hdir Hst).
  rewrite (main_directory_rejected_sn directory provider hmac _ _ _ _ _ _ r Hdir Hst).
  split; reflexivity.
Qed.

Lemma script_directory_error env fs directory provider hmac template err :
  config_present env ->
  fs (email_path (env_string (env_EPISODE_DATE env))) = Some template ->
  directory = NetError err ->
  Part000.script env fs directory provider hmac 0
  = (Exit 1%Z, 0%nat,
     [fetching_line; directory_request env; EvError [LErr (NetworkError err)]]) /\
  SendNewsletter.script env fs directory provider hmac 0
  = Part000.script env fs directory provider hmac 0.
Proof.
  intros Hcfg Hfs Hdir. unfold Part000.script, SendNewsletter.script.
  unfold config_present in Hcfg. rewrite Hcfg. cbv zeta. rewrite Hfs. unfold catch.
  rewrite (main_directory_error directory provider hmac _ _ _ _ _ _ err Hdir).
  rewrite (main_directory_error_sn directory provider hmac _ _ _ _ _ _ err Hdir).
  split; reflexivity.
Qed.

Lemma script_no_subscribers_sn env fs directory provider hmac template :
  config_present env ->
  fs (email_path (env_string (env_EPISODE_DATE env))) = Some template ->
  directory = Reply {| status := 200; data := [] |} ->
  SendNewsletter.script env fs directory provider hmac 0
  = (Ok tt, 0%nat, preamble_sn env [] ++ [EvLog [LStr (js "No subscribers, done")]]).
Proof.
  intros Hcfg Hfs Hdir. unfold SendNewsletter.script. unfold config_present in Hcfg.
  rewrite Hcfg. cbv zeta. rewrite Hfs. rewrite Hdir. reflexivity.
Qed.

Lemma script_unconfigured env fs directory provider hmac :
  falsy (env_RESEND_API_KEY env) || falsy (env_WORKER_URL env)
  || falsy (env_WORKER_SECRET env) || falsy (env_EPISODE_DATE env) = true ->
  messages_sent (snd (Part000.script env fs directory provider hmac 0)) = [] /\
  messages_sent (snd (SendNewsletter.script env fs directory provider hmac 0)) = [].
Proof.
  intros Hcfg. unfold Part000.script, SendNewsletter.script. rewrite Hcfg.
  split; reflexivity.
Qed.

Lemma script_without_template env fs directory provider hmac :
  config_present env ->
  fs (email_path (env_string (env_EPISODE_DATE env))) = None ->
  messages_sent (snd (Part000.script env fs directory provider hmac 0)) = [] /\
  messages_sent (snd (SendNewsletter.script env fs directory provider hmac 0)) = [].
Proof.
  intros Hcfg Hfs. unfold Part000.script, SendNewsletter.script.
  unfold config_present in Hcfg. rewrite Hcfg. cbv zeta. rewrite Hfs.
  split; reflexivity.
Qed.

(** A message in a request of part_000 is one of the payloads main built. *)
Lemma script_messages env fs directory provider hmac msg :
  In msg (messages_sent (snd (Part000.script env fs directory provider hmac 0))) ->
  exists template subs allEmails,
    directory = Reply {| status := 200; data := subs |} /\
    built_payloads env hmac template subs = Some allEmails /\
    In msg allEmails.
Proof.
  intros Hin.
  destruct (falsy (env_RESEND_API_KEY env) || falsy (env_WORKER_URL env)
            || falsy (env_WORKER_SECRET env) || falsy (env_EPISODE_DATE env)) eqn:Hcfg.
  { rewrite (proj1 (script_unconfigured env fs directory provider hmac Hcfg)) in Hin.
    destruct Hin. }
  destruct (fs (email_path (env_string (env_EPISODE_DATE env)))) as [template|] eqn:Hfs.
  2:{ rewrite (proj1 (script_without_template env fs directory provider hmac Hcfg Hfs)) in Hin.
      destruct Hin. }
  destruct directory as [err|[st subs]].
  { rewrite (proj1 (script_directory_error env fs (NetError err) provider hmac template err
                      Hcfg Hfs eq_refl)) in Hin.
    destruct Hin. }
  destruct (Z.eq_dec st 200) as [->|Hst].
  2:{ rewrite (proj1 (script_directory_rejected env fs
                        (Reply {| status := st; data := subs |}) provider hmac template
                        {| status := st; data := subs |} Hcfg Hfs eq_refl Hst)) in Hin.
      destruct Hin. }
  destruct (valid_subscribers subs) as [|v vs] eqn:Hvalid.
  { rewrite (script_no_valid env fs _ provider hmac template subs Hcfg Hfs eq_refl Hvalid)
      in Hin.
    cbn [snd] in Hin. rewrite messages_sent_app, messages_sent_preamble in Hin.
    destruct Hin. }
  assert (Hne : valid_subscribers subs <> []) by (rewrite Hvalid; discriminate).
  rewrite (script_run env fs _ provider hmac template subs Hcfg Hfs eq_refl Hne) in Hin.
  destruct (built_payloads env hmac template subs) as [allEmails|] eqn:Hbuild.
  2:{ cbn [snd] in Hin. rewrite messages_sent_app, messages_sent_preamble in Hin.
      destruct Hin. }
  exists template, subs, allEmails. split; [reflexivity|]. split; [exact Hbuild|].
  pose proof (deliver_from_events provider (env_string (env_RESEND_API_KEY env))
                allEmails 0 0 0) as Hev.
  destruct (Part000.deliver_from provider (env_string (env_RESEND_API_KEY env))
              allEmails 0 0 0 0) as [[[[s f]|e|c] n] t];
    cbn [snd] in Hin, Hev;
    rewrite !messages_sent_app, messages_sent_preamble in Hin; cbn [app] in Hin.
  - apply in_app_or in Hin. destruct Hin as [Hin|Hin]; [|destruct Hin].
    now apply (messages_of_delivery true (env_string (env_RESEND_API_KEY env)) allEmails t).
  - apply in_app_or in Hin. destruct Hin as [Hin|Hin]; [|destruct Hin].
    now apply (messages_of_delivery true (env_string (env_RESEND_API_KEY env)) allEmails t).
  - now apply (messages_of_delivery true (env_string (env_RESEND_API_KEY env)) allEmails t).
Qed.

Lemma script_messages_sn env fs directory provider hmac msg :
  In msg (messages_sent (snd (SendNewsletter.script env fs directory provider hmac 0))) ->
  exists template subs allEmails,
    directory = Reply {| status := 200; data := subs |} /\
    built_payloads_sn env hmac template subs = Some allEmails /\
    In msg allEmails.
Proof.
  intros Hin.
  destruct (falsy (env_RESEND_API_KEY env) || falsy (env_WORKER_URL env)
            || falsy (env_WORKER_SECRET env) || falsy (env_EPISODE_DATE env)) eqn:Hcfg.
  { rewrite (proj2 (script_unconfigured env fs directory provider hmac Hcfg)) in Hin.
    destruct Hin. }
  destruct (fs (email_path (env_string (env_EPISODE_DATE env)))) as [template|] eqn:Hfs.
  2:{ rewrite (proj2 (script_without_template env fs directory provider hmac Hcfg Hfs)) in Hin.
      destruct Hin. }
  destruct directory as [err|[st subs]].
  { destruct (script_directory_error env fs (NetError err) provider hmac template err
                Hcfg Hfs eq_refl) as [Hp Hs].
    rewrite Hs, Hp in Hin. destruct Hin. }
  destruct (Z.eq_dec st 200) as [->|Hst].
  2:{ destruct (script_directory_rejected env fs
                  (Reply {| status := st; data := subs |}) provider hmac template
                  {| status := st; data := subs |} Hcfg Hfs eq_refl Hst) as [Hp Hs].
      rewrite Hs, Hp in Hin. destruct Hin. }
  destruct subs as [|v vs].
  { rewrite (script_no_subscribers_sn env fs _ provider hmac template Hcfg Hfs eq_refl) in Hin.
    destruct Hin. }
  assert (Hne : v :: vs <> []) by discriminate.
  rewrite (script_run_sn env fs _ provider hmac template (v :: vs) Hcfg Hfs eq_refl Hne) in Hin.
  destruct (built_payloads_sn env hmac template (v :: vs)) as [allEmails|] eqn:Hbuild.
  2:{ destruct Hin. }
  exists template, (v :: vs), allEmails. split; [reflexivity|]. split; [exact Hbuild|].
  pose proof (deliver_from_events_sn provider (env_string (env_RESEND_API_KEY env))
                allEmails 0 0 0) as Hev.
  destruct (SendNewsletter.deliver_from provider (env_string (env_RESEND_API_KEY env))
              allEmails 0 0 0 0) as [[[[s f]|e|c] n] t];
    cbn [snd] in Hin, Hev;
    rewrite !messages_sent_app, messages_sent_preamble_sn in Hin; cbn [app] in Hin.
  - apply in_app_or in Hin. destruct Hin as [Hin|Hin]; [|destruct Hin].
    now apply (messages_of_delivery false (env_string (env_RESEND_API_KEY env)) allEmails t).
  - apply in_app_or in Hin. destruct Hin as [Hin|Hin]; [|destruct Hin].
    now apply (messages_of_delivery false (env_string (env_RESEND_API_KEY env)) allEmails t).
  - now apply (messages_of_delivery false (env_string (env_RESEND_API_KEY env)) allEmails t).
Qed.

(** X14.  Whatever the provider and the directory do, part_000 puts a
    message into a request only if it is addressed to a subscriber of the
    directory whose address passes isValidEmail, and send-newsletter.js only
    if it is addressed to a subscriber of the directory; every such message
    carries the configured sender and the subject of the episode.  So an
    address that fails the validation never receives anything from
    part_000. *)
Theorem only_subscribers_are_mailed :
  forall env fs directory provider hmac (msg : EmailMessage),
    (In msg (messages_sent (snd (Part000.script env fs directory provider hmac 0))) ->
     exists subs sub,
       directory = Reply {| status := 200; data := subs |} /\
       In sub subs /\ msg_to msg = email sub /\
       Part000.isValidEmail (msg_to msg) = true /\
       msg_from msg = or_default (env_RESEND_FROM env) default_from /\
       msg_subject msg = subject_prefix ++ env_string (env_EPISODE_DATE env)) /\
    (In msg (messages_sent (snd (SendNewsletter.script env fs directory provider hmac 0))) ->
     exists subs sub,
       directory = Reply {| status := 200; data := subs |} /\
       In sub subs /\ msg_to msg = email sub /\
       msg_from msg = or_default (env_RESEND_FROM env) default_from /\
       msg_subject msg = subject_prefix ++ env_string (env_EPISODE_DATE env)).
Proof.
  intros env fs directory provider hmac msg. split; intros Hin.
  - destruct (script_messages env fs directory provider hmac msg Hin)
      as (template & subs & allEmails & Hdir & Hbuild & Hmsg).
    unfold built_payloads in Hbuild.
    destruct (map_opt_In _ _ _ _ _ msg Hbuild Hmsg) as (sub & Hsub & Hb).
    unfold valid_subscribers in Hsub. apply filter_In in Hsub. destruct Hsub as [Hsub Hv].
    unfold Part000.buildEmailPayload in Hb.
    destruct (encodeURIComponent (email sub)); [|discriminate].
    injection Hb as <-. cbn [msg_to msg_from msg_subject].
    exists subs, sub. repeat split; assumption.
  - destruct (script_messages_sn env fs directory provider hmac msg Hin)
      as (template & subs & allEmails & Hdir & Hbuild & Hmsg).
    unfold built_payloads_sn in Hbuild.
    destruct (map_opt_In _ _ _ _ _ msg Hbuild Hmsg) as (sub & Hsub & Hb).
    unfold SendNewsletter.build_email in Hb.
    destruct (encodeURIComponent (email sub)); [|discriminate].
    injection Hb as <-. cbn [msg_to msg_from msg_subject].
    exists subs, sub. repeat split; assumption.
Qed.

Lemma only_subscribers_are_mailed_witness :
  exists msg subs sub,
    In msg (messages_sent
              (snd (Part000.script sample_env sample_fs sample_directory
                      (scripted [] JNull) sample_hmac 0))) /\
    sample_directory = Reply {| status := 200; data := subs |} /\
    In sub subs /\ msg_to msg = email sub /\
    Part000.isValidEmail (msg_to msg) = true.
Proof.
  set (msg := nth 0 sample_payloads
                {| msg_from := []; msg_to := []; msg_subject := []; msg_html := [] |}).
  assert (Hin : In msg (messages_sent
                          (snd (Part000.script sample_env sample_fs sample_directory
                                  (scripted [] JNull) sample_hmac 0))))
    by (vm_compute; left; reflexivity).
  destruct (proj1 (only_subscribers_are_mailed sample_env sample_fs sample_directory
                     (scripted [] JNull) sample_hmac msg) Hin)
    as (subs & sub & Hdir & Hsub & Hto & Hv & _).
  exists msg, subs, sub. repeat split; assumption.
Defined.

(** ** What a masked address tells *)

Lemma firstn_1_hd (loc : jsstring) : loc <> [] -> firstn 1 loc = [hd 0%N loc].
Proof. destruct loc; [congruence|reflexivity]. Qed.

Lemma skipn_last_one (loc : jsstring) :
  loc <> [] -> skipn (length loc - 1) loc = [last loc 0%N].
Proof.
  intros Hne. destruct (exists_last Hne) as (l & x & ->).
  rewrite length_app. cbn [length]. replace (length l + 1 - 1)%nat with (length l) by lia.
  rewrite skipn_app, Nat.sub_diag, skipn_all, last_last. reflexivity.
Qed.

(** X15.  The masked form of an address with one [@] tells the domain, the
    length of the local part and, when the local part has more than two
    characters, its first and its last character, and nothing else: two
    addresses that agree on these are masked to the same text. *)
Theorem maskEmail_hides_local_part (loc loc' dom : jsstring) :
  ~ In ch_at loc -> ~ In ch_at loc' -> ~ In ch_at dom -> dom <> [] ->
  length loc = length loc' ->
  ((2 < length loc)%nat -> hd 0%N loc = hd 0%N loc' /\ last loc 0%N = last loc' 0%N) ->
  maskEmail (loc ++ ch_at :: dom) = maskEmail (loc' ++ ch_at :: dom).
Proof.
  intros Hl Hl' Hd Hne Hlen Hends.
  rewrite (maskEmail_one_at loc dom Hl Hd Hne), (maskEmail_one_at loc' dom Hl' Hd Hne).
  f_equal. unfold masked_local. rewrite <- Hlen.
  destruct (Nat.leb_spec (length loc) 2) as [Hle|Hgt]; [reflexivity|].
  destruct (Hends Hgt) as [Hhd Hlast].
  assert (Hn : loc <> []) by (destruct loc; [cbn in Hgt; lia|discriminate]).
  assert (Hn' : loc' <> []) by (destruct loc'; [cbn in Hlen; lia|discriminate]).
  rewrite (firstn_1_hd loc Hn), (firstn_1_hd loc' Hn'), (skipn_last_one loc Hn).
  rewrite Hlen, (skipn_last_one loc' Hn'), Hhd, Hlast. reflexivity.
Qed.

Lemma maskEmail_hides_local_part_witness :
  maskEmail (js "alice@example.com") = maskEmail (js "axyze@example.com").
Proof.
  apply (maskEmail_hides_local_part (js "alice") (js "axyze") (js "example.com")).
  - vm_compute. intuition discriminate.
  - vm_compute. intuition discriminate.
  - vm_compute. intuition discriminate.
  - discriminate.
  - reflexivity.
  - intros _. split; reflexivity.
Defined.

(** ** From the result back to the answers *)

Lemma accepted_iff (st : Z) :
  ((200 <=? st)%Z && (st <? 300)%Z) = true <-> (200 <= st < 300)%Z.
Proof. rewrite andb_true_iff, Z.leb_le, Z.ltb_lt. reflexivity. Qed.

Lemma reflects_one_more provider n resp0 r n' :
  provider n = Reply resp0 -> status resp0 = 429%Z ->
  reflects_last_response provider (S n) r n' ->
  reflects_last_response provider n r n'.
Proof.
  intros Hp Hst (resp & Hlt & Hlast & Hok & Hfail & Hprior).
  exists resp. split; [lia|]. split; [exact Hlast|]. split; [exact Hok|].
  split; [exact Hfail|]. intros j Hj.
  destruct (Nat.eq_dec j n) as [->|Hne].
  - exists (data resp0). rewrite Hp. destruct resp0 as [st d]. cbn in *. now subst.
  - apply Hprior. lia.
Qed.

Lemma reflects_first provider n resp0 r :
  provider n = Reply resp0 ->
  (success r = true <-> (200 <= status resp0 < 300)%Z) ->
  (success r = false -> res_status r = Some (status resp0)) ->
  reflects_last_response provider n r (S n).
Proof.
  intros Hp Hok Hfail. exists resp0. split; [lia|].
  replace (S n - 1)%nat with n by lia.
  split; [exact Hp|]. split; [exact Hok|]. split; [exact Hfail|]. intros j Hj. lia.
Qed.

Lemma sendBatch_from_reflects provider key emails m :
  forall fuel a n r n' t,
    Z.to_nat (m + 1 - a) = fuel -> (a <= m)%Z ->
    Part000.sendBatch_from provider key emails m a n = (Ok r, n', t) ->
    reflects_last_response provider n r n' /\
    exists resp, provider (n' - 1)%nat = Reply resp /\ res_data r = Some (data resp).
Proof.
  induction fuel as [|fuel IH]; intros a n r n' t Hfuel Ha; [lia|].
  rewrite sendBatch_from_unfold.
  replace (a <=? m)%Z with true by (symmetry; apply Z.leb_le; lia).
  destruct (provider n) as [msg|resp0] eqn:Hp.
  { rewrite (bind_fetch_error _ _ _ _ _ _ _ _ _ Hp). discriminate. }
  rewrite (bind_fetch_reply _ _ _ _ _ _ _ _ _ Hp).
  destruct ((200 <=? status resp0)%Z && (status resp0 <? 300)%Z) eqn:Hacc.
  { cbn. intros H. injection H as <- <- _. replace (S n - 1)%nat with n by lia. split.
    - apply (reflects_first provider n resp0 _ Hp); cbn [success].
      + split; [intros _; now apply accepted_iff|reflexivity].
      + discriminate.
    - exists resp0. now split. }
  destruct (status resp0 =? 429)%Z eqn:Hst; cbn [andb].
  2:{ cbn. intros H. injection H as <- <- _. replace (S n - 1)%nat with n by lia. split.
      - apply (reflects_first provider n resp0 _ Hp); cbn [success res_status].
        + split; [discriminate|]. intros Hin. apply accepted_iff in Hin. congruence.
        + reflexivity.
      - exists resp0. now split. }
  destruct (Z.ltb_spec a m) as [Hlt|Hge].
  2:{ cbn. intros H. injection H as <- <- _. replace (S n - 1)%nat with n by lia. split.
      - apply (reflects_first provider n resp0 _ Hp); cbn [success res_status].
        + split; [discriminate|]. intros Hin. apply accepted_iff in Hin. congruence.
        + reflexivity.
      - exists resp0. now split. }
  unfold console_log, sleep. rewrite !bind_emit.
  destruct (Part000.sendBatch_from provider key emails m (a + 1) (S n)) as [[res n2] t2]
    eqn:Hrec.
  intros H. injection H as -> -> _.
  destruct (IH (a + 1)%Z (S n) r n' t2 ltac:(lia) ltac:(lia) Hrec) as [Hrefl Hdata].
  split; [|exact Hdata].
  apply Z.eqb_eq in Hst. now apply (reflects_one_more provider n resp0).
Qed.

Lemma sendSingle_from_reflects provider key e m :
  forall fuel a n r n' t,
    Z.to_nat (m + 1 - a) = fuel -> (a <= m)%Z ->
    Part000.sendSingle_from provider key e m a n = (Ok r, n', t) ->
    reflects_last_response provider n r n' /\ res_data r = None.
Proof.
  induction fuel as [|fuel IH]; intros a n r n' t Hfuel Ha; [lia|].
  rewrite sendSingle_from_unfold.
  replace (a <=? m)%Z with true by (symmetry; apply Z.leb_le; lia).
  destruct (provider n) as [msg|resp0] eqn:Hp.
  { rewrite (bind_fetch_error _ _ _ _ _ _ _ _ _ Hp). discriminate. }
  rewrite (bind_fetch_reply _ _ _ _ _ _ _ _ _ Hp).
  destruct ((200 <=? status resp0)%Z && (status resp0 <? 300)%Z) eqn:Hacc.
  { cbn. intros H. injection H as <- <- _. split; [|reflexivity].
    apply (reflects_first provider n resp0 _ Hp); cbn [success].
    - split; [intros _; now apply accepted_iff|reflexivity].
    - discriminate. }
  destruct (status resp0 =? 429)%Z eqn:Hst; cbn [andb].
  2:{ cbn. intros H. injection H as <- <- _. split; [|reflexivity].
      apply (reflects_first provider n resp0 _ Hp); cbn [success res_status].
      - split; [discriminate|]. intros Hin. apply accepted_iff in Hin. congruence.
      - reflexivity. }
  destruct (Z.ltb_spec a m) as [Hlt|Hge].
  2:{ cbn. intros H. injection H as <- <- _. split; [|reflexivity].
      apply (reflects_first provider n resp0 _ Hp); cbn [success res_status].
      - split; [discriminate|]. intros Hin. apply accepted_iff in Hin. congruence.
      - reflexivity. }
  unfold sleep. rewrite !bind_emit.
  destruct (Part000.sendSingle_from provider key e m (a + 1) (S n)) as [[res n2] t2]
    eqn:Hrec.
  intros H. injection H as -> -> _.
  destruct (IH (a + 1)%Z (S n) r n' t2 ltac:(lia) ltac:(lia) Hrec) as [Hrefl Hdata].
  split; [|exact Hdata].
  apply Z.eqb_eq in Hst. now apply (reflects_one_more provider n resp0).
Qed.

(** X16.  With [maxRetries >= 1], a result of sendBatch (of either script)
    or of sendSingle always tells the last answer of the provider: it is a
    success exactly when that answer had a status 2xx, a failure carries
    that answer's status, every answer before it was a 429, and sendBatch
    hands on the body of that answer while sendSingle hands on none. *)
Theorem result_reflects_last_response :
  forall provider key (maxRetries : Z) (n : nat),
    (1 <= maxRetries)%Z ->
    (forall emails r n' t,
       Part000.sendBatch provider key emails maxRetries n = (Ok r, n', t) ->
       SendNewsletter.sendBatch provider key emails maxRetries n = (Ok r, n', t) /\
       reflects_last_response provider n r n' /\
       exists resp, provider (n' - 1)%nat = Reply resp /\ res_data r = Some (data resp)) /\
    (forall e r n' t,
       Part000.sendSingle provider key e maxRetries n = (Ok r, n', t) ->
       reflects_last_response provider n r n' /\ res_data r = None).
Proof.
  intros provider key m n Hm. split.
  - intros emails r n' t Hrun. split.
    + rewrite sendBatch_same_run. exact Hrun.
    + unfold Part000.sendBatch in Hrun.
      exact (sendBatch_from_reflects provider key emails m _ 1%Z n r n' t eq_refl Hm Hrun).
  - intros e r n' t Hrun. unfold Part000.sendSingle in Hrun.
    exact (sendSingle_from_reflects provider key e m _ 1%Z n r n' t eq_refl Hm Hrun).
Qed.

Lemma result_reflects_last_response_witness :
  exists r n',
    fst (Part000.sendBatch (scripted [429; 500]%Z JNull) (js "key") (sample_messages 1) 3 0)
    = (Ok r, n') /\
    success r = false /\
    reflects_last_response (scripted [429; 500]%Z JNull) 0 r n'.
Proof.
  destruct (Part000.sendBatch (scripted [429; 500]%Z JNull) (js "key") (sample_messages 1) 3 0)
    as [[res n'] t] eqn:Hrun.
  assert (Hres : res = Ok {| success := false; res_status := Some 500%Z;
                             res_data := Some JNull |}).
  { change res with (fst (fst (res, n', t))). rewrite <- Hrun. vm_compute. reflexivity. }
  subst res.
  destruct (proj1 (result_reflects_last_response (scripted [429; 500]%Z JNull) (js "key")
                     3%Z 0%nat ltac:(lia))
              (sample_messages 1) _ n' t Hrun) as (_ & Hrefl & _).
  eexists _, n'. split; [reflexivity|]. split; [reflexivity|exact Hrefl].
Defined.

(** ** The time the delivery loop spends waiting *)

Lemma total_wait_app t1 t2 : total_wait (t1 ++ t2) = (total_wait t1 + total_wait t2)%Z.
Proof.
  unfold total_wait. rewrite sleeps_of_app.
  induction (sleeps_of t1) as [|z l IH]; cbn [app fold_right]; lia.
Qed.

Lemma bind_waits (A B : Type) (m : M A) (k : A -> M B) n w1 w2 w :
  waits_within w1 (m n) -> (forall a n1, waits_within w2 (k a n1)) ->
  (0 <= w2)%Z -> (w1 + w2 <= w)%Z ->
  waits_within w (bind m k n).
Proof.
  unfold waits_within, bind. intros Hm Hk Hw2 Hw.
  destruct (m n) as [[[a|e|c] n1] t1]; cbn [snd] in *; try lia.
  specialize (Hk a n1). destruct (k a n1) as [[r n2] t2]. cbn [snd] in *.
  rewrite total_wait_app. lia.
Qed.

Lemma no_wait (A : Type) (r : Res A) n t :
  sleeps_of t = [] -> waits_within 0 (r, n, t).
Proof. unfold waits_within, total_wait. cbn [snd]. intros ->. cbn. lia. Qed.

Lemma console_log_waits args n : waits_within 0 (console_log args n).
Proof. now apply no_wait. Qed.

Lemma console_error_waits args n : waits_within 0 (console_error args n).
Proof. now apply no_wait. Qed.

Lemma sleep_waits ms n : (0 <= ms)%Z -> waits_within ms (sleep ms n).
Proof. intros H. unfold waits_within, total_wait. cbn. lia. Qed.

Lemma waits_mono (A : Type) (x : Res A * nat * list Event) w w' :
  waits_within w x -> (w <= w')%Z -> waits_within w' x.
Proof. unfold waits_within. lia. Qed.

Lemma sendBatch_waits provider key emails n :
  waits_within 9000 (Part000.sendBatch provider key emails 3 n).
Proof.
  unfold Part000.sendBatch.
  destruct (sendBatch_from_shape provider key emails 3 _ 1%Z n eq_refl ltac:(lia))
    as (k & Hk & _ & Hsl & _).
  unfold waits_within, total_wait. rewrite Hsl.
  destruct k as [|[|[|k]]]; cbn; lia.
Qed.

Lemma sendSingle_waits provider key e n :
  waits_within 6000 (Part000.sendSingle provider key e 3 n).
Proof.
  unfold Part000.sendSingle.
  destruct (sendSingle_from_shape provider key e 3 _ 1%Z n eq_refl ltac:(lia))
    as (k & Hk & _ & Hsl & _).
  unfold waits_within, total_wait. rewrite Hsl.
  destruct k as [|[|[|k]]]; cbn; lia.
Qed.

Lemma sleeps_of_sent_lines batch : sleeps_of (map sent_line batch) = [].
Proof. induction batch as [|e batch IH]; [reflexivity|exact IH]. Qed.

Lemma sleeps_of_failed_lines batch : sleeps_of (map failed_for_line batch) = [].
Proof. induction batch as [|e batch IH]; [reflexivity|exact IH]. Qed.

Lemma fallback_waits provider key batch :
  forall sent failed n,
    waits_within (6600 * Z.of_nat (length batch))
      (Part000.fallback provider key batch sent failed n).
Proof.
  induction batch as [|e batch IH]; intros sent failed n.
  - now apply no_wait.
  - cbn [Part000.fallback].
    apply bind_waits with (w1 := 6000%Z) (w2 := (600 + 6600 * Z.of_nat (length batch))%Z);
      [apply sendSingle_waits| |lia|cbn [length]; lia].
    intros r n1.
    apply bind_waits with (w1 := 0%Z) (w2 := (600 + 6600 * Z.of_nat (length batch))%Z);
      [| |lia|lia].
    { destruct (success r).
      - apply bind_waits with (w1 := 0%Z) (w2 := 0%Z); [apply console_log_waits| |lia|lia].
        intros. now apply no_wait.
      - apply bind_waits with (w1 := 0%Z) (w2 := 0%Z); [apply console_error_waits| |lia|lia].
        intros. now apply no_wait. }
    intros counts n2.
    apply bind_waits with (w1 := 600%Z) (w2 := (6600 * Z.of_nat (length batch))%Z);
      [apply sleep_waits; lia| |lia|lia].
    intros _ n3. apply IH.
Qed.

Lemma pause_waits (allEmails : list EmailMessage) i n :
  waits_within 1000
    ((if (i + BATCH_SIZE <? length allEmails)%nat then sleep 1000 else ret tt) n).
Proof.
  destruct (i + BATCH_SIZE <? length allEmails)%nat.
  - apply sleep_waits. lia.
  - apply waits_mono with (w := 0%Z); [now apply no_wait|lia].
Qed.

Lemma loop_body_waits provider key allEmails i sent failed n :
  waits_within (10000 + 6600 * Z.of_nat (length (slice i (i + BATCH_SIZE) allEmails)))
    (Part000.loop_body provider key allEmails i sent failed n).
Proof.
  unfold Part000.loop_body. cbv zeta.
  set (batch := slice i (i + BATCH_SIZE) allEmails).
  apply bind_waits with (w1 := 0%Z) (w2 := (10000 + 6600 * Z.of_nat (length batch))%Z);
    [apply console_log_waits| |lia|lia].
  intros _ n0.
  apply bind_waits with (w1 := 9000%Z) (w2 := (1000 + 6600 * Z.of_nat (length batch))%Z);
    [apply sendBatch_waits| |lia|lia].
  intros r n1.
  apply bind_waits with (w1 := (6600 * Z.of_nat (length batch))%Z) (w2 := 1000%Z);
    [| |lia|lia].
  { destruct (success r).
    - apply bind_waits with (w1 := 0%Z) (w2 := 0%Z); [| |lia|lia].
      + rewrite log_sent_trace. apply no_wait. apply sleeps_of_sent_lines.
      + intros. now apply no_wait.
    - apply bind_waits with (w1 := 0%Z) (w2 := (6600 * Z.of_nat (length batch))%Z);
        [apply console_log_waits| |lia|lia].
      intros. apply fallback_waits. }
  intros counts n2.
  apply bind_waits with (w1 := 1000%Z) (w2 := 0%Z); [apply pause_waits| |lia|lia].
  intros. now apply no_wait.
Qed.

Lemma loop_body_waits_sn provider key allEmails i sent failed n :
  waits_within 10000 (SendNewsletter.loop_body provider key allEmails i sent failed n).
Proof.
  unfold SendNewsletter.loop_body. cbv zeta.
  apply bind_waits with (w1 := 0%Z) (w2 := 10000%Z); [apply console_log_waits| |lia|lia].
  intros _ n0.
  apply bind_waits with (w1 := 9000%Z) (w2 := 1000%Z);
    [rewrite sendBatch_same_run; apply sendBatch_waits| |lia|lia].
  intros r n1.
  apply bind_waits with (w1 := 0%Z) (w2 := 1000%Z); [| |lia|lia].
  { destruct (success r).
    - apply bind_waits with (w1 := 0%Z) (w2 := 0%Z); [| |lia|lia].
      + rewrite log_sent_trace_sn. apply no_wait. apply sleeps_of_sent_lines.
      + intros. now apply no_wait.
    - apply bind_waits with (w1 := 0%Z) (w2 := 0%Z); [apply console_error_waits| |lia|lia].
      intros _ n2.
      apply bind_waits with (w1 := 0%Z) (w2 := 0%Z); [| |lia|lia].
      + rewrite log_failed_trace. apply no_wait. apply sleeps_of_failed_lines.
      + intros. now apply no_wait. }
  intros counts n2.
  apply bind_waits with (w1 := 1000%Z) (w2 := 0%Z); [apply pause_waits| |lia|lia].
  intros. now apply no_wait.
Qed.

Lemma run_at_waits (body : nat -> nat -> nat -> M (nat * nat)) (size : nat -> nat) (c : Z) :
  (0 <= c)%Z ->
  (forall i s f n, waits_within (10000 + c * Z.of_nat (size i)) (body i s f n)) ->
  forall indices sent failed n,
    waits_within (10000 * Z.of_nat (length indices)
                  + c * Z.of_nat (list_sum (map size indices)))
      (run_at body indices sent failed n).
Proof.
  intros Hc Hbody. induction indices as [|i indices IH]; intros sent failed n.
  - unfold waits_within, total_wait. cbn. lia.
  - cbn [run_at].
    apply bind_waits
      with (w1 := (10000 + c * Z.of_nat (size i))%Z)
           (w2 := (10000 * Z.of_nat (length indices)
                   + c * Z.of_nat (list_sum (map size indices)))%Z);
      [apply Hbody| | |].
    + intros counts n1. apply IH.
    + nia.
    + unfold list_sum. cbn [map fold_right length]. nia.
Qed.

(** X17.  Whatever the provider does, the delivery loop of part_000 sleeps
    for at most 10000 ms for each batch (the back-offs of sendBatch and the
    pause between batches) plus 6600 ms for each message (the back-offs of
    sendSingle and the pause after it); the loop of send-newsletter.js for
    at most 10000 ms for each batch. *)
Theorem delivery_wait_budget :
  forall provider key (allEmails : list EmailMessage) (n : nat),
    waits_within (10000 * Z.of_nat (length (batches allEmails))
                  + 6600 * Z.of_nat (length allEmails))
      (Part000.deliver_from provider key allEmails 0 0 0 n) /\
    waits_within (10000 * Z.of_nat (length (batches allEmails)))
      (SendNewsletter.deliver_from provider key allEmails 0 0 0 n).
Proof.
  intros provider key allEmails n. split.
  - rewrite (deliver_from_run_at provider key allEmails _ 0 0 0 n eq_refl).
    unfold batches. rewrite length_map.
    rewrite <- (batch_sizes_sum allEmails) at 2.
    apply run_at_waits; [lia|]. intros. apply loop_body_waits.
  - rewrite (deliver_from_run_at_sn provider key allEmails _ 0 0 0 n eq_refl).
    unfold batches. rewrite length_map.
    apply waits_mono
      with (w := (10000 * Z.of_nat (length (loop_indices (length allEmails) 0))
                  + 0 * Z.of_nat (list_sum (map (fun _ => 0%nat)
                                              (loop_indices (length allEmails) 0))))%Z);
      [|lia].
    apply run_at_waits; [lia|]. intros.
    apply waits_mono with (w := 10000%Z); [apply loop_body_waits_sn|lia].
Qed.

(** ** A batch the provider has accepted *)

(** X18.  When sendBatch succeeds on a batch (at once or after 429s), the
    loop of either script counts every message of the batch as sent, prints
    one line for each, pauses as usual, and makes no further request for
    that batch: no message of an accepted batch is sent again on its own,
    and the failed count does not change. *)
Theorem accepted_batch_is_not_resent provider key allEmails i sent failed n r n1 t1 :
  Part000.sendBatch provider key (slice i (i + BATCH_SIZE) allEmails) 3 n = (Ok r, n1, t1) ->
  success r = true ->
  Part000.loop_body provider key allEmails i sent failed n
  = (Ok ((sent + length (slice i (i + BATCH_SIZE) allEmails))%nat, failed), n1,
     sending_line allEmails i :: t1
     ++ map sent_line (slice i (i + BATCH_SIZE) allEmails) ++ batch_pause allEmails i) /\
  SendNewsletter.loop_body provider key allEmails i sent failed n
  = Part000.loop_body provider key allEmails i sent failed n /\
  payloads_of single_url (snd (Part000.loop_body provider key allEmails i sent failed n)) = [].
Proof.
  intros Hb Hok.
  assert (Hp : Part000.loop_body provider key allEmails i sent failed n
               = (Ok ((sent + length (slice i (i + BATCH_SIZE) allEmails))%nat, failed), n1,
                  sending_line allEmails i :: t1
                  ++ map sent_line (slice i (i + BATCH_SIZE) allEmails)
                  ++ batch_pause allEmails i)).
  { unfold Part000.loop_body, console_log. rewrite bind_emit.
    rewrite (bind_ok _ _ _ _ _ _ _ _ Hb), Hok.
    rewrite bind_assoc, (bind_ok _ _ _ _ _ _ _ _ (log_sent_trace _ n1)), bind_ret.
    rewrite (bind_ok _ _ _ _ _ _ _ _ (pause_between_batches allEmails i n1)).
    unfold ret, sending_line. cbn [app]. rewrite app_nil_r. reflexivity. }
  split; [exact Hp|]. split.
  - rewrite Hp. rewrite <- sendBatch_same_run in Hb.
    unfold SendNewsletter.loop_body, console_log. cbv zeta. rewrite bind_emit.
    rewrite (bind_ok _ _ _ _ _ _ _ _ Hb), Hok.
    rewrite bind_assoc, (bind_ok _ _ _ _ _ _ _ _ (log_sent_trace_sn _ n1)), bind_ret.
    rewrite (bind_ok _ _ _ _ _ _ _ _ (pause_between_batches allEmails i n1)).
    unfold ret, sending_line. cbn [app]. rewrite app_nil_r. reflexivity.
  - rewrite Hp. cbn [snd].
    assert (Ht1 : payloads_of single_url t1 = []).
    { unfold Part000.sendBatch in Hb.
      destruct (sendBatch_from_shape provider key (slice i (i + BATCH_SIZE) allEmails)
                  3 _ 1%Z n eq_refl ltac:(lia)) as (k & _ & _ & _ & _ & Hs).
      rewrite Hb in Hs. exact Hs. }
    rewrite (payloads_of_console single_url (sending_line allEmails i)) by exact I.
    rewrite !payloads_of_app, Ht1, payloads_of_sent_lines, payloads_of_batch_pause.
    reflexivity.
Qed.

Lemma accepted_batch_is_not_resent_witness :
  exists t,
    Part000.loop_body (scripted [429; 200]%Z JNull) (js "key") (sample_messages 2) 0 0 0 0
    = (Ok (2%nat, 0%nat), 2%nat, t) /\
    payloads_of single_url t = [].
Proof.
  destruct (Part000.sendBatch (scripted [429; 200]%Z JNull) (js "key")
              (slice 0 (0 + BATCH_SIZE) (sample_messages 2)) 3 0) as [[res n1] t1] eqn:Hb.
  assert (Hres : res = Ok {| success := true; res_status := None; res_data := Some JNull |}).
  { change res with (fst (fst (res, n1, t1))). rewrite <- Hb. vm_compute. reflexivity. }
  assert (Hn : n1 = 2%nat).
  { change n1 with (snd (fst (res, n1, t1))). rewrite <- Hb. vm_compute. reflexivity. }
  subst res n1.
  destruct (accepted_batch_is_not_resent (scripted [429; 200]%Z JNull) (js "key")
              (sample_messages 2) 0 0 0 0 _ 2%nat t1 Hb eq_refl) as (Hrun & _ & Hs).
  eexists. split; [exact Hrun|]. rewrite Hrun in Hs. exact Hs.
Defined.
